(** * z.ai2api_deno: request shaping helpers and model registry

    A shallow embedding of [app/utils/helpers.ts] and
    [app/utils/model_fetcher.ts], with the properties of their
    specification proved (or refuted) on the embedding.

    Conventions of the embedding:
    - a JavaScript string is the list of its UTF-16 code units;
    - a JavaScript object used as a record of strings, a [Map] and a
      [URLSearchParams] are insertion-ordered association lists;
    - the clock, the random sources, the network and the module-level
      User-Agent cache live in an explicit [World], threaded through a
      state-and-exception monad that stands for [async] functions. *)

From Stdlib Require Import Ascii String DecimalString.
From Stdlib Require Import List NArith ZArith Bool Lia.
Import ListNotations.

Set Implicit Arguments.

(* ================================================================== *)
(** * Part I: definitions                                              *)
(* ================================================================== *)

(** ** JavaScript strings *)

Definition CodeUnit := N.
Definition jsstring := list CodeUnit.

Local Open Scope N_scope.

(** Source literals are written as UTF-8 text; [js] turns one into the
    UTF-16 code units the runtime holds. *)
Fixpoint utf8_points (bs : list N) : list N :=
  match bs with
  | [] => []
  | b0 :: r0 =>
    if b0 <? 0x80 then b0 :: utf8_points r0
    else
      match r0 with
      | [] => []
      | b1 :: r1 =>
        if b0 <? 0xE0 then
          N.lor (N.shiftl (N.land b0 0x1F) 6) (N.land b1 0x3F) :: utf8_points r1
        else
          match r1 with
          | [] => []
          | b2 :: r2 =>
            if b0 <? 0xF0 then
              N.lor (N.shiftl (N.land b0 0x0F) 12)
                (N.lor (N.shiftl (N.land b1 0x3F) 6) (N.land b2 0x3F))
              :: utf8_points r2
            else
              match r2 with
              | [] => []
              | b3 :: r3 =>
                N.lor (N.shiftl (N.land b0 0x07) 18)
                  (N.lor (N.shiftl (N.land b1 0x3F) 12)
                     (N.lor (N.shiftl (N.land b2 0x3F) 6) (N.land b3 0x3F)))
                :: utf8_points r3
              end
          end
      end
  end.

Definition utf16_units (cp : N) : list CodeUnit :=
  if cp <? 0x10000 then [cp]
  else [0xD800 + N.shiftr (cp - 0x10000) 10; 0xDC00 + N.land (cp - 0x10000) 0x3FF].

Definition js (s : string) : jsstring :=
  flat_map utf16_units (utf8_points (map N_of_ascii (list_ascii_of_string s))).

Definition jsstring_eqb (a b : jsstring) : bool :=
  if list_eq_dec N.eq_dec a b then true else false.

Infix "===" := jsstring_eqb (at level 70, no associativity).

(** ToBoolean on a string: only the empty string is falsy. *)
Definition truthy (s : jsstring) : bool :=
  match s with [] => false | _ :: _ => true end.

(** ECMAScript WhiteSpace and LineTerminator code points: what
    [String.prototype.trim] strips and what [\s] matches. *)
Definition isLineTerminator (c : CodeUnit) : bool :=
  (c =? 0x0A) || (c =? 0x0D) || (c =? 0x2028) || (c =? 0x2029).

Definition isWhiteSpace (c : CodeUnit) : bool :=
  (c =? 0x09) || (c =? 0x0B) || (c =? 0x0C) || (c =? 0x20) || (c =? 0xA0)
  || (c =? 0x1680) || ((0x2000 <=? c) && (c <=? 0x200A))
  || (c =? 0x202F) || (c =? 0x205F) || (c =? 0x3000) || (c =? 0xFEFF).

Definition isSpace (c : CodeUnit) : bool := isWhiteSpace c || isLineTerminator c.

Fixpoint trimStart (s : jsstring) : jsstring :=
  match s with
  | [] => []
  | c :: r => if isSpace c then trimStart r else s
  end.

Definition trimEnd (s : jsstring) : jsstring := rev (trimStart (rev s)).

Definition trim (s : jsstring) : jsstring := trimEnd (trimStart s).

(** [Array.prototype.join("")] on an array of strings. *)
Definition join (l : list jsstring) : jsstring := concat l.

(** ** Chat messages *)

(** Modelled from the spec: the [ContentPart] and [Message] interfaces of
    [models/schemas.ts], which is not part of the sources at hand.  A
    part may lack its text field; the content of a message is a single
    string, an ordered list of parts, or neither; [reasoning_content] is
    an optional string. *)
Record ContentPart := mkPart {
  part_type : jsstring;
  text : option jsstring
}.

Inductive MessageContent :=
| ContentString (s : jsstring)
| ContentParts (parts : list ContentPart)
| ContentAbsent.

Record Message := mkMessage {
  role : jsstring;
  content : MessageContent;
  reasoning_content : option jsstring
}.

(** [part.text ?? ""] *)
Definition partText (part : ContentPart) : jsstring :=
  match text part with Some t => t | None => [] end.

Definition extractMessageText (message : Message) : jsstring :=
  match content message with
  | ContentString s => s
  | ContentParts parts => trim (join (map partText parts))
  | ContentAbsent =>
    match reasoning_content message with
    | Some r => r
    | None => []
    end
  end.

(** The loop [for (let i = messages.length - 1; i >= 0; i--)]: the
    argument [k] is [i + 1], the number of entries still to inspect.
    [None] means that the loop ran to its end without returning. *)
Fixpoint lastUserLoop (messages : list Message) (k : nat) : option jsstring :=
  match k with
  | O => None
  | S i =>
    match nth_error messages i with
    | Some msg =>
      if role msg === js "user" then
        let content := extractMessageText msg in
        if truthy content then Some content else lastUserLoop messages i
      else lastUserLoop messages i
    | None => lastUserLoop messages i
    end
  end.

(** [messages.at(-1)] *)
Definition at_last (A : Type) (l : list A) : option A :=
  nth_error l (length l - 1).

Definition getLastUserMessageContent (messages : list Message) : jsstring :=
  match lastUserLoop messages (length messages) with
  | Some content => content
  | None =>
    match at_last messages with
    | Some fallback => extractMessageText fallback
    | None => []
    end
  end.

(** ** Numbers as text *)

(** [Number.prototype.toString()] and [String(n)] on an integer in the
    range where the runtime prints plain decimal digits. *)
Definition decimal (z : Z) : jsstring :=
  js (NilZero.string_of_int (Z.to_int z)).

Definition hexDigit (d : N) : CodeUnit :=
  if d <? 10 then 48 + d else 87 + d.

Fixpoint toString16_go (fuel : nat) (n : N) (acc : jsstring) : jsstring :=
  match fuel with
  | O => acc
  | S f =>
    let acc' := hexDigit (n mod 16) :: acc in
    if n / 16 =? 0 then acc' else toString16_go f (n / 16) acc'
  end.

(** [n.toString(16)] *)
Definition toString16 (n : N) : jsstring :=
  toString16_go (S (N.size_nat n)) n [].

(** [s.padStart(width, "0")] *)
Definition padStart0 (width : nat) (s : jsstring) : jsstring :=
  repeat 48 (width - length s) ++ s.

(** [Array.from(bytes).map((b) => b.toString(16).padStart(2, "0")).join("")] *)
Definition hexOfBytes (bytes : list N) : jsstring :=
  join (map (fun b => padStart0 2 (toString16 b)) bytes).

(** [s.substring(0, n)] *)
Definition substring0 (n : nat) (s : jsstring) : jsstring := firstn n s.

(** ** Searching and splitting *)

Fixpoint startsWith (p s : jsstring) : bool :=
  match p, s with
  | [], _ => true
  | _ :: _, [] => false
  | a :: p', b :: s' => (a =? b) && startsWith p' s'
  end.

Fixpoint includes (p s : jsstring) : bool :=
  startsWith p s ||
  match s with
  | [] => false
  | _ :: r => includes p r
  end.

(** [s.split(sep)] for a non-empty separator.  [skip] counts the code
    units of a separator just recognised that are still to be passed
    over; [cur] is the piece being collected, most recent unit first. *)
Fixpoint split_go (sep : jsstring) (skip : nat) (cur : jsstring) (s : jsstring)
  : list jsstring :=
  match s with
  | [] => [rev cur]
  | c :: r =>
    match skip with
    | S k => split_go sep k cur r
    | O =>
      if startsWith sep s then rev cur :: split_go sep (length sep - 1) [] r
      else split_go sep 0 (c :: cur) r
    end
  end.

Definition split (sep s : jsstring) : list jsstring := split_go sep 0 [] s.

(** ** [TextEncoder]: UTF-16 code units to UTF-8 bytes *)

Definition utf8_bytes (cp : N) : list N :=
  if cp <? 0x80 then [cp]
  else if cp <? 0x800 then
    [N.lor 0xC0 (N.shiftr cp 6); N.lor 0x80 (N.land cp 0x3F)]
  else if cp <? 0x10000 then
    [N.lor 0xE0 (N.shiftr cp 12); N.lor 0x80 (N.land (N.shiftr cp 6) 0x3F);
     N.lor 0x80 (N.land cp 0x3F)]
  else
    [N.lor 0xF0 (N.land (N.shiftr cp 18) 0x07);
     N.lor 0x80 (N.land (N.shiftr cp 12) 0x3F);
     N.lor 0x80 (N.land (N.shiftr cp 6) 0x3F); N.lor 0x80 (N.land cp 0x3F)].

Definition isHighSurrogate (c : CodeUnit) : bool := (0xD800 <=? c) && (c <=? 0xDBFF).
Definition isLowSurrogate (c : CodeUnit) : bool := (0xDC00 <=? c) && (c <=? 0xDFFF).

(** [new TextEncoder().encode(s)]: a surrogate pair becomes one code
    point, a lone surrogate the replacement character U+FFFD. *)
Fixpoint encode (s : jsstring) : list N :=
  match s with
  | [] => []
  | c :: r =>
    if isHighSurrogate c then
      match r with
      | d :: r' =>
        if isLowSurrogate d then
          utf8_bytes (0x10000 + N.shiftl (c - 0xD800) 10 + (d - 0xDC00)) ++ encode r'
        else utf8_bytes 0xFFFD ++ encode r
      | [] => utf8_bytes 0xFFFD
      end
    else if isLowSurrogate c then utf8_bytes 0xFFFD ++ encode r
    else utf8_bytes c ++ encode r
  end.

(** ** SHA-256 (FIPS 180-4) and HMAC (RFC 2104): what
    [crypto.subtle.sign("HMAC", key, data)] computes for a key imported
    with [{ name: "HMAC", hash: "SHA-256" }] *)

Module Sha256.

Definition mask32 (x : N) : N := x mod 0x100000000.
Definition add32 (x y : N) : N := mask32 (x + y).
Definition rotr (n x : N) : N :=
  N.lor (N.shiftr x n) (mask32 (N.shiftl x (32 - n))).
Definition not32 (x : N) : N := N.lxor x 0xFFFFFFFF.

Definition Ch (x y z : N) : N := N.lxor (N.land x y) (N.land (not32 x) z).
Definition Maj (x y z : N) : N :=
  N.lxor (N.lxor (N.land x y) (N.land x z)) (N.land y z).
Definition bigSigma0 (x : N) : N := N.lxor (N.lxor (rotr 2 x) (rotr 13 x)) (rotr 22 x).
Definition bigSigma1 (x : N) : N := N.lxor (N.lxor (rotr 6 x) (rotr 11 x)) (rotr 25 x).
Definition smallSigma0 (x : N) : N := N.lxor (N.lxor (rotr 7 x) (rotr 18 x)) (N.shiftr x 3).
Definition smallSigma1 (x : N) : N := N.lxor (N.lxor (rotr 17 x) (rotr 19 x)) (N.shiftr x 10).

(** The constants of the standard are fractional parts of roots of the
    first primes, on 32 bits: of their cube roots for the 64 round
    constants, of the square roots of the first 8 for the initial hash
    value. *)
Definition primes : list N :=
  [2; 3; 5; 7; 11; 13; 17; 19; 23; 29; 31; 37; 41; 43; 47; 53; 59; 61; 67; 71;
   73; 79; 83; 89; 97; 101; 103; 107; 109; 113; 127; 131; 137; 139; 149; 151;
   157; 163; 167; 173; 179; 181; 191; 193; 197; 199; 211; 223; 227; 229; 233;
   239; 241; 251; 257; 263; 269; 271; 277; 281; 283; 293; 307; 311].

(** The integer cube root, one bit at a time from the highest. *)
Fixpoint cubeRoot_go (bits : nat) (n r : N) : N :=
  match bits with
  | O => r
  | S k =>
    let r' := r + N.shiftl 1 (N.of_nat k) in
    if r' * r' * r' <=? n then cubeRoot_go k n r' else cubeRoot_go k n r
  end.

Definition cubeRoot (n : N) : N := cubeRoot_go 40 n 0.

Definition roundConstants : list N :=
  Eval vm_compute in map (fun q => mask32 (cubeRoot (N.shiftl q 96))) primes.

Record Regs := mkRegs { ra : N; rb : N; rc : N; rd : N; re : N; rf : N; rg : N; rh : N }.

Definition initial : Regs :=
  Eval vm_compute in
    match map (fun q => mask32 (N.sqrt (N.shiftl q 64))) (firstn 8 primes) with
    | [a; b; c; d; e; f; g; h] => mkRegs a b c d e f g h
    | _ => mkRegs 0 0 0 0 0 0 0 0
    end.

(** Message padding: a 1 bit, zeros up to 56 mod 64 bytes, then the
    bit length on 8 bytes, big endian. *)
Definition bigEndian (width : nat) (x : N) : list N :=
  map (fun i => N.shiftr x (8 * N.of_nat (width - 1 - i)) mod 256) (seq 0 width).

Definition pad (msg : list N) : list N :=
  let len := length msg in
  msg ++ [0x80] ++ repeat 0 ((64 - (len + 9) mod 64) mod 64)
      ++ bigEndian 8 (8 * N.of_nat len).

Fixpoint words (fuel : nat) (bytes : list N) : list N :=
  match fuel, bytes with
  | S f, b0 :: b1 :: b2 :: b3 :: r =>
    (N.shiftl b0 24 + N.shiftl b1 16 + N.shiftl b2 8 + b3) :: words f r
  | _, _ => []
  end.

(** The message schedule, most recent word first while it grows. *)
Definition extend (ws : list N) : list N :=
  add32 (add32 (smallSigma1 (nth 1 ws 0)) (nth 6 ws 0))
        (add32 (smallSigma0 (nth 14 ws 0)) (nth 15 ws 0)) :: ws.

Definition schedule (block : list N) : list N :=
  rev (Nat.iter 48 extend (rev (words 16 block))).

Definition step (s : Regs) (kw : N * N) : Regs :=
  let t1 := add32 (add32 (add32 (add32 (rh s) (bigSigma1 (re s)))
                                (Ch (re s) (rf s) (rg s))) (fst kw)) (snd kw) in
  let t2 := add32 (bigSigma0 (ra s)) (Maj (ra s) (rb s) (rc s)) in
  mkRegs (add32 t1 t2) (ra s) (rb s) (rc s) (add32 (rd s) t1) (re s) (rf s) (rg s).

Definition compress (h : Regs) (block : list N) : Regs :=
  let s := fold_left step (combine roundConstants (schedule block)) h in
  mkRegs (add32 (ra h) (ra s)) (add32 (rb h) (rb s)) (add32 (rc h) (rc s))
         (add32 (rd h) (rd s)) (add32 (re h) (re s)) (add32 (rf h) (rf s))
         (add32 (rg h) (rg s)) (add32 (rh h) (rh s)).

Fixpoint absorb (fuel : nat) (h : Regs) (bytes : list N) : Regs :=
  match fuel with
  | O => h
  | S f => absorb f (compress h (firstn 64 bytes)) (skipn 64 bytes)
  end.

Definition output (h : Regs) : list N :=
  flat_map (bigEndian 4) [ra h; rb h; rc h; rd h; re h; rf h; rg h; rh h].

Definition digest (msg : list N) : list N :=
  let padded := pad msg in
  output (absorb (length padded / 64) initial padded).

End Sha256.

Module Hmac.

Definition blockSize : nat := 64.

Definition blockKey (key : list N) : list N :=
  let k := if (blockSize <? length key)%nat then Sha256.digest key else key in
  k ++ repeat 0 (blockSize - length k).

Definition sign (key data : list N) : list N :=
  let k := blockKey key in
  Sha256.digest (map (N.lxor 0x5c) k ++ Sha256.digest (map (N.lxor 0x36) k ++ data)).

End Hmac.

(** ** Objects, maps and free-form JSON values *)

(** A JavaScript object whose keys are strings, a [Map] with string keys:
    both keep their entries in insertion order. *)
Definition Dict (V : Type) := list (jsstring * V).

Section Dict.
Variable V : Type.

Fixpoint dict_get (k : jsstring) (d : Dict V) : option V :=
  match d with
  | [] => None
  | (k', v) :: r => if k' === k then Some v else dict_get k r
  end.

(** [obj[k] = v], [map.set(k, v)]: an existing key keeps its place. *)
Fixpoint dict_set (k : jsstring) (v : V) (d : Dict V) : Dict V :=
  match d with
  | [] => [(k, v)]
  | (k', v') :: r =>
    if k' === k then (k, v) :: r else (k', v') :: dict_set k v r
  end.

(** [delete obj[k]] *)
Definition dict_delete (k : jsstring) (d : Dict V) : Dict V :=
  filter (fun kv => negb (fst kv === k)) d.

Definition dict_has (k : jsstring) (d : Dict V) : bool :=
  match dict_get k d with Some _ => true | None => false end.

Definition dict_keys (d : Dict V) : list jsstring := map fst d.

(** [Array.from(map.values())] *)
Definition dict_values (d : Dict V) : list V := map snd d.

(** [Object.assign(target, source)] *)
Definition assign (target source : Dict V) : Dict V :=
  fold_left (fun t kv => dict_set (fst kv) (snd kv) t) source target.

(** [URLSearchParams.prototype.set]: the first entry of that name takes
    the value and the later ones go; a new name is appended. *)
Fixpoint searchParams_set (k : jsstring) (v : V) (d : Dict V) : Dict V :=
  match d with
  | [] => [(k, v)]
  | (k', v') :: r =>
    if k' === k then (k, v) :: dict_delete k r
    else (k', v') :: searchParams_set k v r
  end.
End Dict.

Local Close Scope N_scope.

(** A number of the runtime.  A finite one is kept by the integers s
    and n of Number::toString: its [digits] d1 d2 ... dk are those of s
    and its value is 0.d1d2...dk times ten to the [point] n; zero has no
    digit.  [JSON.parse] gives finite numbers and, past the range of the
    doubles, the infinities. *)
Inductive JsNumber :=
| NaN
| Infinity (negative : bool)
| Finite (negative : bool) (digits : N) (point : Z).

(** The number of an integer. *)
Definition integer (z : Z) : JsNumber :=
  Finite (z <? 0)%Z (Z.abs_N z) (Z.of_nat (length (decimal (Z.abs z)))).

(** The digits of s without the zeros at their end: k is as small as
    possible. *)
Definition significant (ds : jsstring) : jsstring :=
  rev ((fix strip (l : jsstring) : jsstring :=
          match l with
          | 48%N :: r => strip r
          | other => other
          end) (rev ds)).

(** Number::toString in radix 10, and so [String(x)] and the [${x}] of
    a template: plain digits when n is between -5 and 21, the
    exponential form otherwise. *)
Definition number_toString (x : JsNumber) : jsstring :=
  match x with
  | NaN => js "NaN"
  | Infinity negative => (if negative then js "-" else []) ++ js "Infinity"
  | Finite negative s n =>
    if (s =? 0)%N then js "0"
    else
      let ds := significant (decimal (Z.of_N s)) in
      let k := Z.of_nat (length ds) in
      (if negative then js "-" else [])
      ++ (if ((k <=? n) && (n <=? 21))%Z then
            ds ++ repeat 48%N (Z.to_nat (n - k))
          else if ((0 <? n) && (n <=? 21))%Z then
            firstn (Z.to_nat n) ds ++ js "." ++ skipn (Z.to_nat n) ds
          else if ((-6 <? n) && (n <=? 0))%Z then
            js "0." ++ repeat 48%N (Z.to_nat (- n)) ++ ds
          else
            let e := (n - 1)%Z in
            let exponent :=
              js "e" ++ (if (0 <=? e)%Z then js "+" else js "-") ++ decimal (Z.abs e) in
            match ds with
            | [] => []
            | [d] => [d] ++ exponent
            | d :: more => [d] ++ js "." ++ more ++ exponent
            end)
  end.

#[warnings="-register-all"]
Inductive Json :=
| JNull
| JBool (b : bool)
| JNumber (x : JsNumber)
| JString (s : jsstring)
| JArray (items : list Json)
| JObject (fields : list (jsstring * Json)).

(** ToBoolean *)
Definition json_truthy (v : Json) : bool :=
  match v with
  | JNull => false
  | JBool b => b
  | JNumber NaN => false
  | JNumber (Infinity _) => true
  | JNumber (Finite _ s _) => negb (s =? 0)%N
  | JString s => truthy s
  | JArray _ | JObject _ => true
  end.

(** [String(value)] *)
Fixpoint json_toString (v : Json) : jsstring :=
  match v with
  | JNull => js "null"
  | JBool true => js "true"
  | JBool false => js "false"
  | JNumber x => number_toString x
  | JString s => s
  | JArray items =>
    (fix items_toString (l : list Json) : jsstring :=
       match l with
       | [] => []
       | x :: r =>
         (match x with JNull => [] | _ => json_toString x end)
         ++ match r with [] => [] | _ :: _ => js "," ++ items_toString r end
       end) items
  | JObject _ => js "[object Object]"
  end.

(** [Object.entries(value)] of an object or an array. *)
Definition entries (v : Json) : list (jsstring * Json) :=
  match v with
  | JObject fields => fields
  | JArray items =>
    combine (map (fun i => decimal (Z.of_nat i)) (seq 0 (length items))) items
  | _ => []
  end.

Definition isObject (v : Json) : bool :=
  match v with JObject _ | JArray _ => true | _ => false end.

(** ** Models, requests and responses *)

Record ZAIModelInfo := mkInfo {
  info_name : option jsstring;
  info_created_at : option Z;
  info_user_id : option jsstring;
  info_rest : list (jsstring * Json)
}.

(** The interface [ZAIModel]: every field but [id] is optional, and the
    index signature admits any further field ([rest]). *)
Record ZAIModel := mkModel {
  id : jsstring;
  name : option jsstring;
  display_name : option jsstring;
  created : option Z;
  owned_by : option jsstring;
  info : option ZAIModelInfo;
  rest : list (jsstring * Json)
}.

(** Modelled from the spec: the [UpstreamRequest] interface of
    [models/schemas.ts], which is not part of the sources at hand: a
    [messages] ordered sequence ([None] when the field is not an array),
    an optional free-form [params] value, and other provider-specific
    fields. *)
Record UpstreamRequest := mkUpstreamRequest {
  messages : option (list Message);
  params : option Json;
  fields : list (jsstring * Json)
}.

Record URL := mkURL {
  base : jsstring;
  searchParams : Dict jsstring
}.

(** What [fetch(url, init)] is given.  The body is kept as the object
    handed to [JSON.stringify]; [timeout] is the delay, in milliseconds,
    of the [AbortSignal.timeout] signal. *)
Record Request := mkRequest {
  url : URL;
  method : jsstring;
  headers : Dict jsstring;
  body : option UpstreamRequest;
  timeout : Z
}.

(** What [await response.json()] gives, seen through the two properties
    the code reads: [token], read untyped, and [data], read at the type
    [ZAIModel[]] that [ZAIModelsResponse] declares.  An absent property
    is [None].  Reading a property of [null] raises. *)
Inductive Parsed :=
| ParsedNull
| ParsedValue (token : option Json) (data : option (list ZAIModel)).

Record Response := mkResponse {
  status : Z;
  json : option Parsed   (* [None]: the body is not JSON and [json()] rejects *)
}.

(** [response.ok] *)
Definition ok (r : Response) : bool :=
  ((200 <=? status r) && (status r <=? 299))%Z.

Inductive Exn :=
| Error (message : jsstring)        (* [new Error(message)] *)
| TypeError (message : jsstring)    (* a property read on [null], a call of a non-function *)
| DataError                         (* [importKey] on empty key material *)
| NetworkError (message : jsstring) (* [fetch] rejects: no connection, DNS, TLS ... *)
| TimeoutError                      (* the [AbortSignal.timeout] signal fired *)
| SyntaxError.                      (* [response.json()] on a body that is not JSON *)

Inductive FetchOutcome :=
| Rejected (e : Exn)
| Resolved (r : Response).

(** ** Configuration *)

(** Modelled from the spec: the [config] object of [core/config.ts], which
    is not part of the sources at hand: origin URL, API endpoint URL (in
    the parsed form [new URL] gives it), anonymous-mode flag, fixed backup
    token, debug-logging flag, thinking-content processing mode, and the
    named default model identifiers. *)
Record Config := mkConfig {
  DEBUG_LOGGING : bool;
  ANONYMOUS_MODE : bool;
  BACKUP_TOKEN : jsstring;
  CLIENT_HEADERS_Origin : jsstring;
  API_ENDPOINT : URL;
  THINKING_PROCESSING : jsstring;
  PRIMARY_MODEL : jsstring;
  THINKING_MODEL : jsstring;
  SEARCH_MODEL : jsstring;
  AIR_MODEL : jsstring;
  PRIMARY_MODEL_NEW : jsstring;
  THINKING_MODEL_NEW : jsstring;
  SEARCH_MODEL_NEW : jsstring
}.

(** ** The world outside and the effect monad *)

(** A source of readings: the [n]-th call gets [feed n]. *)
Record Source (A : Type) := mkSource {
  feed : nat -> A;
  position : nat
}.

Definition draw (A : Type) (s : Source A) : A * Source A :=
  (feed s (position s), mkSource (feed s) (S (position s))).

(** The cache [_userAgentInstance] holds these five strings. *)
Record UserAgents := mkUserAgents {
  chrome : jsstring;
  edge : jsstring;
  firefox : jsstring;
  safari : jsstring;
  random : jsstring
}.

Record World := mkWorld {
  dateNow : Source Z;                 (* readings of [Date.now()] *)
  mathRandom : Source N;              (* draws behind [Math.random()] *)
  cryptoRandom : Source N;            (* octets of [crypto.getRandomValues] *)
  cryptoUUID : Source jsstring;       (* results of [crypto.randomUUID()] *)
  network : Request -> FetchOutcome;  (* how [fetch] settles *)
  _userAgentInstance : option UserAgents;
  console : list jsstring             (* lines written by [console.log] *)
}.

Inductive Outcome (A : Type) :=
| Returned (a : A)
| Threw (e : Exn).
Arguments Threw {A} e.

Definition Async (A : Type) := World -> Outcome A * World.

Definition ret (A : Type) (a : A) : Async A := fun w => (Returned a, w).

Definition throw (A : Type) (e : Exn) : Async A := fun w => (Threw e, w).
Arguments throw {A} e.

Definition bind (A B : Type) (m : Async A) (k : A -> Async B) : Async B :=
  fun w =>
    match m w with
    | (Returned a, w') => k a w'
    | (Threw e, w') => (Threw e, w')
    end.

(** [try { body } catch (error) { handler }] *)
Definition tryCatch (A : Type) (body : Async A) (handler : Exn -> Async A) : Async A :=
  fun w =>
    match body w with
    | (Returned a, w') => (Returned a, w')
    | (Threw e, w') => handler e w'
    end.

Notation "x <- m ;; k" := (bind m (fun x => k))
  (at level 61, m at next level, right associativity).
Notation "m ;;; k" := (bind m (fun _ => k))
  (at level 61, right associativity).

(** [Date.now()] *)
Definition Date_now : Async Z :=
  fun w =>
    let (t, src) := draw (dateNow w) in
    (Returned t,
     mkWorld src (mathRandom w) (cryptoRandom w) (cryptoUUID w) (network w)
             (_userAgentInstance w) (console w)).

(** [Math.floor(Math.random() * n)]: some index below [n]; which one is
    the world's choice. *)
Definition Math_random_index (n : nat) : Async nat :=
  fun w =>
    let (d, src) := draw (mathRandom w) in
    (Returned (N.to_nat (d mod N.of_nat n)),
     mkWorld (dateNow w) src (cryptoRandom w) (cryptoUUID w) (network w)
             (_userAgentInstance w) (console w)).

(** [crypto.getRandomValues(new Uint8Array(n))]: [n] octets. *)
Fixpoint take (A : Type) (n : nat) (s : Source A) : list A * Source A :=
  match n with
  | O => ([], s)
  | S k => let (a, s') := draw s in let (l, s'') := take k s' in (a :: l, s'')
  end.

Definition getRandomValues (n : nat) : Async (list N) :=
  fun w =>
    let (l, src) := take n (cryptoRandom w) in
    (Returned (map (fun b => b mod 256)%N l),
     mkWorld (dateNow w) (mathRandom w) src (cryptoUUID w) (network w)
             (_userAgentInstance w) (console w)).

(** [crypto.randomUUID()] *)
Definition randomUUID : Async jsstring :=
  fun w =>
    let (u, src) := draw (cryptoUUID w) in
    (Returned u,
     mkWorld (dateNow w) (mathRandom w) (cryptoRandom w) src (network w)
             (_userAgentInstance w) (console w)).

(** [await fetch(url, init)] *)
Definition fetch (request : Request) : Async Response :=
  fun w =>
    match network w request with
    | Rejected e => (Threw e, w)
    | Resolved r => (Returned r, w)
    end.

(** [await response.json()] *)
Definition response_json (r : Response) : Async Parsed :=
  match json r with
  | Some data => ret data
  | None => throw SyntaxError
  end.

Definition console_log (line : jsstring) : Async unit :=
  fun w =>
    (Returned tt,
     mkWorld (dateNow w) (mathRandom w) (cryptoRandom w) (cryptoUUID w) (network w)
             (_userAgentInstance w) (console w ++ [line])).

Definition set_userAgentInstance (ua : UserAgents) : Async unit :=
  fun w =>
    (Returned tt,
     mkWorld (dateNow w) (mathRandom w) (cryptoRandom w) (cryptoUUID w) (network w)
             (Some ua) (console w)).

Definition get_userAgentInstance : Async (option UserAgents) :=
  fun w => (Returned (_userAgentInstance w), w).

(** [`${error}`] *)
Definition exn_toString (e : Exn) : jsstring :=
  match e with
  | Error m => js "Error: " ++ m
  | TypeError m => js "TypeError: " ++ m
  | DataError => js "DataError: Key length is zero"
  | NetworkError m => js "TypeError: " ++ m
  | TimeoutError => js "TimeoutError: Signal timed out."
  | SyntaxError => js "SyntaxError: Unexpected token"
  end.

(** [crypto.subtle.importKey("raw", keyData, { name: "HMAC", hash:
    "SHA-256" }, false, ["sign"])]: the Web Cryptography API refuses key
    material of length zero with a DataError; otherwise the key is the
    octets given. *)
Definition importKey (keyData : list N) : Async (list N) :=
  match keyData with
  | [] => throw DataError
  | _ :: _ => ret keyData
  end.

(** [crypto.subtle.sign("HMAC", key, data)], read as [Uint8Array]. *)
Definition subtle_sign (key data : list N) : Async (list N) :=
  ret (Hmac.sign key data).

(* ------------------------------------------------------------------ *)
(** ** [app/utils/helpers.ts]                                          *)
(* ------------------------------------------------------------------ *)

Definition LF : jsstring := [10%N].

(** A text between double quotes. *)
Definition quoted (s : jsstring) : jsstring := [34%N] ++ s ++ [34%N].

Section Helpers.

Variable config : Config.

Definition userAgents : list jsstring :=
  [js "Mozilla/5.0 (Windows NT 10.0; Win64; x64) AppleWebKit/537.36 (KHTML, like Gecko) Chrome/139.0.0.0 Safari/537.36";
   js "Mozilla/5.0 (Windows NT 10.0; Win64; x64) AppleWebKit/537.36 (KHTML, like Gecko) Chrome/139.0.0.0 Safari/537.36 Edg/139.0.0.0";
   js "Mozilla/5.0 (Macintosh; Intel Mac OS X 10_15_7) AppleWebKit/537.36 (KHTML, like Gecko) Chrome/139.0.0.0 Safari/537.36";
   js "Mozilla/5.0 (X11; Linux x86_64) AppleWebKit/537.36 (KHTML, like Gecko) Chrome/139.0.0.0 Safari/537.36"].

Definition newUserAgentInstance (pick : nat) : UserAgents :=
  {| chrome := nth 0 userAgents [];
     edge := nth 1 userAgents [];
     firefox := js "Mozilla/5.0 (Windows NT 10.0; Win64; x64; rv:109.0) Gecko/20100101 Firefox/121.0";
     safari := js "Mozilla/5.0 (Macintosh; Intel Mac OS X 10_15_7) AppleWebKit/605.1.15 (KHTML, like Gecko) Version/17.1 Safari/605.1.15";
     random := nth pick userAgents [] |}.

Definition getUserAgentInstance : Async UserAgents :=
  cached <- get_userAgentInstance ;;
  match cached with
  | Some ua => ret ua
  | None =>
    pick <- Math_random_index (length userAgents) ;;
    let ua := newUserAgentInstance pick in
    set_userAgentInstance ua ;;;
    ret ua
  end.

(** [debugLog(message)]: no call of the sources passes further
    arguments. *)
Definition debugLog (message : jsstring) : Async unit :=
  if DEBUG_LOGGING config then console_log (js "[DEBUG] " ++ message)
  else ret tt.

(** The second and third parameters default to [""] and ["POST"]. *)
Definition generateLegacySignatureHeaders (token body method : jsstring)
  : Async (Dict jsstring) :=
  now <- Date_now ;;
  let timestamp := decimal now in
  randomBytes <- getRandomValues 8 ;;
  let nonce := substring0 16 (hexOfBytes randomBytes) in
  let signString := method ++ LF ++ timestamp ++ LF ++ nonce ++ LF ++ body in
  key <- importKey (encode token) ;;
  signature <- subtle_sign key (encode signString) ;;
  let signatureHex := hexOfBytes signature in
  debugLog (js "🔐 旧版签名头部: timestamp=" ++ timestamp
            ++ js ", nonce=" ++ substring0 8 nonce
            ++ js "..., signature=" ++ substring0 16 signatureHex ++ js "...") ;;;
  ret [(js "X-Timestamp", timestamp);
       (js "X-Nonce", nonce);
       (js "X-Signature", signatureHex)].

Definition hmacSha256Hex (key message : jsstring) : Async jsstring :=
  cryptoKey <- importKey (encode key) ;;
  signature <- subtle_sign cryptoKey (encode message) ;;
  ret (hexOfBytes signature).

Record ChatSignature := mkChatSignature {
  signature : jsstring;
  timestamp : Z
}.

Definition generateChatSignature (e t : jsstring) : Async ChatSignature :=
  timestampMs <- Date_now ;;
  let n := (timestampMs / (5 * 60 * 1000))%Z in
  intermediateKey <- hmacSha256Hex (js "junjie") (decimal n) ;;
  finalSignature <- hmacSha256Hex intermediateKey
                      (e ++ js "|" ++ t ++ js "|" ++ decimal timestampMs) ;;
  debugLog (js "🔐 新版签名: e=" ++ e ++ js ", t长度=" ++ decimal (Z.of_nat (length t))
            ++ js ", 签名=" ++ substring0 16 finalSignature
            ++ js "..., ts=" ++ decimal timestampMs) ;;;
  ret {| signature := finalSignature; timestamp := timestampMs |}.

Definition generateRequestIds : Async (jsstring * jsstring) :=
  now <- Date_now ;;
  let timestamp := (now / 1000)%Z in
  let chatId := decimal (timestamp * 1000) ++ js "-" ++ decimal timestamp in
  let msgId := decimal (timestamp * 1000000) in
  ret (chatId, msgId).

Definition browserChoices : list jsstring :=
  [js "chrome"; js "chrome"; js "chrome"; js "edge"; js "edge"; js "firefox"; js "safari"].

(** The [switch] on the browser type; an index out of the table reads
    [undefined] and takes the [default] branch. *)
Definition userAgentOf (ua : UserAgents) (browserType : option jsstring) : jsstring :=
  match browserType with
  | Some b =>
    if b === js "chrome" then chrome ua
    else if b === js "edge" then edge ua
    else if b === js "firefox" then firefox ua
    else if b === js "safari" then safari ua
    else random ua
  | None => random ua
  end.

(** [userAgent.split(marker)[1].split(".")[0]] inside its [try]: [None]
    when reading [split] of [undefined] raises. *)
Definition versionAfter (marker userAgent : jsstring) : option jsstring :=
  match nth_error (split marker userAgent) 1 with
  | Some tail => nth_error (split (js ".") tail) 0
  | None => None
  end.

Definition chromiumBrand (chromeVersion : jsstring) : jsstring :=
  quoted (js "Not_A Brand") ++ js ";v=" ++ quoted (js "8") ++ js ", "
  ++ quoted (js "Chromium") ++ js ";v=" ++ quoted chromeVersion ++ js ", "
  ++ quoted (js "Google Chrome") ++ js ";v=" ++ quoted chromeVersion.

Definition edgeBrand (edgeVersion chromeVersion : jsstring) : jsstring :=
  quoted (js "Microsoft Edge") ++ js ";v=" ++ quoted edgeVersion ++ js ", "
  ++ quoted (js "Chromium") ++ js ";v=" ++ quoted chromeVersion ++ js ", "
  ++ quoted (js "Not_A Brand") ++ js ";v=" ++ quoted (js "24").

Definition chromeVersionOf (userAgent : jsstring) : jsstring :=
  if includes (js "Chrome/") userAgent then
    match versionAfter (js "Chrome/") userAgent with
    | Some v => v
    | None => js "139"
    end
  else js "139".

(** The value of [secChUa]; [None] is [undefined]. *)
Definition secChUaOf (userAgent : jsstring) : option jsstring :=
  let chromeVersion := chromeVersionOf userAgent in
  if includes (js "Edg/") userAgent then
    match versionAfter (js "Edg/") userAgent with
    | Some edgeVersion => Some (edgeBrand edgeVersion chromeVersion)
    | None => Some (chromiumBrand chromeVersion)
    end
  else if includes (js "Firefox/") userAgent then None
  else Some (chromiumBrand chromeVersion).

Definition getBrowserHeaders (refererChatId : jsstring) : Async (Dict jsstring) :=
  ua <- getUserAgentInstance ;;
  pick <- Math_random_index (length browserChoices) ;;
  let browserType := nth_error browserChoices pick in
  let userAgent := userAgentOf ua browserType in
  let secChUa := secChUaOf userAgent in
  let headers : Dict jsstring :=
    [(js "Content-Type", js "application/json");
     (js "Accept", js "application/json, text/event-stream");
     (js "User-Agent", userAgent);
     (js "Accept-Language", js "zh-CN,zh;q=0.9,en;q=0.8,en-US;q=0.7");
     (js "sec-ch-ua-mobile", js "?0");
     (js "sec-ch-ua-platform", quoted (js "Windows"));
     (js "sec-fetch-dest", js "empty");
     (js "sec-fetch-mode", js "cors");
     (js "sec-fetch-site", js "same-origin");
     (js "X-FE-Version", js "prod-fe-1.0.79");
     (js "Origin", CLIENT_HEADERS_Origin config);
     (js "Cache-Control", js "no-cache");
     (js "Pragma", js "no-cache")] in
  let headers :=
    match secChUa with
    | Some v => if truthy v then dict_set (js "sec-ch-ua") v headers else headers
    | None => headers
    end in
  let headers :=
    if truthy refererChatId then
      dict_set (js "Referer")
               (CLIENT_HEADERS_Origin config ++ js "/c/" ++ refererChatId) headers
    else headers in
  (if DEBUG_LOGGING config then
     debugLog (js "使用 User-Agent: " ++ substring0 100 userAgent ++ js "...")
   else ret tt) ;;;
  ret headers.

(** [data.token], where [data] is what [response.json()] gave. *)
Definition read_token (data : Parsed) : Async (option Json) :=
  match data with
  | ParsedNull => throw (TypeError (js "Cannot read properties of null (reading 'token')"))
  | ParsedValue token _ => ret token
  end.

Definition getAnonymousToken : Async Json :=
  headers <- getBrowserHeaders [] ;;
  let headers := dict_set (js "Accept") (js "*/*") headers in
  let headers := dict_set (js "Accept-Language") (js "zh-CN,zh;q=0.9") headers in
  let headers := dict_set (js "Referer") (CLIENT_HEADERS_Origin config ++ js "/") headers in
  let tempToken := js "anonymous" in
  signatureHeaders <- generateLegacySignatureHeaders tempToken [] (js "GET") ;;
  let headers := assign headers signatureHeaders in
  tryCatch
    (response <- fetch {| url := mkURL (CLIENT_HEADERS_Origin config ++ js "/api/v1/auths/") [];
                          method := js "GET";
                          headers := headers;
                          body := None;
                          timeout := 10000 |} ;;
     if negb (ok response) then
       throw (Error (js "anon token status=" ++ decimal (status response)))
     else
       data <- response_json response ;;
       token <- read_token data ;;
       match token with
       | Some token => if json_truthy token then ret token
                       else throw (Error (js "anon token empty"))
       | None => throw (Error (js "anon token empty"))
       end)
    (fun error =>
       debugLog (js "获取匿名token失败: " ++ exn_toString error) ;;;
       throw error).

(** The receiver of [token.substring(...)], for a token of any type:
    only a string has the method, and calling it on anything else
    raises. *)
Definition substring_receiver (token : Json) : Async jsstring :=
  match token with
  | JString s => ret s
  | _ => throw (TypeError (js "token.substring is not a function"))
  end.

(** [None] stands for the fall through to the statement after the
    [if]; the [return token] within the [try] is [Some token]. *)
Definition getAuthToken : Async jsstring :=
  returned <-
    (if ANONYMOUS_MODE config then
       tryCatch
         (token <- getAnonymousToken ;;
          token <- substring_receiver token ;;
          debugLog (js "匿名token获取成功: " ++ substring0 10 token ++ js "...") ;;;
          ret (Some token))
         (fun error =>
            debugLog (js "匿名token获取失败，回退固定token: " ++ exn_toString error) ;;;
            ret None)
     else ret None) ;;
  match returned with
  | Some token => ret token
  | None => ret (BACKUP_TOKEN config)
  end.

(** *** Regular expressions with the [g] flag

    A pattern tells, at one position of the subject, how many code
    units its match there spans; it sees the code unit before the
    position, if any, and the text from the position on.  No pattern
    of the sources matches the empty string. *)
Definition Pattern := option CodeUnit -> jsstring -> option nat.

(** [subject.replace(pattern, by_)]: the subject is scanned from the
    left; a match is replaced and the scan resumes after it, a
    position without a match keeps its code unit.  [skip] counts the
    code units of the current match still to be passed over. *)
Fixpoint replace_go (p : Pattern) (by_ : jsstring) (skip : nat)
         (prev : option CodeUnit) (s : jsstring) : jsstring :=
  match s with
  | [] => []
  | c :: r =>
    match skip with
    | S k => replace_go p by_ k (Some c) r
    | O =>
      match p prev s with
      | Some (S k) => by_ ++ replace_go p by_ k (Some c) r
      | _ => c :: replace_go p by_ 0 (Some c) r
      end
    end
  end.

Definition replace (p : Pattern) (by_ : jsstring) (s : jsstring) : jsstring :=
  replace_go p by_ 0 None s.

(** [s.indexOf(p)] *)
Fixpoint indexOf (p s : jsstring) : option nat :=
  if startsWith p s then Some O
  else
    match s with
    | [] => None
    | _ :: r => option_map S (indexOf p r)
    end.

(** A pattern without operators, such as [/<\/thinking>/g]. *)
Definition literal (l : jsstring) : Pattern :=
  fun _ s => if startsWith l s then Some (length l) else None.

(** [open X*? close] where [X] matches any code unit, and [open X* close]
    where [X] matches any code unit that [close], a single code unit,
    is not: both end with the first [close] after [open]. *)
Definition upToFirst (open close : jsstring) : Pattern :=
  fun _ s =>
    if startsWith open s then
      match indexOf close (skipn (length open) s) with
      | Some i => Some (length open + i + length close)
      | None => None
      end
    else None.

(** [/<summary>[\s\S]*?<\/summary>/g] *)
Definition summaryBlock : Pattern := upToFirst (js "<summary>") (js "</summary>").

(** [/<details[^>]*>/g] *)
Definition detailsOpen : Pattern := upToFirst (js "<details") (js ">").

(** [/^> /gm]: with the [m] flag, [^] holds at the start of the subject
    and after a line terminator. *)
Definition linePrefix : Pattern :=
  fun prev s =>
    let atLineStart :=
      match prev with
      | None => true
      | Some c => isLineTerminator c
      end in
    if atLineStart && startsWith (js "> ") s then Some 2 else None.

Definition transformThinkingContent (content : jsstring) : jsstring :=
  let content := replace summaryBlock [] content in
  let content :=
    replace (literal (js "</Full>")) []
      (replace (literal (js "<Full>")) []
         (replace (literal (js "</thinking>")) [] content)) in
  let content := trim content in
  let content :=
    if THINKING_PROCESSING config === js "think" then
      let content := replace detailsOpen (js "<span>") content in
      replace (literal (js "</details>")) (js "</span>") content
    else if THINKING_PROCESSING config === js "strip" then
      let content := replace detailsOpen [] content in
      replace (literal (js "</details>")) [] content
    else content in
  let content := replace linePrefix [] content in
  let content := replace (literal (LF ++ js "> ")) LF content in
  trim content.

(** *** The upstream call

    The request body is kept as the object given to [JSON.stringify],
    and the URL as its base and its search parameters: the two debug
    lines that print their serialised text only show the fixed part. *)

(** The loop over [Object.entries(upstreamReq.params)]. *)
Definition setParams (entries : list (jsstring * Json)) (query : Dict jsstring)
  : Dict jsstring :=
  fold_left
    (fun q kv =>
       match snd kv with
       | JNull => q
       | value => searchParams_set (fst kv) (json_toString value) q
       end)
    entries query.

Definition callUpstreamApi (upstreamReq : UpstreamRequest) (chatId authToken : jsstring)
  : Async Response :=
  headers <- getBrowserHeaders chatId ;;
  let headers := dict_set (js "Authorization") (js "Bearer " ++ authToken) headers in
  requestId <- randomUUID ;;
  now <- Date_now ;;
  let timestamp := decimal now in
  userId <- randomUUID ;;
  let messageList :=
    match messages upstreamReq with
    | Some l => l
    | None => []
    end in
  let lastMessageContent := getLastUserMessageContent messageList in
  let signatureSource :=
    js "requestId," ++ requestId ++ js ",timestamp," ++ timestamp
    ++ js ",user_id," ++ userId in
  signed <- generateChatSignature signatureSource lastMessageContent ;;
  let (signature, signatureTimestamp) := signed in
  let headers := dict_set (js "X-Signature") signature headers in
  let query := searchParams (API_ENDPOINT config) in
  let query := searchParams_set (js "requestId") requestId query in
  let query := searchParams_set (js "timestamp") timestamp query in
  let query := searchParams_set (js "user_id") userId query in
  let query := searchParams_set (js "signature_timestamp")
                                (decimal signatureTimestamp) query in
  let query :=
    match params upstreamReq with
    | Some p => if json_truthy p && isObject p then setParams (entries p) query else query
    | None => query
    end in
  let url := mkURL (base (API_ENDPOINT config)) query in
  let requestPayload := mkUpstreamRequest (messages upstreamReq) None
                                          (fields upstreamReq) in
  debugLog (js "调用上游API: " ++ base url) ;;;
  debugLog (js "上游请求体: ") ;;;
  response <- fetch {| url := url;
                       method := js "POST";
                       headers := headers;
                       body := Some requestPayload;
                       timeout := 60000 |} ;;
  debugLog (js "上游响应状态: " ++ decimal (status response)) ;;;
  ret response.

End Helpers.

(* ------------------------------------------------------------------ *)
(** ** [app/utils/model_fetcher.ts]                                    *)
(* ------------------------------------------------------------------ *)

Section ModelFetcher.

Variable config : Config.

(** [data.data], where [data] is what [response.json()] gave. *)
Definition read_data (data : Parsed) : Async (option (list ZAIModel)) :=
  match data with
  | ParsedNull => throw (TypeError (js "Cannot read properties of null (reading 'data')"))
  | ParsedValue _ models => ret models
  end.

(** [None] from the inner [try] stands for its [return []]. *)
Definition fetchLatestModels : Async (list ZAIModel) :=
  tryCatch
    (acquired <-
       tryCatch
         (authToken <- getAnonymousToken config ;;
          authToken <- substring_receiver authToken ;;
          debugLog config (js "成功获取匿名token用于模型获取: "
                           ++ substring0 10 authToken ++ js "...") ;;;
          ret (Some authToken))
         (fun tokenError =>
            debugLog config (js "获取匿名token失败: " ++ exn_toString tokenError) ;;;
            ret None) ;;
     match acquired with
     | None => ret []
     | Some authToken =>
       headers <- getBrowserHeaders config [] ;;
       let headers := dict_set (js "Accept") (js "application/json") headers in
       let headers := dict_set (js "Authorization") (js "Bearer " ++ authToken) headers in
       let headers :=
         dict_set (js "User-Agent")
           (js "Mozilla/5.0 (X11; Linux x86_64) AppleWebKit/537.36 (KHTML, like Gecko) Chrome/140.0.0.0 Safari/537.36 Edg/140.0.0.0")
           headers in
       response <- fetch {| url := mkURL (js "https://chat.z.ai/api/models") [];
                            method := js "GET";
                            headers := headers;
                            body := None;
                            timeout := 10000 |} ;;
       if negb (ok response) then
         debugLog config (js "获取模型列表失败: " ++ decimal (status response)) ;;;
         ret []
       else
         data <- response_json response ;;
         models <- read_data data ;;
         debugLog config (js "成功获取到 "
                          ++ decimal (Z.of_nat (match models with
                                                | Some l => length l
                                                | None => 0
                                                end))
                          ++ js " 个模型") ;;;
         ret (match models with Some l => l | None => [] end)
     end)
    (fun error =>
       debugLog config (js "获取模型列表异常: " ++ exn_toString error) ;;;
       ret []).

(** One entry of the default list. *)
Definition defaultModel (model : jsstring) (currentTime : Z) : ZAIModel :=
  {| id := model;
     name := Some model;
     display_name := None;
     created := Some currentTime;
     owned_by := Some (js "z.ai");
     info := None;
     rest := [] |}.

Definition getDefaultModels : Async (list ZAIModel) :=
  now <- Date_now ;;
  let currentTime := (now / 1000)%Z in
  ret [defaultModel (PRIMARY_MODEL config) currentTime;
       defaultModel (THINKING_MODEL config) currentTime;
       defaultModel (SEARCH_MODEL config) currentTime;
       defaultModel (AIR_MODEL config) currentTime;
       defaultModel (PRIMARY_MODEL_NEW config) currentTime;
       defaultModel (THINKING_MODEL_NEW config) currentTime;
       defaultModel (SEARCH_MODEL_NEW config) currentTime].

(** [a || b] for an optional string [a]: absent and empty are falsy. *)
Definition stringOr (a : option jsstring) (b : jsstring) : jsstring :=
  match a with
  | Some s => if truthy s then s else b
  | None => b
  end.

(** [a || b] for an optional number [a]: absent and zero are falsy,
    and [b] is evaluated only then. *)
Definition numberOrElse (a : option Z) (b : Async Z) : Async Z :=
  match a with
  | Some z => if (z =? 0)%Z then b else ret z
  | None => b
  end.

(** [model.info?.name] and its two siblings. *)
Definition info_name_of (model : ZAIModel) : option jsstring :=
  match info model with Some i => info_name i | None => None end.
Definition info_created_at_of (model : ZAIModel) : option Z :=
  match info model with Some i => info_created_at i | None => None end.
Definition info_user_id_of (model : ZAIModel) : option jsstring :=
  match info model with Some i => info_user_id i | None => None end.

(** The body of [latestModels.forEach]. *)
Definition overlay (modelMap : Dict ZAIModel) (model : ZAIModel) : Async (Dict ZAIModel) :=
  let modelId := id model in
  let modelName := stringOr (name model) (stringOr (info_name_of model) modelId) in
  created <-
    numberOrElse (created model)
      (numberOrElse (info_created_at_of model)
         (now <- Date_now ;; ret (now / 1000)%Z)) ;;
  ret (dict_set modelId
         {| id := modelId;
            name := Some modelName;
            display_name := None;
            created := Some created;
            owned_by := Some (stringOr (owned_by model)
                                       (stringOr (info_user_id_of model) (js "z.ai")));
            info := None;
            rest := [] |}
         modelMap).

(** [array.forEach] with a callback that updates the map. *)
Fixpoint forEach (A S : Type) (f : S -> A -> Async S) (l : list A) (s : S) : Async S :=
  match l with
  | [] => ret s
  | a :: r => s' <- f s a ;; forEach f r s'
  end.

(** [getAvailableModels] with the fetch it awaits as a parameter, so
    that a failing or empty fetch can be put in its place.  [None] from
    the [try] stands for the fall through to [return defaultModels]. *)
Definition getAvailableModelsWith (fetchLatest : Async (list ZAIModel))
  : Async (list ZAIModel) :=
  defaultModels <- getDefaultModels ;;
  merged <-
    tryCatch
      (latestModels <- fetchLatest ;;
       if (0 <? length latestModels)%nat then
         let modelMap :=
           fold_left (fun m model => dict_set (id model) model m) defaultModels [] in
         modelMap <- forEach overlay latestModels modelMap ;;
         ret (Some (dict_values modelMap))
       else ret None)
      (fun error =>
         debugLog config (js "获取最新模型失败，使用默认模型: " ++ exn_toString error) ;;;
         ret None) ;;
  match merged with
  | Some models => ret models
  | None => ret defaultModels
  end.

Definition getAvailableModels : Async (list ZAIModel) :=
  getAvailableModelsWith fetchLatestModels.

End ModelFetcher.

(* ------------------------------------------------------------------ *)
(** ** [app/utils/helpers.ts], its last function                       *)
(* ------------------------------------------------------------------ *)

Section FetchModels.

Variable config : Config.

(** [fetchModelsFromAPI]: the token, the headers and the request of
    [fetchLatestModels], under one [try].  The list is read through the
    same view of the body; the debug line that prints the whole body
    only shows its fixed part. *)
Definition fetchModelsFromAPI : Async (list ZAIModel) :=
  tryCatch
    (authToken <- getAnonymousToken config ;;
     authToken <- substring_receiver authToken ;;
     debugLog config (js "使用匿名token获取模型: " ++ substring0 10 authToken ++ js "...") ;;;
     headers <- getBrowserHeaders config [] ;;
     let headers := dict_set (js "Accept") (js "application/json") headers in
     let headers := dict_set (js "Authorization") (js "Bearer " ++ authToken) headers in
     let headers :=
       dict_set (js "User-Agent")
         (js "Mozilla/5.0 (X11; Linux x86_64) AppleWebKit/537.36 (KHTML, like Gecko) Chrome/140.0.0.0 Safari/537.36 Edg/140.0.0.0")
         headers in
     response <- fetch {| url := mkURL (js "https://chat.z.ai/api/models") [];
                          method := js "GET";
                          headers := headers;
                          body := None;
                          timeout := 10000 |} ;;
     if negb (ok response) then
       debugLog config (js "获取模型列表失败: " ++ decimal (status response)) ;;;
       ret []
     else
       data <- response_json response ;;
       debugLog config (js "成功获取到模型信息: ") ;;;
       models <- read_data data ;;
       ret (match models with Some l => l | None => [] end))
    (fun error =>
       debugLog config (js "获取模型列表异常: " ++ exn_toString error) ;;;
       ret []).

End FetchModels.

(* ------------------------------------------------------------------ *)
(** ** Definitions that follow the words of the specification          *)
(* ------------------------------------------------------------------ *)

Definition isUser (m : Message) : bool := role m === js "user".

(** The text of the last message of the list, the empty string for an
    empty list. *)
Definition lastMessageText (messages : list Message) : jsstring :=
  match rev messages with
  | fallback :: _ => extractMessageText fallback
  | [] => []
  end.

(** The last user message text as the specification words it: the text
    of the most recent entry whose role is "user"; the last message when
    there is no such entry. *)
Definition lastUserText_as_specified (messages : list Message) : jsstring :=
  match find isUser (rev messages) with
  | Some m => extractMessageText m
  | None => lastMessageText messages
  end.

(** The same with the one change the code asks for: a user entry counts
    only when its text is not empty. *)
Definition lastUserText (messages : list Message) : jsstring :=
  match find (fun m => isUser m && truthy (extractMessageText m)) (rev messages) with
  | Some m => extractMessageText m
  | None => lastMessageText messages
  end.

(** Two messages from a user, the more recent one with an empty text, and
    an exchange that ends with an assistant message after an empty user
    message. *)
Definition userMessage (s : string) : Message :=
  mkMessage (js "user") (ContentString (js s)) None.
Definition assistantMessage (s : string) : Message :=
  mkMessage (js "assistant") (ContentString (js s)) None.

(** [hex(HMAC-SHA256(key, message))] on texts: both are encoded as UTF-8,
    the 32 octets of the code are written as 64 hexadecimal digits. *)
Definition hmac_sha256_hex (key message : jsstring) : jsstring :=
  hexOfBytes (Hmac.sign (encode key) (encode message)).

Definition isHexDigit (c : CodeUnit) : bool :=
  ((48 <=? c) && (c <=? 57) || (97 <=? c) && (c <=? 102))%N.

(** What the next call of [Date.now()] reads in a world. *)
Definition clockReading (w : World) : Z := feed (dateNow w) (position (dateNow w)).

(** The octets that the next call of [crypto.getRandomValues] for [n]
    octets puts in the array. *)
Definition nextOctets (n : nat) (w : World) : list N :=
  map (fun i => (feed (cryptoRandom w) (position (cryptoRandom w) + i) mod 256)%N)
      (seq 0 n).

(** The bucket of five minutes a time in milliseconds falls in, and the
    intermediate key of that bucket. *)
Definition bucket (timestampMs : Z) : Z := (timestampMs / 300000)%Z.

Definition intermediateKey (timestampMs : Z) : jsstring :=
  hmac_sha256_hex (js "junjie") (decimal (bucket timestampMs)).

(** The world after one reading of the clock. *)
Definition afterClock (w : World) : World :=
  mkWorld (snd (draw (dateNow w))) (mathRandom w) (cryptoRandom w) (cryptoUUID w)
          (network w) (_userAgentInstance w) (console w).

(** An action that returns in every world, and an action that leaves the
    network as it found it. *)
Definition neverThrows (A : Type) (m : Async A) : Prop :=
  forall w, exists a, fst (m w) = Returned a.

Definition keepsNetwork (A : Type) (m : Async A) : Prop :=
  forall w, network (snd (m w)) = network w.

(** A configuration and a world to run the code in: the clock starts at
    a fixed time and advances by one millisecond a reading, the network
    answers the three endpoints as a healthy provider would. *)
Definition exampleConfig : Config :=
  {| DEBUG_LOGGING := false;
     ANONYMOUS_MODE := true;
     BACKUP_TOKEN := js "backup-token";
     CLIENT_HEADERS_Origin := js "https://chat.z.ai";
     API_ENDPOINT := mkURL (js "https://chat.z.ai/api/chat/completions") [];
     THINKING_PROCESSING := js "think";
     PRIMARY_MODEL := js "GLM-4.5";
     THINKING_MODEL := js "GLM-4.5-Thinking";
     SEARCH_MODEL := js "GLM-4.5-Search";
     AIR_MODEL := js "GLM-4.5-Air";
     PRIMARY_MODEL_NEW := js "GLM-4.6";
     THINKING_MODEL_NEW := js "GLM-4.6-Thinking";
     SEARCH_MODEL_NEW := js "GLM-4.6-Search" |}.

Definition fetchedModel (i n : string) : ZAIModel :=
  mkModel (js i) (Some (js n)) None None None None [].

Definition healthyNetwork (request : Request) : FetchOutcome :=
  if base (url request) === js "https://chat.z.ai/api/v1/auths/" then
    Resolved (mkResponse 200 (Some (ParsedValue (Some (JString (js "anonymous-token"))) None)))
  else if base (url request) === js "https://chat.z.ai/api/models" then
    Resolved (mkResponse 200 (Some (ParsedValue None (Some [fetchedModel "X" "Foo"]))))
  else Resolved (mkResponse 200 None).

Definition worldWith (net : Request -> FetchOutcome) : World :=
  {| dateNow := mkSource (fun i => 1700000000123 + Z.of_nat i)%Z 0;
     mathRandom := mkSource (fun i => N.of_nat (3 + 2 * i)) 0;
     cryptoRandom := mkSource (fun i => N.of_nat (250 + 37 * i)) 0;
     cryptoUUID := mkSource (fun i => js "00000000-0000-4000-8000-00000000000" ++ decimal (Z.of_nat i)) 0;
     network := net;
     _userAgentInstance := None;
     console := [] |}.

Definition exampleWorld : World := worldWith healthyNetwork.

(** The cache is empty or holds what [getUserAgentInstance] builds. *)
Definition cacheSound (w : World) : Prop :=
  match _userAgentInstance w with
  | None => True
  | Some ua => exists pick, ua = newUserAgentInstance pick
  end.

(** The User-Agent text of each browser identity of the table. *)
Definition cannedUserAgent (browserType : jsstring) : jsstring :=
  if browserType === js "chrome" then
    js "Mozilla/5.0 (Windows NT 10.0; Win64; x64) AppleWebKit/537.36 (KHTML, like Gecko) Chrome/139.0.0.0 Safari/537.36"
  else if browserType === js "edge" then
    js "Mozilla/5.0 (Windows NT 10.0; Win64; x64) AppleWebKit/537.36 (KHTML, like Gecko) Chrome/139.0.0.0 Safari/537.36 Edg/139.0.0.0"
  else if browserType === js "firefox" then
    js "Mozilla/5.0 (Windows NT 10.0; Win64; x64; rv:109.0) Gecko/20100101 Firefox/121.0"
  else
    js "Mozilla/5.0 (Macintosh; Intel Mac OS X 10_15_7) AppleWebKit/605.1.15 (KHTML, like Gecko) Version/17.1 Safari/605.1.15".

(** The two values of sec-ch-ua for version 139, written out: the one
    that names Microsoft Edge, and the generic one of Chromium. *)
Definition doubleQuoted (s : string) : string :=
  String "034" (s ++ String "034" EmptyString).

Definition edgeBranded139 : jsstring :=
  js (doubleQuoted "Microsoft Edge" ++ ";v=" ++ doubleQuoted "139" ++ ", "
      ++ doubleQuoted "Chromium" ++ ";v=" ++ doubleQuoted "139" ++ ", "
      ++ doubleQuoted "Not_A Brand" ++ ";v=" ++ doubleQuoted "24")%string.

Definition chromiumBranded139 : jsstring :=
  js (doubleQuoted "Not_A Brand" ++ ";v=" ++ doubleQuoted "8" ++ ", "
      ++ doubleQuoted "Chromium" ++ ";v=" ++ doubleQuoted "139" ++ ", "
      ++ doubleQuoted "Google Chrome" ++ ";v=" ++ doubleQuoted "139")%string.

(** A provider that answers every request with status 500. *)
Definition failingNetwork (request : Request) : FetchOutcome :=
  Resolved (mkResponse 500 None).

Definition exampleRequest : UpstreamRequest :=
  mkUpstreamRequest
    (Some [mkMessage (js "user") (ContentString (js "hello")) None])
    (Some (JObject [(js "a", JNumber (integer 1)); (js "b", JNull); (js "c", JString (js "z"))]))
    [(js "model", JString (js "GLM-4.5"))].

(** How the anonymous-token call ends, given how its fetch settled: the
    token when the status is a success and the body carries a truthy
    token, an error otherwise. *)
Definition anonymousTokenOutcome (settled : FetchOutcome) : Outcome Json :=
  match settled with
  | Rejected e => Threw e
  | Resolved r =>
    if ok r then
      match json r with
      | None => Threw SyntaxError
      | Some ParsedNull =>
        Threw (TypeError (js "Cannot read properties of null (reading 'token')"))
      | Some (ParsedValue (Some token) _) =>
        if json_truthy token then Returned token
        else Threw (Error (js "anon token empty"))
      | Some (ParsedValue None _) => Threw (Error (js "anon token empty"))
      end
    else Threw (Error (js "anon token status=" ++ decimal (status r)))
  end.

(** What the model list fetch returns, given how its own fetch settled. *)
Definition latestModelsOf (settled : FetchOutcome) : list ZAIModel :=
  match settled with
  | Rejected _ => []
  | Resolved r =>
    if ok r then
      match json r with
      | Some (ParsedValue _ (Some models)) => models
      | _ => []
      end
    else []
  end.

(** The default list stamped with a time in seconds. *)
Definition defaultModels (config : Config) (currentTime : Z) : list ZAIModel :=
  map (fun model => defaultModel model currentTime)
      [PRIMARY_MODEL config; THINKING_MODEL config; SEARCH_MODEL config;
       AIR_MODEL config; PRIMARY_MODEL_NEW config; THINKING_MODEL_NEW config;
       SEARCH_MODEL_NEW config].

(** A field that is there and truthy: a string that is not empty, a
    number that is not zero. *)
Definition presentString (a : option jsstring) : option jsstring :=
  match a with
  | Some (c :: r) => Some (c :: r)
  | _ => None
  end.

Definition presentNumber (a : option Z) : option Z :=
  match a with
  | Some 0%Z => None
  | other => other
  end.

Definition firstOf (A : Type) (a b : option A) (c : A) : A :=
  match a, b with
  | Some x, _ => x
  | None, Some y => y
  | None, None => c
  end.

(** A field of the info object of a model, when there is one. *)
Definition ofInfo (A : Type) (field : ZAIModelInfo -> option A) (model : ZAIModel)
  : option A :=
  match info model with
  | Some i => field i
  | None => None
  end.

(** The merged entry of a fetched model, [now] being the reading of the
    clock in milliseconds: name from the fetched name, else info.name,
    else the id; created from the fetched created, else info.created_at,
    else the epoch seconds of [now]; owned_by from the fetched owned_by,
    else info.user_id, else "z.ai"; and no other field. *)
Definition mergedEntry (model : ZAIModel) (now : Z) : ZAIModel :=
  {| id := id model;
     name := Some (firstOf (presentString (name model))
                           (presentString (ofInfo info_name model)) (id model));
     display_name := None;
     created := Some (firstOf (presentNumber (created model))
                              (presentNumber (ofInfo info_created_at model)) (now / 1000)%Z);
     owned_by := Some (firstOf (presentString (owned_by model))
                               (presentString (ofInfo info_user_id model)) (js "z.ai"));
     info := None;
     rest := [] |}.

(** A configuration in which two of the default models have the same
    id. *)
Definition duplicateConfig : Config :=
  {| DEBUG_LOGGING := false;
     ANONYMOUS_MODE := true;
     BACKUP_TOKEN := js "backup-token";
     CLIENT_HEADERS_Origin := js "https://chat.z.ai";
     API_ENDPOINT := mkURL (js "https://chat.z.ai/api/chat/completions") [];
     THINKING_PROCESSING := js "think";
     PRIMARY_MODEL := js "GLM-4.5";
     THINKING_MODEL := js "GLM-4.5";
     SEARCH_MODEL := js "GLM-4.5-Search";
     AIR_MODEL := js "GLM-4.5-Air";
     PRIMARY_MODEL_NEW := js "GLM-4.6";
     THINKING_MODEL_NEW := js "GLM-4.6-Thinking";
     SEARCH_MODEL_NEW := js "GLM-4.6-Search" |}.

(** A list of ids without its repetitions, each id at the place of its
    first occurrence. *)
Fixpoint firstOccurrences (l : list jsstring) : list jsstring :=
  match l with
  | [] => []
  | k :: r => k :: filter (fun k' => negb (k' === k)) (firstOccurrences r)
  end.

(** A time that the clock of the world gives at its next reading or at a
    later one. *)
Definition isReading (w : World) (now : Z) : Prop :=
  exists j, position (dateNow w) <= j /\ now = feed (dateNow w) j.

(** A fetched model that carries a display name, an info object and a
    field of its own. *)
Definition richModel : ZAIModel :=
  {| id := js "glm-x";
     name := None;
     display_name := Some (js "GLM X");
     created := None;
     owned_by := None;
     info := Some (mkInfo (Some (js "GLM X (info)")) (Some 1690000000%Z)
                          (Some (js "user-1")) [(js "meta", JNull)]);
     rest := [(js "object", JString (js "model"))] |}.

(** Setting the entries of a list in a map, one after the other, each at
    its id. *)
Definition setAll (entries : list ZAIModel) (modelMap : Dict ZAIModel) : Dict ZAIModel :=
  fold_left (fun m e => dict_set (id e) e m) entries modelMap.

(** An entry is the merged entry of a model for some reading of the
    clock of the world. *)
Definition mergedFrom (w : World) (model entry : ZAIModel) : Prop :=
  exists now, isReading w now /\ entry = mergedEntry model now.

(** Every value of the map sits at its own id. *)
Definition keyed (modelMap : Dict ZAIModel) : Prop :=
  Forall (fun kv => id (snd kv) = fst kv) modelMap.

(** *** Thinking content *)

(** [x] is [y] with some code units deleted. *)
Inductive subseq : jsstring -> jsstring -> Prop :=
| subseq_nil : subseq [] []
| subseq_keep (c : CodeUnit) (x y : jsstring) : subseq x y -> subseq (c :: x) (c :: y)
| subseq_drop (c : CodeUnit) (x y : jsstring) : subseq x y -> subseq x (c :: y).

(** A pattern that does not look at the code unit before the position. *)
Definition prevIndependent (p : Pattern) : Prop :=
  forall prev prev' s, p prev s = p prev' s.

(** The first two statements of [transformThinkingContent]: the summary
    blocks go, then the three tags, one pass each. *)
Definition cleanTags (content : jsstring) : jsstring :=
  replace (literal (js "</Full>")) []
    (replace (literal (js "<Full>")) []
       (replace (literal (js "</thinking>")) []
          (replace summaryBlock [] content))).

(** The branch on the thinking mode. *)
Definition detailsPass (mode : jsstring) (content : jsstring) : jsstring :=
  if mode === js "think" then
    replace (literal (js "</details>")) (js "</span>")
      (replace detailsOpen (js "<span>") content)
  else if mode === js "strip" then
    replace (literal (js "</details>")) [] (replace detailsOpen [] content)
  else content.

(** What follows the removal of the tags: trimming, the branch on the
    mode, the removal of the quotation prefixes, trimming. *)
Definition finishThinking (config : Config) (cleaned : jsstring) : jsstring :=
  trim (replace (literal (LF ++ js "> ")) LF
          (replace linePrefix []
             (detailsPass (THINKING_PROCESSING config) (trim cleaned)))).

(** A text that the summary pattern can match whole: an opening tag, a
    closing tag, and no closing tag before that one. *)
Definition isSummaryBlock (block : jsstring) : Prop :=
  exists inner,
    block = js "<summary>" ++ inner ++ js "</summary>"
    /\ indexOf (js "</summary>") (inner ++ js "</summary>") = Some (length inner).

(** A text that the details pattern can match whole: "<details", code
    units other than ">", then ">". *)
Definition isDetailsTag (tag : jsstring) : Prop :=
  exists inner,
    tag = js "<details" ++ inner ++ js ">"
    /\ forallb (fun c => negb (c =? 62)%N) inner = true.

(** The texts that the first two statements remove. *)
Definition removedText (t : jsstring) : Prop :=
  t = js "</thinking>" \/ t = js "<Full>" \/ t = js "</Full>" \/ isSummaryBlock t.

(** No white space and no line terminator at either end. *)
Definition trimmed (s : jsstring) : Prop :=
  (forall c, hd_error s = Some c -> isSpace c = false)
  /\ (forall c, hd_error (rev s) = Some c -> isSpace c = false).

(** A code unit that the text does not hold. *)
Definition absent (c : CodeUnit) (l : jsstring) : bool :=
  forallb (fun x => negb (x =? c)%N) l.

(** One pass, seen from an occurrence of a text in its input: the pass
    keeps the occurrence or deletes it; deletes it; only deletes code
    units. *)
Definition keepsOrDeletes (f : jsstring -> jsstring) (t : jsstring) : Prop :=
  forall a b, exists a' b',
      subseq a' a /\ subseq b' b
      /\ (f (a ++ t ++ b) = a' ++ t ++ b' \/ f (a ++ t ++ b) = a' ++ b').

Definition deletes (f : jsstring -> jsstring) (t : jsstring) : Prop :=
  forall a b, exists a' b', subseq a' a /\ subseq b' b /\ f (a ++ t ++ b) = a' ++ b'.

Definition shrinks (f : jsstring -> jsstring) : Prop := forall s, subseq (f s) s.

(* ------------------------------------------------------------------ *)
(** ** Definitions for the further properties                          *)
(* ------------------------------------------------------------------ *)

(** A projection of the world that an action leaves as it found it. *)
Definition leaves (T A : Type) (f : World -> T) (m : Async A) : Prop :=
  forall w, f (snd (m w)) = f w.

(** What the next two calls of [crypto.randomUUID()] give. *)
Definition firstUUID (w : World) : jsstring :=
  feed (cryptoUUID w) (position (cryptoUUID w)).
Definition secondUUID (w : World) : jsstring :=
  feed (cryptoUUID w) (S (position (cryptoUUID w))).

(** A provider that cannot be reached: every fetch is rejected. *)
Definition unreachable (request : Request) : FetchOutcome :=
  Rejected (NetworkError (js "error sending request")).

(** The value that the entries of [params] give to a query parameter:
    the text of the last entry of that name that is not null. *)
Definition paramValue (k : jsstring) (entries : list (jsstring * Json)) : option jsstring :=
  match find (fun kv => (fst kv === k)
                        && match snd kv with JNull => false | _ => true end)
             (rev entries) with
  | Some kv => Some (json_toString (snd kv))
  | None => None
  end.

(** Worlds that differ by their console at most. *)
Definition sameButConsole (w w' : World) : Prop :=
  dateNow w = dateNow w' /\ mathRandom w = mathRandom w'
  /\ cryptoRandom w = cryptoRandom w' /\ cryptoUUID w = cryptoUUID w'
  /\ network w = network w' /\ _userAgentInstance w = _userAgentInstance w'.

(** Two actions that, from worlds that differ by their console at most,
    end alike in such worlds. *)
Definition alike (A : Type) (m m' : Async A) : Prop :=
  forall w w',
    sameButConsole w w' ->
    fst (m w) = fst (m' w') /\ sameButConsole (snd (m w)) (snd (m' w')).

(** Two configurations that differ by their debug flag at most. *)
Definition sameButDebugLogging (c c' : Config) : Prop :=
  ANONYMOUS_MODE c = ANONYMOUS_MODE c'
  /\ BACKUP_TOKEN c = BACKUP_TOKEN c'
  /\ CLIENT_HEADERS_Origin c = CLIENT_HEADERS_Origin c'
  /\ API_ENDPOINT c = API_ENDPOINT c'
  /\ THINKING_PROCESSING c = THINKING_PROCESSING c'
  /\ PRIMARY_MODEL c = PRIMARY_MODEL c'
  /\ THINKING_MODEL c = THINKING_MODEL c'
  /\ SEARCH_MODEL c = SEARCH_MODEL c'
  /\ AIR_MODEL c = AIR_MODEL c'
  /\ PRIMARY_MODEL_NEW c = PRIMARY_MODEL_NEW c'
  /\ THINKING_MODEL_NEW c = THINKING_MODEL_NEW c'
  /\ SEARCH_MODEL_NEW c = SEARCH_MODEL_NEW c'.

(** The example configuration with debug logging on. *)
Definition verboseConfig : Config :=
  {| DEBUG_LOGGING := true;
     ANONYMOUS_MODE := true;
     BACKUP_TOKEN := js "backup-token";
     CLIENT_HEADERS_Origin := js "https://chat.z.ai";
     API_ENDPOINT := mkURL (js "https://chat.z.ai/api/chat/completions") [];
     THINKING_PROCESSING := js "think";
     PRIMARY_MODEL := js "GLM-4.5";
     THINKING_MODEL := js "GLM-4.5-Thinking";
     SEARCH_MODEL := js "GLM-4.5-Search";
     AIR_MODEL := js "GLM-4.5-Air";
     PRIMARY_MODEL_NEW := js "GLM-4.6";
     THINKING_MODEL_NEW := js "GLM-4.6-Thinking";
     SEARCH_MODEL_NEW := js "GLM-4.6-Search" |}.

(** Lines joined by line feeds, and the same lines as a quotation, each
    behind "> ". *)
Definition unlines (first : jsstring) (others : list jsstring) : jsstring :=
  first ++ concat (map (fun line => LF ++ line) others).

Definition quotation (first : jsstring) (others : list jsstring) : jsstring :=
  unlines (js "> " ++ first) (map (fun line => js "> " ++ line) others).

(** A line: a text without line terminator. *)
Definition isLine (line : jsstring) : bool :=
  forallb (fun c => negb (isLineTerminator c)) line.


(* ------------------------------------------------------------------ *)
(** ** Thinking content in pieces                                      *)
(* ------------------------------------------------------------------ *)

(** A thinking content whose tags do not run into each other: texts
    and complete tags, one after the other. *)
Inductive Piece :=
| Text (text : jsstring)
| Summary (inner : jsstring)
| ThinkingClose
| FullOpen
| FullClose
| DetailsOpen (attributes : jsstring)
| DetailsClose
| SpanOpen
| SpanClose.

(** How a piece is written. *)
Definition written (piece : Piece) : jsstring :=
  match piece with
  | Text text => text
  | Summary inner => js "<summary>" ++ inner ++ js "</summary>"
  | ThinkingClose => js "</thinking>"
  | FullOpen => js "<Full>"
  | FullClose => js "</Full>"
  | DetailsOpen attributes => js "<details" ++ attributes ++ js ">"
  | DetailsClose => js "</details>"
  | SpanOpen => js "<span>"
  | SpanClose => js "</span>"
  end.

(** A text holds neither "<" nor ">"; the inside of a summary block
    holds no "<"; the attributes of a details tag hold neither "<" nor
    ">" and do not end on a line terminator. *)
Definition wellFormed (piece : Piece) : bool :=
  match piece with
  | Text text => absent 60%N text && absent 62%N text
  | Summary inner => absent 60%N inner
  | DetailsOpen attributes =>
    absent 60%N attributes && absent 62%N attributes
    && negb (isLineTerminator (last attributes 0%N))
  | _ => true
  end.

(** What the transform is to make of a piece: a summary block and the
    three tags go; a details tag becomes a span tag in mode "think",
    goes in mode "strip", stays in any other mode; the rest stays. *)
Definition transformed (mode : jsstring) (piece : Piece) : jsstring :=
  match piece with
  | Text text => text
  | Summary _ | ThinkingClose | FullOpen | FullClose => []
  | DetailsOpen _ =>
    if mode === js "think" then js "<span>"
    else if mode === js "strip" then []
    else written piece
  | DetailsClose =>
    if mode === js "think" then js "</span>"
    else if mode === js "strip" then []
    else written piece
  | SpanOpen | SpanClose => written piece
  end.

(** [result] is [whole] without the white space at its two ends. *)
Definition isTrimOf (whole result : jsstring) : Prop :=
  trimmed result
  /\ exists lead trail,
      forallb isSpace lead = true /\ forallb isSpace trail = true
      /\ whole = lead ++ result ++ trail.

(** The pieces after the first [n] of the six replacements on tags. *)
Definition afterPass (n : nat) (mode : jsstring) (piece : Piece) : Piece :=
  match piece with
  | Summary _ => if (1 <=? n)%nat then Text [] else piece
  | ThinkingClose => if (2 <=? n)%nat then Text [] else piece
  | FullOpen => if (3 <=? n)%nat then Text [] else piece
  | FullClose => if (4 <=? n)%nat then Text [] else piece
  | DetailsOpen _ =>
    if (5 <=? n)%nat then
      if mode === js "think" then SpanOpen
      else if mode === js "strip" then Text []
      else piece
    else piece
  | DetailsClose =>
    if (6 <=? n)%nat then
      if mode === js "think" then SpanClose
      else if mode === js "strip" then Text []
      else piece
    else piece
  | other => other
  end.

(** No quotation prefix from here on: "> " neither at the start of a
    line nor, when [prev] is none, at the start of the text. *)
Fixpoint noQuote (prev : option CodeUnit) (s : jsstring) : bool :=
  match s with
  | [] => true
  | c :: r =>
    negb (match prev with None => true | Some b => isLineTerminator b end
          && startsWith (js "> ") s)
    && noQuote (Some c) r
  end.

(** An input in pieces, and a configuration in mode "strip". *)
Definition examplePieces : list Piece :=
  [Text (js " "); Summary (js "s"); DetailsOpen (js " open"); Text (js "a");
   DetailsClose; ThinkingClose; FullOpen; Text (js "b"); FullClose; Text (js " ")].

Definition strippingConfig : Config :=
  {| DEBUG_LOGGING := false;
     ANONYMOUS_MODE := true;
     BACKUP_TOKEN := js "backup-token";
     CLIENT_HEADERS_Origin := js "https://chat.z.ai";
     API_ENDPOINT := mkURL (js "https://chat.z.ai/api/chat/completions") [];
     THINKING_PROCESSING := js "strip";
     PRIMARY_MODEL := js "GLM-4.5";
     THINKING_MODEL := js "GLM-4.5-Thinking";
     SEARCH_MODEL := js "GLM-4.5-Search";
     AIR_MODEL := js "GLM-4.5-Air";
     PRIMARY_MODEL_NEW := js "GLM-4.6";
     THINKING_MODEL_NEW := js "GLM-4.6-Thinking";
     SEARCH_MODEL_NEW := js "GLM-4.6-Search" |}.

(* ================================================================== *)
(** * Part II: properties                                              *)
(* ================================================================== *)

Unset Implicit Arguments.

(** ** Strings *)

Lemma jsstring_eqb_eq (a b : jsstring) : (a === b) = true <-> a = b.
Proof.
  unfold jsstring_eqb. destruct (list_eq_dec N.eq_dec a b); split; congruence.
Qed.

Lemma jsstring_eqb_refl (a : jsstring) : (a === a) = true.
Proof. apply jsstring_eqb_eq. reflexivity. Qed.

Lemma jsstring_eqb_neq (a b : jsstring) : (a === b) = false <-> a <> b.
Proof.
  unfold jsstring_eqb. destruct (list_eq_dec N.eq_dec a b); split; congruence.
Qed.

Lemma truthy_false (s : jsstring) : truthy s = false <-> s = [].
Proof. destruct s; simpl; split; congruence. Qed.

(** ** The last user message *)

Section LastUserMessage.

Let wanted (m : Message) : bool := isUser m && truthy (extractMessageText m).

(** After the loop has inspected the entries below [k], scanning from
    the end, its answer is the first wanted entry of that prefix read
    backwards. *)
Lemma lastUserLoop_find (messages : list Message) (k : nat) :
  k <= length messages ->
  lastUserLoop messages k
  = option_map extractMessageText (find wanted (rev (firstn k messages))).
Proof.
  induction k as [|i IH]; intros Hk.
  - reflexivity.
  - assert (Hi : i < length messages) by lia.
    destruct (nth_error messages i) as [msg|] eqn:Hnth.
    2:{ apply nth_error_None in Hnth. lia. }
    assert (Hsplit : firstn (S i) messages = firstn i messages ++ [msg]).
    { clear IH. revert i Hk Hi Hnth.
      induction messages as [|m ms IHm]; intros [|i] Hk Hi Hnth; simpl in *;
        try lia; try congruence.
      f_equal. apply IHm; try lia. exact Hnth. }
    rewrite Hsplit, rev_app_distr. simpl. rewrite Hnth.
    unfold wanted at 1. unfold isUser.
    destruct (role msg === js "user"); simpl.
    + destruct (truthy (extractMessageText msg)); simpl.
      * reflexivity.
      * apply IH. lia.
    + apply IH. lia.
Qed.

Lemma at_last_rev (A : Type) (l : list A) : at_last l = hd_error (rev l).
Proof.
  unfold at_last. destruct l as [|a r] using rev_ind.
  - reflexivity.
  - rewrite rev_app_distr, length_app. simpl.
    replace (length r + 1 - 1) with (length r) by lia.
    rewrite nth_error_app2 by lia. rewrite Nat.sub_diag. reflexivity.
Qed.

(** C1, as the code has it: the text is that of the most recent user
    entry whose extracted text is not empty; when no user entry has a
    text, it is the text of the very last message, and the empty string
    for an empty list.  The text of one message is its string content
    verbatim, the trimmed concatenation of the text fields of its parts
    (a part without text counting for nothing), else its
    reasoning_content, else empty. *)
Theorem getLastUserMessageContent_spec (messages : list Message) :
  getLastUserMessageContent messages = lastUserText messages
  /\ getLastUserMessageContent [] = []
  /\ (forall r s rc, extractMessageText (mkMessage r (ContentString s) rc) = s)
  /\ (forall r parts rc,
         extractMessageText (mkMessage r (ContentParts parts) rc)
         = trim (concat (map (fun p => match text p with Some t => t | None => [] end)
                             parts)))
  /\ (forall r s, extractMessageText (mkMessage r ContentAbsent (Some s)) = s)
  /\ (forall r, extractMessageText (mkMessage r ContentAbsent None) = []).
Proof.
  split; [| repeat split].
  unfold getLastUserMessageContent, lastUserText, lastMessageText.
  rewrite lastUserLoop_find by lia.
  rewrite firstn_all. fold wanted.
  destruct (find wanted (rev messages)) as [m|]; simpl.
  - reflexivity.
  - rewrite at_last_rev. destruct (rev messages); reflexivity.
Qed.

End LastUserMessage.

(** The claim as worded fails: the more recent of two user messages is
    empty and the code answers with the earlier one; and an empty user
    message followed by an assistant message makes the code fall back to
    the last message although a user message exists. *)
Lemma getLastUserMessageContent_skips_empty_user_text :
  getLastUserMessageContent [userMessage "hi"; userMessage ""]
  <> lastUserText_as_specified [userMessage "hi"; userMessage ""]
  /\ getLastUserMessageContent [userMessage ""; assistantMessage "bye"]
     <> lastUserText_as_specified [userMessage ""; assistantMessage "bye"].
Proof. split; vm_compute; discriminate. Qed.

(** ** Numbers as the runtime prints them *)

(** [String(1e21)], [String(0.7)], [String(1e-7)], [String(0.000001)],
    [String(-1.5)], [String(123.456)], [String(1.5e300)] and
    [String(120)]. *)
Example number_toString_forms :
  number_toString (integer (10 ^ 21)) = js "1e+21"
  /\ number_toString (Finite false 7 0) = js "0.7"
  /\ number_toString (Finite false 1 (-6)) = js "1e-7"
  /\ number_toString (Finite false 1 (-5)) = js "0.000001"
  /\ number_toString (Finite true 15 1) = js "-1.5"
  /\ number_toString (Finite false 123456 3) = js "123.456"
  /\ number_toString (Finite false 15 301) = js "1.5e+300"
  /\ number_toString (integer 120) = js "120"
  /\ number_toString (integer (10 ^ 21 - 10 ^ 5)) = js "999999999999999900000"
  /\ number_toString (integer 0) = js "0".
Proof. repeat split; vm_compute; reflexivity. Qed.

(** ** The hash against published test vectors *)

(** FIPS 180-4, the one-block message "abc". *)
Example sha256_abc :
  hexOfBytes (Sha256.digest (encode (js "abc")))
  = js "ba7816bf8f01cfea414140de5dae2223b00361a396177a9cb410ff61f20015ad".
Proof. vm_compute. reflexivity. Qed.

(** FIPS 180-4, the two-block message of 56 octets. *)
Example sha256_two_blocks :
  hexOfBytes (Sha256.digest
                (encode (js "abcdbcdecdefdefgefghfghighijhijkijkljklmklmnlmnomnopnopq")))
  = js "248d6a61d20638b8e5c026930c3e6039a33ce45964ff2167f6ecedd419db06c1".
Proof. vm_compute. reflexivity. Qed.

(** RFC 4231, test case 2. *)
Example hmac_sha256_rfc4231 :
  hexOfBytes (Hmac.sign (encode (js "Jefe")) (encode (js "what do ya want for nothing?")))
  = js "5bdcc146bf60754e6a042426089575c75a003f089d2739839dec58b964ec3843".
Proof. vm_compute. reflexivity. Qed.

(** ** Hexadecimal text and the HMAC primitive *)

Lemma below_256_cases (P : N -> Prop) :
  (forall i, (i < 256)%nat -> P (N.of_nat i)) -> forall b, (b < 256)%N -> P b.
Proof.
  intros H b Hb. rewrite <- (N2Nat.id b). apply H. lia.
Qed.

Lemma forallb_seq (f : nat -> bool) (n : nat) :
  forallb f (seq 0 n) = true -> forall i, (i < n)%nat -> f i = true.
Proof.
  intros H i Hi. rewrite forallb_forall in H. apply H. apply in_seq. lia.
Qed.

Lemma hex_of_octet (b : N) :
  (b < 256)%N ->
  padStart0 2 (toString16 b) = [hexDigit (b / 16); hexDigit (b mod 16)].
Proof.
  revert b. apply below_256_cases. intros i Hi.
  apply jsstring_eqb_eq.
  revert i Hi.
  apply (forallb_seq
           (fun i => padStart0 2 (toString16 (N.of_nat i))
                     === [hexDigit (N.of_nat i / 16); hexDigit (N.of_nat i mod 16)])).
  vm_compute. reflexivity.
Qed.

Lemma hexDigit_isHexDigit (d : N) : (d < 16)%N -> isHexDigit (hexDigit d) = true.
Proof.
  intros Hd. unfold isHexDigit, hexDigit.
  destruct (N.ltb_spec d 10).
  - replace ((48 <=? 48 + d)%N) with true by (symmetry; apply N.leb_le; lia).
    replace ((48 + d <=? 57)%N) with true by (symmetry; apply N.leb_le; lia).
    reflexivity.
  - replace ((97 <=? 87 + d)%N) with true by (symmetry; apply N.leb_le; lia).
    replace ((87 + d <=? 102)%N) with true by (symmetry; apply N.leb_le; lia).
    apply orb_true_r.
Qed.

Lemma hexOfBytes_cons (b : N) (bytes : list N) :
  (b < 256)%N ->
  hexOfBytes (b :: bytes) = hexDigit (b / 16) :: hexDigit (b mod 16) :: hexOfBytes bytes.
Proof.
  intros Hb. unfold hexOfBytes, join. simpl. rewrite hex_of_octet by exact Hb.
  reflexivity.
Qed.

(** Octets give two hexadecimal digits each. *)
Lemma hexOfBytes_octets (bytes : list N) :
  Forall (fun b => b < 256)%N bytes ->
  length (hexOfBytes bytes) = 2 * length bytes
  /\ forallb isHexDigit (hexOfBytes bytes) = true.
Proof.
  induction 1 as [|b bytes Hb _ [IHlen IHhex]].
  - split; reflexivity.
  - rewrite hexOfBytes_cons by exact Hb. split.
    + simpl. rewrite IHlen. lia.
    + simpl. rewrite IHhex.
      rewrite !hexDigit_isHexDigit; [reflexivity | |].
      * apply N.mod_lt. discriminate.
      * apply N.Div0.div_lt_upper_bound. exact Hb.
Qed.

Lemma bigEndian_octets (width : nat) (x : N) :
  length (Sha256.bigEndian width x) = width
  /\ Forall (fun b => b < 256)%N (Sha256.bigEndian width x).
Proof.
  unfold Sha256.bigEndian. split.
  - rewrite length_map, length_seq. reflexivity.
  - apply Forall_forall. intros b Hb. apply in_map_iff in Hb.
    destruct Hb as [i [<- _]]. apply N.mod_lt. discriminate.
Qed.

(** A digest is 32 octets, whatever the message. *)
Lemma digest_octets (msg : list N) :
  length (Sha256.digest msg) = 32
  /\ Forall (fun b => b < 256)%N (Sha256.digest msg).
Proof.
  unfold Sha256.digest, Sha256.output.
  generalize (Sha256.absorb (length (Sha256.pad msg) / 64) Sha256.initial (Sha256.pad msg)).
  intros h. split.
  - cbn [flat_map]. rewrite !length_app.
    rewrite !(proj1 (bigEndian_octets 4 _)). reflexivity.
  - cbn [flat_map]. repeat (apply Forall_app; split); try apply bigEndian_octets.
    constructor.
Qed.

Lemma hmac_sign_octets (key data : list N) :
  length (Hmac.sign key data) = 32
  /\ Forall (fun b => b < 256)%N (Hmac.sign key data).
Proof. unfold Hmac.sign. apply digest_octets. Qed.

(** [hex(HMAC-SHA256(..))] is 64 hexadecimal digits. *)
Lemma hmac_sha256_hex_digits (key message : jsstring) :
  length (hmac_sha256_hex key message) = 64
  /\ forallb isHexDigit (hmac_sha256_hex key message) = true.
Proof.
  unfold hmac_sha256_hex.
  destruct (hmac_sign_octets (encode key) (encode message)) as [Hlen Hoct].
  destruct (hexOfBytes_octets _ Hoct) as [H1 H2].
  rewrite H1, Hlen. split; [reflexivity | exact H2].
Qed.

Lemma utf8_bytes_nonempty (cp : N) : utf8_bytes cp <> [].
Proof.
  unfold utf8_bytes.
  destruct (cp <? 128)%N; [discriminate|].
  destruct (cp <? 2048)%N; [discriminate|].
  destruct (cp <? 65536)%N; discriminate.
Qed.

(** Only the empty string encodes to no octet at all. *)
Lemma encode_nonempty (s : jsstring) : s <> [] -> encode s <> [].
Proof.
  destruct s as [|c r]; [congruence|]. intros _ H.
  cbn [encode] in H.
  assert (Happ : forall cp l, utf8_bytes cp ++ l <> [])
    by (intros cp l E; apply app_eq_nil in E; destruct E as [E _];
        exact (utf8_bytes_nonempty cp E)).
  destruct (isHighSurrogate c).
  - destruct r as [|d r'].
    + exact (utf8_bytes_nonempty _ H).
    + destruct (isLowSurrogate d); exact (Happ _ _ H).
  - destruct (isLowSurrogate c); exact (Happ _ _ H).
Qed.

(** ** Running actions *)

Lemma bind_returned {A B : Type} {m : Async A} (k : A -> Async B) {w a w'} :
  m w = (Returned a, w') -> bind m k w = k a w'.
Proof. intros H. unfold bind. rewrite H. reflexivity. Qed.

Lemma bind_threw {A B : Type} {m : Async A} (k : A -> Async B) {w e w'} :
  m w = (Threw e, w') -> bind m k w = (Threw e, w').
Proof. intros H. unfold bind. rewrite H. reflexivity. Qed.

Lemma tryCatch_returned {A : Type} {m : Async A} (h : Exn -> Async A) {w a w'} :
  m w = (Returned a, w') -> tryCatch m h w = (Returned a, w').
Proof. intros H. unfold tryCatch. rewrite H. reflexivity. Qed.

Lemma tryCatch_threw {A : Type} {m : Async A} (h : Exn -> Async A) {w e w'} :
  m w = (Threw e, w') -> tryCatch m h w = h e w'.
Proof. intros H. unfold tryCatch. rewrite H. reflexivity. Qed.

(** One step of a run: the action bound first is replaced by its
    outcome. *)
Ltac step H :=
  let T := type of H in
  lazymatch T with
  | ?m ?w = (Returned ?a, ?w') =>
    lazymatch goal with
    | |- context [@bind ?A ?B m ?k w] =>
      rewrite (@bind_returned A B m k w a w' H)
    end
  | ?m ?w = (Threw ?e, ?w') =>
    lazymatch goal with
    | |- context [@bind ?A ?B m ?k w] =>
      rewrite (@bind_threw A B m k w e w' H)
    end
  end.

Lemma Date_now_run (w : World) : Date_now w = (Returned (clockReading w), afterClock w).
Proof. reflexivity. Qed.

Lemma debugLog_run (config : Config) (message : jsstring) (w : World) :
  exists w', debugLog config message w = (Returned tt, w')
             /\ network w' = network w
             /\ dateNow w' = dateNow w
             /\ _userAgentInstance w' = _userAgentInstance w.
Proof.
  unfold debugLog. destruct (DEBUG_LOGGING config).
  - eexists. split; [reflexivity|]. repeat split.
  - exists w. repeat split.
Qed.

(** With a key that is not the empty string, the helper returns the
    hexadecimal HMAC and touches nothing. *)
Lemma hmacSha256Hex_run (key message : jsstring) (w : World) :
  key <> [] ->
  hmacSha256Hex key message w = (Returned (hmac_sha256_hex key message), w).
Proof.
  intros Hkey. unfold hmacSha256Hex, hmac_sha256_hex.
  pose proof (encode_nonempty _ Hkey) as Henc.
  destruct (encode key) as [|b bs]; [congruence|].
  reflexivity.
Qed.

Lemma hmac_sha256_hex_nonempty (key message : jsstring) :
  hmac_sha256_hex key message <> [].
Proof.
  intros H. pose proof (proj1 (hmac_sha256_hex_digits key message)) as Hlen.
  rewrite H in Hlen. discriminate.
Qed.

(** ** The chat signature *)

Lemma generateChatSignature_run (config : Config) (e t : jsstring) (w : World) :
  exists w',
    generateChatSignature config e t w
    = (Returned {| signature :=
                     hmac_sha256_hex (intermediateKey (clockReading w))
                                     (e ++ js "|" ++ t ++ js "|" ++ decimal (clockReading w));
                   timestamp := clockReading w |}, w').
Proof.
  unfold generateChatSignature, intermediateKey, bucket.
  step (Date_now_run w).
  change (5 * 60 * 1000)%Z with 300000%Z.
  match goal with
  | |- context [bind (hmacSha256Hex ?k ?m) _ ?w0] =>
    step (hmacSha256Hex_run k m w0 ltac:(discriminate))
  end.
  match goal with
  | |- context [bind (hmacSha256Hex ?k ?m) _ ?w0] =>
    step (hmacSha256Hex_run k m w0 (hmac_sha256_hex_nonempty _ _))
  end.
  match goal with
  | |- context [debugLog config ?m] =>
    destruct (debugLog_run config m (afterClock w)) as [w' [Hlog _]]
  end.
  step Hlog. exists w'. reflexivity.
Qed.

(** C3: with [timestampMs] the reading of the clock, the call returns
    that reading as its timestamp and, as its signature, the hexadecimal
    HMAC-SHA256 of "e|t|timestampMs" under the intermediate key, itself
    the hexadecimal HMAC-SHA256 of the decimal text of
    floor(timestampMs / 300000) under the fixed secret; times of the same
    bucket of five minutes have the same intermediate key. *)
Theorem generateChatSignature_spec (config : Config) (e t : jsstring) (w : World) :
  let timestampMs := clockReading w in
  (exists w',
      generateChatSignature config e t w
      = (Returned {| signature :=
                       hmac_sha256_hex (intermediateKey timestampMs)
                                       (e ++ js "|" ++ t ++ js "|" ++ decimal timestampMs);
                     timestamp := timestampMs |}, w'))
  /\ intermediateKey timestampMs
     = hmac_sha256_hex (js "junjie") (decimal (bucket timestampMs))
  /\ (300000 * bucket timestampMs <= timestampMs < 300000 * (bucket timestampMs + 1))%Z
  /\ (forall ms1 ms2 : Z, bucket ms1 = bucket ms2 -> intermediateKey ms1 = intermediateKey ms2).
Proof.
  intros timestampMs. split; [| split; [reflexivity | split]].
  - apply generateChatSignature_run.
  - unfold bucket.
    pose proof (Z.mul_div_le timestampMs 300000 ltac:(lia)).
    pose proof (Z.mul_succ_div_gt timestampMs 300000 ltac:(lia)).
    lia.
  - intros ms1 ms2 H. unfold intermediateKey. rewrite H. reflexivity.
Qed.

(** Two times of one bucket, the first and the last millisecond of it. *)
Lemma generateChatSignature_spec_witness :
  bucket 1700000100000 = bucket 1700000399999
  /\ intermediateKey 1700000100000 = intermediateKey 1700000399999.
Proof.
  assert (H : bucket 1700000100000 = bucket 1700000399999) by reflexivity.
  split; [exact H|].
  exact (proj2 (proj2 (proj2 (generateChatSignature_spec
                                exampleConfig (js "e") (js "t") exampleWorld)))
               1700000100000%Z 1700000399999%Z H).
Defined.

(** ** The legacy signature headers *)

Lemma take_feed (A : Type) (n : nat) (s : Source A) :
  fst (take n s) = map (fun i => feed s (position s + i)) (seq 0 n).
Proof.
  revert s. induction n as [|n IH]; intros s.
  - reflexivity.
  - cbn [take]. unfold draw at 1.
    specialize (IH (mkSource (feed s) (S (position s)))).
    destruct (take n (mkSource (feed s) (S (position s)))) as [l s''].
    cbn [fst] in *. rewrite IH. cbn [seq map feed position].
    rewrite Nat.add_0_r. f_equal.
    rewrite <- seq_shift, map_map. apply map_ext. intros i. f_equal. lia.
Qed.

Lemma getRandomValues_run (n : nat) (w : World) :
  exists w', getRandomValues n w = (Returned (nextOctets n w), w')
             /\ network w' = network w /\ dateNow w' = dateNow w.
Proof.
  unfold getRandomValues.
  pose proof (take_feed _ n (cryptoRandom w)) as H.
  destruct (take n (cryptoRandom w)) as [l src]. cbn [fst] in H.
  eexists. split.
  { unfold nextOctets. rewrite H, map_map. reflexivity. }
  split; reflexivity.
Qed.

Lemma nextOctets_octets (n : nat) (w : World) :
  length (nextOctets n w) = n /\ Forall (fun b => b < 256)%N (nextOctets n w).
Proof.
  unfold nextOctets. split.
  - rewrite length_map, length_seq. reflexivity.
  - apply Forall_forall. intros b Hb. apply in_map_iff in Hb.
    destruct Hb as [i [<- _]]. apply N.mod_lt. discriminate.
Qed.

Lemma nonce_digits (w : World) :
  let nonce := hexOfBytes (nextOctets 8 w) in
  length nonce = 16 /\ forallb isHexDigit nonce = true /\ substring0 16 nonce = nonce.
Proof.
  intros nonce.
  destruct (nextOctets_octets 8 w) as [Hlen Hoct].
  destruct (hexOfBytes_octets _ Hoct) as [Hnlen Hnhex].
  fold nonce in Hnlen, Hnhex. rewrite Hlen in Hnlen. cbn in Hnlen.
  repeat split; try assumption.
  unfold substring0. rewrite <- Hnlen. apply firstn_all.
Qed.

Lemma generateLegacySignatureHeaders_run
      (config : Config) (token body method : jsstring) (w : World) :
  token <> [] ->
  let timestamp := decimal (clockReading w) in
  let nonce := hexOfBytes (nextOctets 8 (afterClock w)) in
  exists w',
    generateLegacySignatureHeaders config token body method w
    = (Returned [(js "X-Timestamp", timestamp);
                 (js "X-Nonce", nonce);
                 (js "X-Signature",
                  hmac_sha256_hex token
                    (method ++ LF ++ timestamp ++ LF ++ nonce ++ LF ++ body))], w').
Proof.
  intros Htoken timestamp nonce.
  destruct (nonce_digits (afterClock w)) as [_ [_ Hcut]]. fold nonce in Hcut.
  unfold generateLegacySignatureHeaders.
  step ((Date_now_run w)).
  destruct (getRandomValues_run 8 (afterClock w)) as [w1 [Hrand _]].
  step Hrand.
  fold timestamp. fold nonce. rewrite Hcut.
  pose proof (encode_nonempty _ Htoken) as Henc.
  unfold importKey. destruct (encode token) as [|b bs] eqn:Hkey; [congruence|].
  unfold bind at 1. unfold ret at 1. unfold bind at 1. unfold subtle_sign at 1.
  unfold ret at 1. rewrite <- Hkey.
  match goal with
  | |- context [debugLog config ?m] =>
    destruct (debugLog_run config m w1) as [w' [Hlog _]]
  end.
  step Hlog. exists w'. reflexivity.
Qed.

(** C5, for a token that is not the empty string: the three headers are
    the decimal text of the clock reading, the 16 hexadecimal digits of
    the 8 random octets (cutting to 16 changes nothing), and the 64
    hexadecimal digits of the HMAC-SHA256, keyed by the token, of method,
    timestamp, nonce and body joined by line feeds. *)
Theorem generateLegacySignatureHeaders_spec
        (config : Config) (token body method : jsstring) (w : World) :
  token <> [] ->
  let timestamp := decimal (clockReading w) in
  let nonce := hexOfBytes (nextOctets 8 (afterClock w)) in
  let signature :=
    hmac_sha256_hex token (method ++ LF ++ timestamp ++ LF ++ nonce ++ LF ++ body) in
  (exists w',
      generateLegacySignatureHeaders config token body method w
      = (Returned [(js "X-Timestamp", timestamp);
                   (js "X-Nonce", nonce);
                   (js "X-Signature", signature)], w'))
  /\ length nonce = 16 /\ forallb isHexDigit nonce = true
  /\ substring0 16 nonce = nonce
  /\ length signature = 64 /\ forallb isHexDigit signature = true.
Proof.
  intros Htoken timestamp nonce signature.
  destruct (nonce_digits (afterClock w)) as [H1 [H2 H3]].
  split; [apply generateLegacySignatureHeaders_run; exact Htoken|].
  repeat split; try assumption; apply hmac_sha256_hex_digits.
Qed.

Lemma generateLegacySignatureHeaders_spec_witness :
  js "anonymous" <> []
  /\ length (hexOfBytes (nextOctets 8 (afterClock exampleWorld))) = 16.
Proof.
  assert (H : js "anonymous" <> []) by discriminate.
  split; [exact H|].
  exact (proj1 (proj2 (generateLegacySignatureHeaders_spec
                         exampleConfig (js "anonymous") [] (js "GET") exampleWorld H))).
Defined.

(** The claim as worded, for every token, fails at the empty token: key
    import refuses it and the call raises instead of returning headers. *)
Lemma generateLegacySignatureHeaders_empty_token_raises :
  fst (generateLegacySignatureHeaders exampleConfig [] [] (js "GET") exampleWorld)
  = Threw DataError
  /\ ~ (exists headers,
           fst (generateLegacySignatureHeaders exampleConfig [] [] (js "GET") exampleWorld)
           = Returned headers).
Proof.
  assert (H : fst (generateLegacySignatureHeaders exampleConfig [] [] (js "GET") exampleWorld)
              = Threw DataError) by (vm_compute; reflexivity).
  split; [exact H|]. intros [headers Hh]. rewrite H in Hh. discriminate.
Qed.

(** ** Browser headers *)

Lemma getUserAgentInstance_run (w : World) :
  cacheSound w ->
  exists pick w',
    getUserAgentInstance w = (Returned (newUserAgentInstance pick), w')
    /\ cacheSound w' /\ network w' = network w /\ dateNow w' = dateNow w
    /\ cryptoRandom w' = cryptoRandom w /\ cryptoUUID w' = cryptoUUID w.
Proof.
  intros Hc. unfold getUserAgentInstance, cacheSound in *.
  unfold bind at 1. unfold get_userAgentInstance at 1.
  destruct (_userAgentInstance w) as [ua|] eqn:Hua.
  - destruct Hc as [pick ->]. exists pick, w. unfold ret. rewrite Hua.
    repeat split. exists pick. reflexivity.
  - eexists _, _. split; [reflexivity|]. cbn. repeat split. eexists. reflexivity.
Qed.

Lemma Math_random_index_run (n : nat) (w : World) :
  n <> 0 ->
  exists i w',
    Math_random_index n w = (Returned i, w') /\ i < n
    /\ _userAgentInstance w' = _userAgentInstance w
    /\ network w' = network w /\ dateNow w' = dateNow w
    /\ cryptoRandom w' = cryptoRandom w /\ cryptoUUID w' = cryptoUUID w.
Proof.
  intros Hn. unfold Math_random_index. eexists _, _. split; [reflexivity|].
  cbn [draw fst snd]. repeat split.
  pose proof (N.mod_lt (feed (mathRandom w) (position (mathRandom w))) (N.of_nat n)
                       ltac:(lia)).
  lia.
Qed.

(** Evaluation of the comparisons between the literal keys of an object. *)
Ltac eval_keys :=
  repeat match goal with
         | |- context [js ?a === js ?b] =>
           let v := eval vm_compute in (js a === js b) in
           change (js a === js b) with v
         end.

Lemma userAgentOf_table (pick i : nat) :
  i < 7 ->
  exists browserType,
    nth_error browserChoices i = Some browserType
    /\ In browserType browserChoices
    /\ userAgentOf (newUserAgentInstance pick) (Some browserType)
       = cannedUserAgent browserType
    /\ secChUaOf (cannedUserAgent browserType)
       = if browserType === js "firefox" then None
         else if browserType === js "edge" then Some (edgeBrand (js "139") (js "139"))
              else Some (chromiumBrand (js "139")).
Proof.
  intros Hi.
  do 7 (destruct i as [|i];
        [eexists; split; [reflexivity|];
         split; [cbn; tauto|]; split; vm_compute; reflexivity|]).
  lia.
Qed.

Lemma brands_truthy :
  truthy (edgeBrand (js "139") (js "139")) = true
  /\ truthy (chromiumBrand (js "139")) = true.
Proof. split; reflexivity. Qed.

Ltac dict_compute :=
  repeat (progress (cbv beta iota zeta delta [dict_get dict_set fst snd]; eval_keys)).

(** The header set in terms of the two templates of the code. *)
Lemma getBrowserHeaders_table (config : Config) (refererChatId : jsstring) (w : World) :
  cacheSound w ->
  exists browserType headers w',
    In browserType browserChoices
    /\ getBrowserHeaders config refererChatId w = (Returned headers, w')
    /\ cacheSound w'
    /\ dict_get (js "Content-Type") headers = Some (js "application/json")
    /\ dict_get (js "Accept") headers = Some (js "application/json, text/event-stream")
    /\ dict_get (js "User-Agent") headers = Some (cannedUserAgent browserType)
    /\ dict_get (js "Origin") headers = Some (CLIENT_HEADERS_Origin config)
    /\ (dict_get (js "sec-ch-ua") headers = None <-> browserType = js "firefox")
    /\ dict_get (js "sec-ch-ua") headers
       = (if browserType === js "firefox" then None
          else if browserType === js "edge" then Some (edgeBrand (js "139") (js "139"))
               else Some (chromiumBrand (js "139")))
    /\ dict_get (js "Referer") headers
       = (if truthy refererChatId
          then Some (CLIENT_HEADERS_Origin config ++ js "/c/" ++ refererChatId)
          else None).
Proof.
  intros Hc.
  destruct (getUserAgentInstance_run w Hc) as [pick [w1 [Hua [Hc1 _]]]].
  destruct (Math_random_index_run (length browserChoices) w1 ltac:(discriminate))
    as [i [w2 [Hidx [Hi [Hcache2 _]]]]].
  destruct (userAgentOf_table pick i Hi) as [browserType [Hnth [Hin [Hagent Hsec]]]].
  assert (Hc2 : cacheSound w2) by (unfold cacheSound in *; rewrite Hcache2; exact Hc1).
  unfold getBrowserHeaders.
  step Hua. step Hidx.
  cbv zeta. rewrite Hnth, Hagent, Hsec.
  exists browserType.
  assert (Hlog : forall m, exists w',
               (if DEBUG_LOGGING config then debugLog config m else ret tt) w2
               = (Returned tt, w') /\ cacheSound w').
  { intros m. destruct (DEBUG_LOGGING config) eqn:Hd.
    - destruct (debugLog_run config m w2) as [w' [Hrun [_ [_ Hcache]]]].
      exists w'. split; [exact Hrun|]. unfold cacheSound in *. rewrite Hcache. exact Hc2.
    - exists w2. split; [reflexivity | exact Hc2]. }
  match goal with
  | |- context [debugLog config ?m] => destruct (Hlog m) as [w' [Hrun Hc']]
  end.
  step Hrun. unfold ret.
  eexists _, w'. split; [exact Hin|]. split; [reflexivity|]. split; [exact Hc'|].
  destruct (browserType === js "firefox") eqn:Hff;
    [| destruct (browserType === js "edge") eqn:Hedge;
       [rewrite (proj1 brands_truthy) | rewrite (proj2 brands_truthy)]];
    destruct refererChatId as [|c r]; cbn [truthy];
      repeat split; try (dict_compute; reflexivity);
        try (intros _; apply jsstring_eqb_eq; exact Hff);
        try (dict_compute; intros H; discriminate H);
        try (intros ->; vm_compute in Hff; discriminate Hff).
Qed.

(** The two templates at version 139 give the two texts written out. *)
Lemma brands_written :
  edgeBrand (js "139") (js "139") = edgeBranded139
  /\ chromiumBrand (js "139") = chromiumBranded139.
Proof. split; vm_compute; reflexivity. Qed.



(** ** Actions that return, actions that leave the network alone *)

Create HintDb effects.

Lemma keepsNetwork_ret (A : Type) (a : A) : keepsNetwork (ret a).
Proof. intros w. reflexivity. Qed.

Lemma keepsNetwork_throw (A : Type) (e : Exn) : keepsNetwork (@throw A e).
Proof. intros w. reflexivity. Qed.

Lemma keepsNetwork_bind (A B : Type) (m : Async A) (k : A -> Async B) :
  keepsNetwork m -> (forall a, keepsNetwork (k a)) -> keepsNetwork (bind m k).
Proof.
  intros Hm Hk w. unfold bind. specialize (Hm w).
  destruct (m w) as [[a|e] w1]; cbn [snd] in *.
  - rewrite (Hk a w1). exact Hm.
  - exact Hm.
Qed.

Lemma keepsNetwork_tryCatch (A : Type) (m : Async A) (h : Exn -> Async A) :
  keepsNetwork m -> (forall e, keepsNetwork (h e)) -> keepsNetwork (tryCatch m h).
Proof.
  intros Hm Hh w. unfold tryCatch. specialize (Hm w).
  destruct (m w) as [[a|e] w1]; cbn [snd] in *.
  - exact Hm.
  - rewrite (Hh e w1). exact Hm.
Qed.

Lemma keepsNetwork_Date_now : keepsNetwork Date_now.
Proof. intros w. reflexivity. Qed.

Lemma keepsNetwork_Math_random_index (n : nat) : keepsNetwork (Math_random_index n).
Proof. intros w. reflexivity. Qed.

Lemma keepsNetwork_getRandomValues (n : nat) : keepsNetwork (getRandomValues n).
Proof.
  intros w. unfold getRandomValues. destruct (take n (cryptoRandom w)). reflexivity.
Qed.

Lemma keepsNetwork_randomUUID : keepsNetwork randomUUID.
Proof. intros w. reflexivity. Qed.

Lemma keepsNetwork_fetch (request : Request) : keepsNetwork (fetch request).
Proof. intros w. unfold fetch. destruct (network w request); reflexivity. Qed.

Lemma keepsNetwork_response_json (r : Response) : keepsNetwork (response_json r).
Proof. intros w. unfold response_json. destruct (json r); reflexivity. Qed.

Lemma keepsNetwork_console_log (line : jsstring) : keepsNetwork (console_log line).
Proof. intros w. reflexivity. Qed.

Lemma keepsNetwork_set_userAgentInstance (ua : UserAgents) :
  keepsNetwork (set_userAgentInstance ua).
Proof. intros w. reflexivity. Qed.

Lemma keepsNetwork_get_userAgentInstance : keepsNetwork get_userAgentInstance.
Proof. intros w. reflexivity. Qed.

Lemma keepsNetwork_importKey (keyData : list N) : keepsNetwork (importKey keyData).
Proof. intros w. destruct keyData; reflexivity. Qed.

Lemma keepsNetwork_subtle_sign (key data : list N) : keepsNetwork (subtle_sign key data).
Proof. intros w. reflexivity. Qed.

Lemma keepsNetwork_debugLog (config : Config) (message : jsstring) :
  keepsNetwork (debugLog config message).
Proof. intros w. unfold debugLog. destruct (DEBUG_LOGGING config); reflexivity. Qed.

#[local] Hint Resolve keepsNetwork_ret keepsNetwork_throw keepsNetwork_Date_now
  keepsNetwork_Math_random_index keepsNetwork_getRandomValues keepsNetwork_randomUUID
  keepsNetwork_fetch keepsNetwork_response_json keepsNetwork_console_log
  keepsNetwork_set_userAgentInstance keepsNetwork_get_userAgentInstance
  keepsNetwork_importKey keepsNetwork_subtle_sign keepsNetwork_debugLog : effects.

(** Goes through the binds, the handlers and the branches of an action. *)
Ltac keeps_network :=
  repeat lazymatch goal with
         | |- keepsNetwork (bind _ _) => apply keepsNetwork_bind; [| intros ?]
         | |- keepsNetwork (tryCatch _ _) => apply keepsNetwork_tryCatch; [| intros ?]
         | |- keepsNetwork (ret _) => apply keepsNetwork_ret
         | |- keepsNetwork (throw _) => apply keepsNetwork_throw
         | |- keepsNetwork (if ?b then _ else _) => destruct b
         | |- keepsNetwork (let (_, _) := ?x in _) => destruct x
         | |- keepsNetwork (match ?x with _ => _ end) => destruct x
         | |- keepsNetwork (let _ := _ in _) => cbv zeta
         | |- _ => solve [auto with effects]
         end.

Lemma keepsNetwork_getBrowserHeaders (config : Config) (refererChatId : jsstring) :
  keepsNetwork (getBrowserHeaders config refererChatId).
Proof. unfold getBrowserHeaders, getUserAgentInstance. keeps_network. Qed.

Lemma keepsNetwork_generateLegacySignatureHeaders
      (config : Config) (token body method : jsstring) :
  keepsNetwork (generateLegacySignatureHeaders config token body method).
Proof. unfold generateLegacySignatureHeaders. keeps_network. Qed.

Lemma keepsNetwork_generateChatSignature (config : Config) (e t : jsstring) :
  keepsNetwork (generateChatSignature config e t).
Proof. unfold generateChatSignature, hmacSha256Hex. keeps_network. Qed.

Lemma keepsNetwork_read_token (data : Parsed) : keepsNetwork (read_token data).
Proof. unfold read_token. keeps_network. Qed.

#[local] Hint Resolve keepsNetwork_getBrowserHeaders
  keepsNetwork_generateLegacySignatureHeaders keepsNetwork_generateChatSignature
  keepsNetwork_read_token : effects.

Lemma keepsNetwork_getAnonymousToken (config : Config) :
  keepsNetwork (getAnonymousToken config).
Proof. unfold getAnonymousToken. keeps_network. Qed.

#[local] Hint Resolve keepsNetwork_getAnonymousToken : effects.

Lemma neverThrows_ret (A : Type) (a : A) : neverThrows (ret a).
Proof. intros w. exists a. reflexivity. Qed.

Lemma neverThrows_bind (A B : Type) (m : Async A) (k : A -> Async B) :
  neverThrows m -> (forall a, neverThrows (k a)) -> neverThrows (bind m k).
Proof.
  intros Hm Hk w. unfold bind. destruct (Hm w) as [a Ha].
  destruct (m w) as [o w1]. cbn [fst] in Ha. subst o. apply Hk.
Qed.

Lemma neverThrows_tryCatch (A : Type) (m : Async A) (h : Exn -> Async A) :
  (forall e, neverThrows (h e)) -> neverThrows (tryCatch m h).
Proof.
  intros Hh w. unfold tryCatch. destruct (m w) as [[a|e] w1].
  - exists a. reflexivity.
  - apply Hh.
Qed.

Lemma neverThrows_Date_now : neverThrows Date_now.
Proof. intros w. eexists. reflexivity. Qed.

Lemma neverThrows_Math_random_index (n : nat) : neverThrows (Math_random_index n).
Proof. intros w. eexists. reflexivity. Qed.

Lemma neverThrows_getRandomValues (n : nat) : neverThrows (getRandomValues n).
Proof.
  intros w. unfold getRandomValues. destruct (take n (cryptoRandom w)).
  eexists. reflexivity.
Qed.

Lemma neverThrows_randomUUID : neverThrows randomUUID.
Proof. intros w. eexists. reflexivity. Qed.

Lemma neverThrows_console_log (line : jsstring) : neverThrows (console_log line).
Proof. intros w. eexists. reflexivity. Qed.

Lemma neverThrows_set_userAgentInstance (ua : UserAgents) :
  neverThrows (set_userAgentInstance ua).
Proof. intros w. eexists. reflexivity. Qed.

Lemma neverThrows_get_userAgentInstance : neverThrows get_userAgentInstance.
Proof. intros w. eexists. reflexivity. Qed.

Lemma neverThrows_subtle_sign (key data : list N) : neverThrows (subtle_sign key data).
Proof. intros w. eexists. reflexivity. Qed.

Lemma neverThrows_debugLog (config : Config) (message : jsstring) :
  neverThrows (debugLog config message).
Proof.
  intros w. unfold debugLog. destruct (DEBUG_LOGGING config); eexists; reflexivity.
Qed.

#[local] Hint Resolve neverThrows_ret neverThrows_Date_now neverThrows_Math_random_index
  neverThrows_getRandomValues neverThrows_randomUUID neverThrows_console_log
  neverThrows_set_userAgentInstance neverThrows_get_userAgentInstance
  neverThrows_subtle_sign neverThrows_debugLog : effects.

Ltac never_throws :=
  repeat lazymatch goal with
         | |- neverThrows (bind _ _) => apply neverThrows_bind; [| intros ?]
         | |- neverThrows (tryCatch _ _) => apply neverThrows_tryCatch; intros ?
         | |- neverThrows (ret _) => apply neverThrows_ret
         | |- neverThrows (if ?b then _ else _) => destruct b
         | |- neverThrows (let (_, _) := ?x in _) => destruct x
         | |- neverThrows (match ?x with _ => _ end) => destruct x
         | |- neverThrows (let _ := _ in _) => cbv zeta
         | |- _ => solve [auto with effects]
         end.

Lemma neverThrows_getBrowserHeaders (config : Config) (refererChatId : jsstring) :
  neverThrows (getBrowserHeaders config refererChatId).
Proof. unfold getBrowserHeaders, getUserAgentInstance. never_throws. Qed.

Lemma neverThrows_generateChatSignature (config : Config) (e t : jsstring) :
  neverThrows (generateChatSignature config e t).
Proof.
  intros w. destruct (generateChatSignature_run config e t w) as [w' H].
  rewrite H. eexists. reflexivity.
Qed.

#[local] Hint Resolve neverThrows_getBrowserHeaders neverThrows_generateChatSignature
  : effects.

(** Running an action that never throws and keeps the network. *)
Lemma run_quiet {A : Type} (m : Async A) (w : World) :
  neverThrows m -> keepsNetwork m ->
  exists a w', m w = (Returned a, w') /\ network w' = network w.
Proof.
  intros Hn Hk. destruct (Hn w) as [a Ha]. specialize (Hk w).
  destruct (m w) as [o w']. cbn [fst snd] in *. subst o.
  exists a, w'. split; [reflexivity | exact Hk].
Qed.

(** ** Objects *)

Lemma dict_get_set_same (V : Type) (k : jsstring) (v : V) (d : Dict V) :
  dict_get k (dict_set k v d) = Some v.
Proof.
  induction d as [|[k' v'] r IH]; cbn [dict_set dict_get].
  - rewrite jsstring_eqb_refl. reflexivity.
  - destruct (k' === k) eqn:E; cbn [dict_get].
    + rewrite jsstring_eqb_refl. reflexivity.
    + rewrite E. exact IH.
Qed.

Lemma dict_get_set_other (V : Type) (k k' : jsstring) (v : V) (d : Dict V) :
  k <> k' -> dict_get k (dict_set k' v d) = dict_get k d.
Proof.
  intros Hne. induction d as [|[k'' v''] r IH]; cbn [dict_set dict_get].
  - apply jsstring_eqb_neq in Hne.
    replace (k' === k) with false; [reflexivity|].
    symmetry. apply jsstring_eqb_neq. apply jsstring_eqb_neq in Hne. congruence.
  - destruct (k'' === k') eqn:E; cbn [dict_get].
    + apply jsstring_eqb_eq in E. subst k''.
      replace (k' === k) with false; [reflexivity|].
      symmetry. apply jsstring_eqb_neq. congruence.
    + destruct (k'' === k); [reflexivity | exact IH].
Qed.

(** ** The upstream call *)

(** C2, as the code has it: the call sends one POST request with a
    timeout of 60 seconds and the request without its params as body; it
    raises exactly when the fetch rejects (network failure, timeout), with
    the error of the fetch unchanged, and returns the response of the
    provider as it is whenever there is one, whatever its status. *)
Theorem callUpstreamApi_spec
        (config : Config) (upstreamReq : UpstreamRequest) (chatId authToken : jsstring)
        (w : World) :
  exists request,
    method request = js "POST"
    /\ timeout request = 60000%Z
    /\ base (url request) = base (API_ENDPOINT config)
    /\ body request
       = Some (mkUpstreamRequest (messages upstreamReq) None (fields upstreamReq))
    /\ dict_get (js "Authorization") (headers request) = Some (js "Bearer " ++ authToken)
    /\ fst (callUpstreamApi config upstreamReq chatId authToken w)
       = match network w request with
         | Rejected e => Threw e
         | Resolved response => Returned response
         end.
Proof.
  unfold callUpstreamApi.
  destruct (run_quiet (getBrowserHeaders config chatId) w
                      ltac:(auto with effects) ltac:(auto with effects))
    as [hdrs [w1 [H1 N1]]].
  step H1.
  destruct (run_quiet randomUUID w1 ltac:(auto with effects) ltac:(auto with effects))
    as [requestId [w2 [H2 N2]]].
  step H2.
  step ((Date_now_run w2)).
  destruct (run_quiet randomUUID (afterClock w2)
                      ltac:(auto with effects) ltac:(auto with effects))
    as [userId [w3 [H3 N3]]].
  step H3.
  cbv zeta.
  match goal with
  | |- context [generateChatSignature config ?e ?t] =>
    destruct (run_quiet (generateChatSignature config e t) w3
                        ltac:(auto with effects) ltac:(auto with effects))
      as [[signature signatureTimestamp] [w4 [H4 N4]]]
  end.
  step H4.
  match goal with
  | |- context [bind (debugLog config ?m) _] =>
    destruct (run_quiet (debugLog config m) w4
                        ltac:(auto with effects) ltac:(auto with effects))
      as [[] [w5 [H5 N5]]];
      step H5
  end.
  match goal with
  | |- context [bind (debugLog config ?m) _] =>
    destruct (run_quiet (debugLog config m) w5
                        ltac:(auto with effects) ltac:(auto with effects))
      as [[] [w6 [H6 N6]]];
      step H6
  end.
  assert (Hnet : network w6 = network w).
  { rewrite N6, N5, N4, N3. cbn [afterClock network]. rewrite N2, N1. reflexivity. }
  match goal with
  | |- context [fetch ?r] => exists r
  end.
  cbn [method timeout url base body headers].
  repeat split.
  - rewrite dict_get_set_other by (vm_compute; discriminate).
    apply dict_get_set_same.
  - unfold bind at 1. unfold fetch at 1. rewrite Hnet.
    match goal with
    | |- context [network w ?r] => destruct (network w r) as [e|response]
    end.
    + reflexivity.
    + match goal with
      | |- context [bind (debugLog config ?m) _] =>
        destruct (run_quiet (debugLog config m) w6
                            ltac:(auto with effects) ltac:(auto with effects))
          as [[] [w7 [H7 _]]];
          step H7
      end.
      reflexivity.
Qed.

(** The claim as worded fails on a response of status 500: the call
    returns that response and raises nothing. *)
Lemma callUpstreamApi_returns_failed_response :
  fst (callUpstreamApi exampleConfig exampleRequest (js "chat-1") (js "token")
                       (worldWith failingNetwork))
  = Returned (mkResponse 500 None)
  /\ ok (mkResponse 500 None) = false
  /\ ~ (exists e,
           fst (callUpstreamApi exampleConfig exampleRequest (js "chat-1") (js "token")
                                (worldWith failingNetwork))
           = Threw e).
Proof.
  assert (H : fst (callUpstreamApi exampleConfig exampleRequest (js "chat-1") (js "token")
                                   (worldWith failingNetwork))
              = Returned (mkResponse 500 None)) by (vm_compute; reflexivity).
  split; [exact H|]. split; [reflexivity|].
  intros [e He]. rewrite H in He. discriminate.
Qed.

(** ** Tokens *)

Lemma run_rethrow (A : Type) (config : Config) (message : Exn -> jsstring)
      (e : Exn) (w : World) :
  fst ((debugLog config (message e) ;;; @throw A e) w) = Threw e.
Proof.
  destruct (debugLog_run config (message e) w) as [w' [H _]].
  step H. reflexivity.
Qed.

(** The anonymous-token call sends one GET request to the auth endpoint,
    with a timeout of 10 seconds, and ends as [anonymousTokenOutcome]
    tells. *)
Lemma getAnonymousToken_outcome (config : Config) (w : World) :
  exists request,
    url request = mkURL (CLIENT_HEADERS_Origin config ++ js "/api/v1/auths/") []
    /\ method request = js "GET"
    /\ timeout request = 10000%Z
    /\ fst (getAnonymousToken config w) = anonymousTokenOutcome (network w request).
Proof.
  unfold getAnonymousToken.
  destruct (run_quiet (getBrowserHeaders config []) w
                      ltac:(auto with effects) ltac:(auto with effects))
    as [headers [w1 [H1 N1]]].
  step H1. cbv zeta.
  destruct (generateLegacySignatureHeaders_run config (js "anonymous") [] (js "GET") w1
                                               ltac:(discriminate))
    as [w2 H2].
  pose proof (keepsNetwork_generateLegacySignatureHeaders
                config (js "anonymous") [] (js "GET") w1) as N2.
  rewrite H2 in N2. cbn [snd] in N2.
  step H2.
  match goal with
  | |- context [fetch ?r] => exists r
  end.
  cbn [url method timeout]. repeat split.
  unfold tryCatch, bind at 1, fetch at 1. rewrite N2, N1.
  match goal with
  | |- context [network w ?r] => destruct (network w r) as [e|response]
  end; cbn [anonymousTokenOutcome].
  - apply (run_rethrow Json config
             (fun error => js "获取匿名token失败: " ++ exn_toString error)).
  - destruct (ok response); cbn [negb].
    + unfold bind at 1, response_json.
      destruct (json response) as [[|token data]|].
      * apply (run_rethrow Json config
                 (fun error => js "获取匿名token失败: " ++ exn_toString error)).
      * cbn [ret read_token bind].
        destruct token as [token|].
        -- destruct (json_truthy token).
           ++ reflexivity.
           ++ apply (run_rethrow Json config
                       (fun error => js "获取匿名token失败: " ++ exn_toString error)).
        -- apply (run_rethrow Json config
                    (fun error => js "获取匿名token失败: " ++ exn_toString error)).
      * apply (run_rethrow Json config
                 (fun error => js "获取匿名token失败: " ++ exn_toString error)).
    + apply (run_rethrow Json config
               (fun error => js "获取匿名token失败: " ++ exn_toString error)).
Qed.

Ltac run_log :=
  match goal with
  | |- context [bind (debugLog ?c ?m) ?k ?w] =>
    let w' := fresh "w" in
    let H := fresh "Hlog" in
    let N := fresh "Nlog" in
    destruct (debugLog_run c m w) as [w' [H [N _]]];
    step H
  end.

Lemma getAuthToken_run (config : Config) (w : World) :
  exists token w',
    getAuthToken config w = (Returned token, w')
    /\ token = (if ANONYMOUS_MODE config then
                  match fst (getAnonymousToken config w) with
                  | Returned (JString t) => t
                  | _ => BACKUP_TOKEN config
                  end
                else BACKUP_TOKEN config).
Proof.
  unfold getAuthToken. destruct (ANONYMOUS_MODE config).
  - unfold bind at 1, tryCatch.
    destruct (getAnonymousToken config w) as [[token|e] w1] eqn:Htok.
    + step Htok. cbn [fst].
      destruct token as [|b|z|s|items|fields];
        try (unfold substring_receiver, bind at 1, throw; run_log;
             eexists _, _; split; reflexivity).
      unfold substring_receiver. unfold bind at 1, ret at 1. run_log.
      eexists _, _. split; reflexivity.
    + step Htok. cbn [fst]. run_log.
      eexists _, _. split; reflexivity.
  - eexists _, _. split; reflexivity.
Qed.

Lemma fetchLatestModels_run (config : Config) (w : World) :
  exists (requestFor : jsstring -> Request) models w',
    fetchLatestModels config w = (Returned models, w')
    /\ (forall tok,
           url (requestFor tok) = mkURL (js "https://chat.z.ai/api/models") []
           /\ method (requestFor tok) = js "GET"
           /\ timeout (requestFor tok) = 10000%Z
           /\ dict_get (js "Authorization") (headers (requestFor tok))
              = Some (js "Bearer " ++ tok))
    /\ models = match fst (getAnonymousToken config w) with
                | Returned (JString tok) => latestModelsOf (network w (requestFor tok))
                | _ => []
                end.
Proof.
  pose (requestWith := fun (h : Dict jsstring) (tok : jsstring) =>
    {| url := mkURL (js "https://chat.z.ai/api/models") [];
       method := js "GET";
       headers :=
         dict_set (js "User-Agent")
           (js "Mozilla/5.0 (X11; Linux x86_64) AppleWebKit/537.36 (KHTML, like Gecko) Chrome/140.0.0.0 Safari/537.36 Edg/140.0.0.0")
           (dict_set (js "Authorization") (js "Bearer " ++ tok)
              (dict_set (js "Accept") (js "application/json") h));
       body := None;
       timeout := 10000%Z |}).
  assert (Hreq : forall h tok,
             url (requestWith h tok) = mkURL (js "https://chat.z.ai/api/models") []
             /\ method (requestWith h tok) = js "GET"
             /\ timeout (requestWith h tok) = 10000%Z
             /\ dict_get (js "Authorization") (headers (requestWith h tok))
                = Some (js "Bearer " ++ tok)).
  { intros h tok. repeat split. cbn [requestWith headers].
    rewrite dict_get_set_other by (vm_compute; discriminate).
    apply dict_get_set_same. }
  unfold fetchLatestModels.
  pose proof (keepsNetwork_getAnonymousToken config w) as N0.
  destruct (getAnonymousToken config w) as [[token|e] w1] eqn:Htok; cbn [fst snd] in *.
  - destruct token as [|b|z|tok|items|fields];
      try (exists (requestWith []);
           unfold tryCatch at 1, bind at 1, tryCatch at 1;
           step Htok;
           unfold substring_receiver, bind at 1, throw; run_log;
           eexists _, _; split; [reflexivity | split; [apply Hreq | reflexivity]]).
    destruct (run_quiet (getBrowserHeaders config [])
                        (snd (debugLog config
                                (js "成功获取匿名token用于模型获取: "
                                 ++ substring0 10 tok ++ js "...") w1))
                        ltac:(auto with effects) ltac:(auto with effects))
      as [h [w3 [H3 N3]]].
    exists (requestWith h).
    unfold tryCatch at 1, bind at 1, tryCatch at 1.
    step Htok.
    unfold substring_receiver. unfold bind at 1, ret at 1. run_log.
    rewrite Hlog in H3, N3. cbn [snd] in H3, N3.
    unfold ret at 1.
    step H3. cbv zeta.
    fold (requestWith h tok).
    unfold bind at 1, fetch at 1.
    rewrite N3, Nlog, N0.
    destruct (network w (requestWith h tok)) as [e|response];
      cbn [latestModelsOf].
    + run_log. eexists _, _. split; [reflexivity | split; [apply Hreq | reflexivity]].
    + destruct (ok response); cbn [negb].
      * unfold bind at 1, response_json.
        destruct (json response) as [[|token data]|]; cbn [ret throw read_data bind].
        -- run_log. eexists _, _.
           split; [reflexivity | split; [apply Hreq | reflexivity]].
        -- run_log. eexists _, _.
           split; [reflexivity | split; [apply Hreq | reflexivity]].
        -- run_log. eexists _, _.
           split; [reflexivity | split; [apply Hreq | reflexivity]].
      * run_log. eexists _, _.
        split; [reflexivity | split; [apply Hreq | reflexivity]].
  - exists (requestWith []).
    unfold tryCatch at 1, bind at 1, tryCatch at 1.
    step Htok. run_log.
    eexists _, _. split; [reflexivity | split; [apply Hreq | reflexivity]].
Qed.

(** C6: the token getter always returns a string, the anonymous token
    when anonymous mode is on and the anonymous call returned one, the
    backup token otherwise; the model list fetch always returns a list,
    the empty one when the anonymous call failed, when its own fetch was
    rejected, answered with a status that is not a success, or when
    reading the body raised; and the anonymous call fails on a rejected
    fetch, a status that is not a success and a body without a token.
    Neither function ever raises. *)
Theorem token_and_model_fetch_absorb_failures (config : Config) (w : World) :
  (exists token w',
      getAuthToken config w = (Returned token, w')
      /\ token = (if ANONYMOUS_MODE config then
                    match fst (getAnonymousToken config w) with
                    | Returned (JString t) => t
                    | _ => BACKUP_TOKEN config
                    end
                  else BACKUP_TOKEN config))
  /\ (exists (requestFor : jsstring -> Request) models w',
         fetchLatestModels config w = (Returned models, w')
         /\ (forall tok,
                url (requestFor tok) = mkURL (js "https://chat.z.ai/api/models") []
                /\ method (requestFor tok) = js "GET"
                /\ timeout (requestFor tok) = 10000%Z
                /\ dict_get (js "Authorization") (headers (requestFor tok))
                   = Some (js "Bearer " ++ tok))
         /\ models = match fst (getAnonymousToken config w) with
                     | Returned (JString tok) => latestModelsOf (network w (requestFor tok))
                     | _ => []
                     end)
  /\ (exists request,
         url request = mkURL (CLIENT_HEADERS_Origin config ++ js "/api/v1/auths/") []
         /\ method request = js "GET"
         /\ timeout request = 10000%Z
         /\ fst (getAnonymousToken config w) = anonymousTokenOutcome (network w request)).
Proof.
  split; [apply getAuthToken_run|].
  split; [apply fetchLatestModels_run | apply getAnonymousToken_outcome].
Qed.

(** ** The model registry *)

Lemma getDefaultModels_run (config : Config) (w : World) :
  getDefaultModels config w
  = (Returned (defaultModels config (clockReading w / 1000)), afterClock w).
Proof. reflexivity. Qed.

Lemma stringOr_firstOf (a b : option jsstring) (c : jsstring) :
  stringOr a (stringOr b c) = firstOf (presentString a) (presentString b) c.
Proof.
  destruct a as [[|x a]|], b as [[|y b]|]; reflexivity.
Qed.

Lemma isReading_next (w : World) : isReading w (clockReading w).
Proof. exists (position (dateNow w)). split; [lia | reflexivity]. Qed.

Lemma isReading_afterClock (w : World) (now : Z) :
  isReading (afterClock w) now -> isReading w now.
Proof.
  intros [j [Hj ->]]. exists j. cbn in *. split; [lia | reflexivity].
Qed.

Lemma created_run (model : ZAIModel) (w : World) :
  exists w',
    numberOrElse (created model)
      (numberOrElse (info_created_at_of model)
         (now <- Date_now ;; ret (now / 1000)%Z)) w
    = (Returned (firstOf (presentNumber (created model))
                         (presentNumber (info_created_at_of model))
                         (clockReading w / 1000)%Z), w')
    /\ (w' = w \/ w' = afterClock w).
Proof.
  unfold numberOrElse.
  destruct (created model) as [[|p|p]|];
    destruct (info_created_at_of model) as [[|q|q]|];
    eexists; (split; [reflexivity|]); auto.
Qed.

(** One overlay puts the merged entry at the id of the model; it reads
    the clock at most once. *)
Lemma overlay_run (modelMap : Dict ZAIModel) (model : ZAIModel) (w : World) :
  exists now w',
    overlay modelMap model w
    = (Returned (dict_set (id model) (mergedEntry model now) modelMap), w')
    /\ isReading w now
    /\ (forall t, isReading w' t -> isReading w t).
Proof.
  exists (clockReading w).
  destruct (created_run model w) as [w' [Hrun Hw']].
  exists w'. unfold overlay. cbv zeta. step Hrun.
  unfold mergedEntry. rewrite !stringOr_firstOf.
  split; [reflexivity|]. split; [apply isReading_next|].
  destruct Hw' as [-> | ->]; [auto | apply isReading_afterClock].
Qed.

Lemma forEach_overlay_run (latest : list ZAIModel) (modelMap : Dict ZAIModel) (w : World) :
  exists entries w',
    forEach overlay latest modelMap w = (Returned (setAll entries modelMap), w')
    /\ Forall2 (mergedFrom w) latest entries.
Proof.
  revert modelMap w. induction latest as [|model latest IH]; intros modelMap w.
  - exists [], w. split; [reflexivity | constructor].
  - destruct (overlay_run modelMap model w) as [now [w1 [Hrun [Hnow Hlater]]]].
    destruct (IH (dict_set (id model) (mergedEntry model now) modelMap) w1)
      as [entries [w' [Hrest Hall]]].
    exists (mergedEntry model now :: entries), w'. cbn [forEach].
    step Hrun. rewrite Hrest. split; [reflexivity|].
    constructor.
    + exists now. split; [exact Hnow | reflexivity].
    + eapply Forall2_impl; [|exact Hall].
      intros a b [t [Ht ->]]. exists t. split; [apply Hlater; exact Ht | reflexivity].
Qed.

(** The whole run of the registry: the default list when the fetch
    raised or gave an empty list, the values of the merged map otherwise. *)
Lemma getAvailableModelsWith_run
      (config : Config) (fetchLatest : Async (list ZAIModel)) (w : World) :
  let defaults := defaultModels config (clockReading w / 1000) in
  match fetchLatest (afterClock w) with
  | (Returned [], _) | (Threw _, _) =>
    exists w', getAvailableModelsWith config fetchLatest w = (Returned defaults, w')
  | (Returned latest, w1) =>
    exists entries w',
      getAvailableModelsWith config fetchLatest w
      = (Returned (dict_values (setAll entries (setAll defaults []))), w')
      /\ Forall2 (mergedFrom w1) latest entries
  end.
Proof.
  intros defaults. unfold getAvailableModelsWith.
  step (getDefaultModels_run config w). fold defaults.
  destruct (fetchLatest (afterClock w)) as [[latest|e] w1] eqn:Hfetch.
  - destruct latest as [|model latest].
    + unfold bind at 1, tryCatch. step Hfetch. cbn [length Nat.ltb Nat.leb].
      eexists. reflexivity.
    + destruct (forEach_overlay_run (model :: latest) (setAll defaults []) w1)
        as [entries [w' [Hrun Hall]]].
      exists entries, w'. split; [|exact Hall].
      unfold bind at 1, tryCatch. step Hfetch.
      cbn [length Nat.ltb Nat.leb]. cbv zeta.
      fold (setAll defaults []). step Hrun. reflexivity.
  - unfold bind at 1, tryCatch. step Hfetch. run_log. eexists. reflexivity.
Qed.

(** *** Maps filled entry by entry *)

Lemma dict_has_In (V : Type) (k : jsstring) (d : Dict V) :
  dict_has k d = true <-> In k (dict_keys d).
Proof.
  unfold dict_has. induction d as [|[k' v] r IH]; cbn [dict_get dict_keys map In fst].
  - split; [discriminate | tauto].
  - destruct (k' === k) eqn:E.
    + apply jsstring_eqb_eq in E. split; auto.
    + apply jsstring_eqb_neq in E. rewrite IH. unfold dict_keys. tauto.
Qed.

Lemma dict_keys_set (V : Type) (k : jsstring) (v : V) (d : Dict V) :
  dict_keys (dict_set k v d)
  = if dict_has k d then dict_keys d else dict_keys d ++ [k].
Proof.
  unfold dict_has. induction d as [|[k' v'] r IH]; cbn [dict_set dict_get].
  - reflexivity.
  - destruct (k' === k) eqn:E.
    + apply jsstring_eqb_eq in E. subst k'. reflexivity.
    + unfold dict_keys in *. cbn [map fst]. rewrite IH.
      destruct (dict_get k r); reflexivity.
Qed.

Lemma dict_get_In (V : Type) (k : jsstring) (v : V) (d : Dict V) :
  dict_get k d = Some v -> In (k, v) d.
Proof.
  induction d as [|[k' v'] r IH]; cbn [dict_get]; [discriminate|].
  destruct (k' === k) eqn:E.
  - apply jsstring_eqb_eq in E. intros [= ->]. subst. left. reflexivity.
  - intros H. right. auto.
Qed.

Lemma In_dict_get (V : Type) (k : jsstring) (v : V) (d : Dict V) :
  NoDup (dict_keys d) -> In (k, v) d -> dict_get k d = Some v.
Proof.
  induction d as [|[k' v'] r IH]; cbn [dict_keys map fst dict_get]; intros Hnd Hin.
  - destruct Hin.
  - inversion Hnd as [|? ? Hnot Hnd']; subst.
    destruct Hin as [[= -> ->]|Hin].
    + rewrite jsstring_eqb_refl. reflexivity.
    + destruct (k' === k) eqn:E.
      * apply jsstring_eqb_eq in E. subst k'. exfalso. apply Hnot.
        apply (in_map fst) in Hin. exact Hin.
      * apply IH; assumption.
Qed.

Lemma firstOccurrences_In (k : jsstring) (l : list jsstring) :
  In k (firstOccurrences l) <-> In k l.
Proof.
  induction l as [|a l IH]; cbn [firstOccurrences In]; [tauto|].
  rewrite filter_In, IH. destruct (list_eq_dec N.eq_dec a k) as [->|Hne].
  - tauto.
  - split; [tauto|]. intros [H|H]; [tauto|]. right. split; [exact H|].
    apply negb_true_iff. apply jsstring_eqb_neq. congruence.
Qed.

Lemma firstOccurrences_NoDup (l : list jsstring) : NoDup (firstOccurrences l).
Proof.
  induction l as [|a l IH]; cbn [firstOccurrences]; constructor.
  - rewrite filter_In. intros [_ H]. rewrite jsstring_eqb_refl in H. discriminate.
  - apply NoDup_filter. exact IH.
Qed.

Lemma firstOccurrences_fixed (l : list jsstring) :
  NoDup l -> firstOccurrences l = l.
Proof.
  induction 1 as [|a l Hnot Hnd IH]; cbn [firstOccurrences]; [reflexivity|].
  rewrite IH. f_equal. apply forallb_filter_id. apply forallb_forall.
  intros k Hk. apply negb_true_iff. apply jsstring_eqb_neq. congruence.
Qed.

Lemma firstOccurrences_snoc (l : list jsstring) (k : jsstring) :
  firstOccurrences (l ++ [k])
  = if in_dec (list_eq_dec N.eq_dec) k l then firstOccurrences l
    else firstOccurrences l ++ [k].
Proof.
  induction l as [|a l IH]; cbn [app firstOccurrences].
  - reflexivity.
  - rewrite IH. destruct (in_dec (list_eq_dec N.eq_dec) k l) as [Hin|Hnot];
      destruct (in_dec (list_eq_dec N.eq_dec) k (a :: l)) as [Hin'|Hnot'];
      cbn [In] in *; try tauto.
    + destruct Hin' as [->|]; [|tauto].
      rewrite filter_app. cbn [filter]. rewrite jsstring_eqb_refl. cbn [negb].
      rewrite app_nil_r. reflexivity.
    + rewrite filter_app. cbn [filter].
      replace (k === a) with false; [reflexivity|].
      symmetry. apply jsstring_eqb_neq. intros ->. tauto.
Qed.

Lemma setAll_snoc (entries : list ZAIModel) (e : ZAIModel) (m : Dict ZAIModel) :
  setAll (entries ++ [e]) m = dict_set (id e) e (setAll entries m).
Proof. unfold setAll. rewrite fold_left_app. reflexivity. Qed.

(** The keys of the filled map: those it had, then the new ids in the
    order of their first occurrence. *)
Lemma setAll_keys (entries : list ZAIModel) (m : Dict ZAIModel) :
  NoDup (dict_keys m) ->
  dict_keys (setAll entries m) = firstOccurrences (dict_keys m ++ map id entries).
Proof.
  intros Hnd. induction entries as [|e entries IH] using rev_ind.
  - cbn [map setAll fold_left]. rewrite app_nil_r.
    symmetry. apply firstOccurrences_fixed. exact Hnd.
  - rewrite setAll_snoc, dict_keys_set, map_app, app_assoc. cbn [map].
    rewrite firstOccurrences_snoc, <- IH.
    destruct (in_dec (list_eq_dec N.eq_dec) (id e) (dict_keys m ++ map id entries))
      as [Hin|Hnot].
    + apply (proj2 (firstOccurrences_In _ _)) in Hin. rewrite <- IH in Hin.
      apply dict_has_In in Hin. rewrite Hin. reflexivity.
    + destruct (dict_has (id e) (setAll entries m)) eqn:Hhas; [|reflexivity].
      apply dict_has_In in Hhas. rewrite IH in Hhas.
      apply (proj1 (firstOccurrences_In _ _)) in Hhas. tauto.
Qed.

Lemma keyed_set (e : ZAIModel) (m : Dict ZAIModel) :
  keyed m -> keyed (dict_set (id e) e m).
Proof.
  unfold keyed. induction 1 as [|[k v] r Hkv Hr IH]; cbn [dict_set].
  - constructor; [reflexivity | constructor].
  - destruct (k === id e); constructor; auto.
Qed.

Lemma keyed_setAll (entries : list ZAIModel) (m : Dict ZAIModel) :
  keyed m -> keyed (setAll entries m).
Proof.
  revert m. induction entries as [|e entries IH]; intros m Hm; [exact Hm|].
  apply IH. apply keyed_set. exact Hm.
Qed.

Lemma keyed_ids (m : Dict ZAIModel) :
  keyed m -> map id (dict_values m) = dict_keys m.
Proof.
  unfold keyed, dict_values, dict_keys.
  induction 1 as [|[k v] r Hkv Hr IH]; cbn [map]; [reflexivity|].
  cbn [fst snd] in *. rewrite Hkv, IH. reflexivity.
Qed.

(** The value at an id: what the last entry of that id set, else what
    the map had. *)
Lemma setAll_get (entries : list ZAIModel) (m : Dict ZAIModel) (k : jsstring) :
  dict_get k (setAll entries m)
  = match find (fun e => id e === k) (rev entries) with
    | Some e => Some e
    | None => dict_get k m
    end.
Proof.
  induction entries as [|e entries IH] using rev_ind; [reflexivity|].
  rewrite setAll_snoc, rev_app_distr. cbn [rev app find].
  destruct (id e === k) eqn:E.
  - apply jsstring_eqb_eq in E. subst k. apply dict_get_set_same.
  - rewrite dict_get_set_other; [exact IH|].
    apply jsstring_eqb_neq in E. congruence.
Qed.

(** Entries of new and distinct ids are appended in their order. *)
Lemma setAll_fresh (entries : list ZAIModel) (m : Dict ZAIModel) :
  NoDup (map id entries) ->
  (forall e, In e entries -> ~ In (id e) (dict_keys m)) ->
  setAll entries m = m ++ map (fun e => (id e, e)) entries.
Proof.
  revert m. induction entries as [|e entries IH]; intros m Hnd Hfresh.
  - cbn. rewrite app_nil_r. reflexivity.
  - inversion Hnd as [|? ? Hnot Hnd']; subst.
    cbn [setAll fold_left map]. fold (setAll entries (dict_set (id e) e m)).
    assert (Hset : dict_set (id e) e m = m ++ [(id e, e)]).
    { specialize (Hfresh e (or_introl eq_refl)). clear -Hfresh.
      induction m as [|[k v] r IHm]; cbn [dict_set]; [reflexivity|].
      cbn [dict_keys map fst In] in Hfresh.
      destruct (k === id e) eqn:E.
      - apply jsstring_eqb_eq in E. tauto.
      - cbn [app]. f_equal. apply IHm. unfold dict_keys. tauto. }
    rewrite Hset, IH, <- app_assoc; [reflexivity | exact Hnd' |].
    intros e' He' Hin. unfold dict_keys in Hin. rewrite map_app in Hin.
    apply in_app_or in Hin. destruct Hin as [Hin|Hin].
    + apply (Hfresh e' (or_intror He')). exact Hin.
    + cbn in Hin. destruct Hin as [Heq|[]]. apply Hnot. rewrite Heq.
      apply in_map. exact He'.
Qed.

Lemma mergedFrom_ids (w : World) (latest entries : list ZAIModel) :
  Forall2 (mergedFrom w) latest entries -> map id entries = map id latest.
Proof.
  induction 1 as [|model e latest entries [now [_ ->]] _ IH]; cbn [map];
    [reflexivity|].
  rewrite IH. reflexivity.
Qed.

Lemma find_app_first (A : Type) (f : A -> bool) (l1 l2 : list A) :
  find f (l1 ++ l2) = match find f l1 with Some x => Some x | None => find f l2 end.
Proof.
  induction l1 as [|a l1 IH]; cbn [app find]; [reflexivity|].
  destruct (f a); [reflexivity | exact IH].
Qed.

Lemma find_id_none (entries : list ZAIModel) (k : jsstring) :
  ~ In k (map id entries) -> find (fun e => id e === k) entries = None.
Proof.
  induction entries as [|e entries IH]; cbn [map In find]; intros H; [reflexivity|].
  destruct (id e === k) eqn:E.
  - apply jsstring_eqb_eq in E. tauto.
  - apply IH. tauto.
Qed.

Lemma find_id_some (entries : list ZAIModel) (k : jsstring) :
  In k (map id entries) ->
  exists e, find (fun e => id e === k) entries = Some e /\ In e entries /\ id e = k.
Proof.
  intros Hin.
  destruct (find (fun e => id e === k) entries) as [e|] eqn:Hfind.
  - exists e. split; [reflexivity|]. apply find_some in Hfind.
    destruct Hfind as [H1 H2]. apply jsstring_eqb_eq in H2. auto.
  - exfalso. apply in_map_iff in Hin. destruct Hin as [e [He Hin]].
    pose proof (find_none _ _ Hfind e Hin) as Hn. cbn beta in Hn.
    rewrite He, jsstring_eqb_refl in Hn. discriminate.
Qed.

Lemma ids_rev (entries : list ZAIModel) (k : jsstring) :
  In k (map id (rev entries)) <-> In k (map id entries).
Proof. rewrite map_rev. symmetry. apply in_rev. Qed.

(** What the values of the merged map are, for a default list and the
    merged entries of a fetched list. *)
Lemma merged_values (w1 : World) (defaults latest entries : list ZAIModel) :
  Forall2 (mergedFrom w1) latest entries ->
  let result := dict_values (setAll entries (setAll defaults [])) in
  NoDup (map id result)
  /\ map id result = firstOccurrences (map id defaults ++ map id latest)
  /\ (forall m, In m result -> ~ In (id m) (map id latest) -> In m defaults)
  /\ (forall m, In m result -> In (id m) (map id latest) ->
        exists source, In source latest /\ mergedFrom w1 source m)
  /\ (forall pre m post,
         latest = pre ++ m :: post -> ~ In (id m) (map id post) ->
         exists now, isReading w1 now /\ In (mergedEntry m now) result)
  /\ (forall m,
         latest = [m] -> NoDup (map id defaults) -> ~ In (id m) (map id defaults) ->
         exists now, isReading w1 now /\ result = defaults ++ [mergedEntry m now]).
Proof.
  intros Hall result.
  pose proof (mergedFrom_ids _ _ _ Hall) as Hids.
  assert (Hjoin : setAll entries (setAll defaults []) = setAll (defaults ++ entries) [])
    by (unfold setAll; rewrite fold_left_app; reflexivity).
  assert (Hkeyed : keyed (setAll entries (setAll defaults [])))
    by (do 2 apply keyed_setAll; constructor).
  assert (Hkeys : dict_keys (setAll entries (setAll defaults []))
                  = firstOccurrences (map id defaults ++ map id latest)).
  { rewrite Hjoin, setAll_keys by constructor.
    cbn [dict_keys map app]. rewrite map_app, Hids. reflexivity. }
  assert (Hresult : map id result = firstOccurrences (map id defaults ++ map id latest))
    by (unfold result; rewrite keyed_ids by exact Hkeyed; exact Hkeys).
  assert (Hnd : NoDup (dict_keys (setAll entries (setAll defaults []))))
    by (rewrite Hkeys; apply firstOccurrences_NoDup).
  assert (Hget : forall m, In m result ->
             find (fun e => id e === id m) (rev entries ++ rev defaults) = Some m).
  { intros m Hm. unfold result, dict_values in Hm. apply in_map_iff in Hm.
    destruct Hm as [[k v] [Hv Hin]]. cbn [snd] in Hv. subst v.
    assert (Hk : k = id m).
    { unfold keyed in Hkeyed. rewrite Forall_forall in Hkeyed.
      symmetry. exact (Hkeyed _ Hin). }
    subst k. apply In_dict_get in Hin; [|exact Hnd].
    rewrite Hjoin, setAll_get, rev_app_distr in Hin. cbn [dict_get] in Hin.
    destruct (find (fun e => id e === id m) (rev entries ++ rev defaults));
      [exact Hin | discriminate]. }
  split; [rewrite Hresult; apply firstOccurrences_NoDup|].
  split; [exact Hresult|].
  split; [|split; [|split]].
  - intros m Hm Hnot. specialize (Hget m Hm). rewrite find_app_first in Hget.
    rewrite find_id_none in Hget by (rewrite ids_rev, Hids; exact Hnot).
    apply find_some in Hget. apply in_rev. tauto.
  - intros m Hm Hin. specialize (Hget m Hm). rewrite find_app_first in Hget.
    destruct (find_id_some (rev entries) (id m)) as [e [Hfind [He _]]];
      [rewrite ids_rev, Hids; exact Hin|].
    rewrite Hfind in Hget. injection Hget as ->.
    apply in_rev in He.
    clear -Hall He. induction Hall as [|model e latest entries Hme _ IH].
    + destruct He.
    + destruct He as [->|He].
      * exists model. split; [left; reflexivity | exact Hme].
      * destruct (IH He) as [source [Hs Hm]]. exists source. split; [right|]; auto.
  - intros pre m post -> Hnot.
    apply Forall2_app_inv_l in Hall.
    destruct Hall as [E1 [E2' [Hpre [Hrest ->]]]].
    inversion Hrest as [|? e ? E2 [now [Hnow ->]] Hpost]; subst.
    exists now. split; [exact Hnow|].
    assert (Hlook : dict_get (id m) (setAll (E1 ++ mergedEntry m now :: E2)
                                            (setAll defaults []))
                    = Some (mergedEntry m now)).
    { rewrite setAll_get, rev_app_distr. cbn [rev]. rewrite <- app_assoc.
      rewrite find_app_first, find_id_none.
      - cbn [app find mergedEntry id]. rewrite jsstring_eqb_refl. reflexivity.
      - rewrite ids_rev, (mergedFrom_ids _ _ _ Hpost). exact Hnot. }
    apply dict_get_In in Hlook. unfold result, dict_values.
    apply (in_map snd) in Hlook. exact Hlook.
  - intros m -> Hdistinct Hnew.
    inversion Hall as [|? e ? E2 [now [Hnow ->]] Hnil]; subst.
    inversion Hnil; subst.
    exists now. split; [exact Hnow|].
    unfold result.
    rewrite (setAll_fresh defaults []);
      [| exact Hdistinct | intros e _ []].
    cbn [app]. rewrite setAll_fresh.
    + unfold dict_values. rewrite map_app, map_map. cbn [map snd].
      rewrite map_id. reflexivity.
    + cbn [map]. constructor; [intros [] | constructor].
    + intros e [<-|[]]. unfold dict_keys. rewrite map_map. cbn [fst mergedEntry id].
      exact Hnew.
Qed.

(** C7: the registry never fails; when the fetch it awaits raises or
    gives an empty list, it returns the list that getDefaultModels
    produced, unchanged. *)
Theorem getAvailableModels_fallback
        (config : Config) (fetchLatest : Async (list ZAIModel)) (w : World) :
  let defaults := defaultModels config (clockReading w / 1000) in
  getDefaultModels config w = (Returned defaults, afterClock w)
  /\ (exists result w',
         getAvailableModelsWith config fetchLatest w = (Returned result, w'))
  /\ (forall e w1,
         fetchLatest (afterClock w) = (Threw e, w1) ->
         fst (getAvailableModelsWith config fetchLatest w) = Returned defaults)
  /\ (forall w1,
         fetchLatest (afterClock w) = (Returned [], w1) ->
         fst (getAvailableModelsWith config fetchLatest w) = Returned defaults)
  /\ (exists result w', getAvailableModels config w = (Returned result, w')).
Proof.
  intros defaults.
  assert (Htotal : forall fetch, exists result w',
               getAvailableModelsWith config fetch w = (Returned result, w')).
  { intros fetch. pose proof (getAvailableModelsWith_run config fetch w) as Hrun.
    cbv zeta in Hrun.
    destruct (fetch (afterClock w)) as [[[|model latest]|e] w1].
    - destruct Hrun as [w' H]. eauto.
    - destruct Hrun as [entries [w' [H _]]]. eauto.
    - destruct Hrun as [w' H]. eauto. }
  split; [apply getDefaultModels_run|].
  split; [apply Htotal|].
  split; [|split; [|apply Htotal]].
  - intros e w1 Hfetch.
    pose proof (getAvailableModelsWith_run config fetchLatest w) as Hrun.
    cbv zeta in Hrun. rewrite Hfetch in Hrun. destruct Hrun as [w' ->]. reflexivity.
  - intros w1 Hfetch.
    pose proof (getAvailableModelsWith_run config fetchLatest w) as Hrun.
    cbv zeta in Hrun. rewrite Hfetch in Hrun. destruct Hrun as [w' ->]. reflexivity.
Qed.

Lemma getAvailableModels_fallback_witness :
  fst (getAvailableModelsWith exampleConfig (throw TimeoutError) exampleWorld)
  = Returned (defaultModels exampleConfig (clockReading exampleWorld / 1000))
  /\ fst (getAvailableModelsWith exampleConfig (ret []) exampleWorld)
     = Returned (defaultModels exampleConfig (clockReading exampleWorld / 1000)).
Proof.
  destruct (getAvailableModels_fallback exampleConfig (throw TimeoutError) exampleWorld)
    as [_ [_ [Hthrow _]]].
  destruct (getAvailableModels_fallback exampleConfig (ret []) exampleWorld)
    as [_ [_ [_ [Hempty _]]]].
  split.
  - exact (Hthrow TimeoutError (afterClock exampleWorld) eq_refl).
  - exact (Hempty (afterClock exampleWorld) eq_refl).
Defined.

(** C4, as the code has it.  When the fetch gave a list that is not
    empty, the returned list has unique ids: the default ids without
    their repetitions, then the new fetched ids; a default entry whose id
    was not fetched is kept; every fetched model shows as its merged
    entry at its id (the last model of an id wins); and one fetched
    model of a new id gives one entry more than there are distinct
    default ids, the default list followed by the merged entry, of length
    len(defaults)+1, when the default ids are pairwise distinct.  When
    the fetch raised or gave the empty list, the result is the default
    list itself, with unique ids exactly when the configured ids are
    pairwise distinct.  In a merged entry "else" is the || of the code:
    an empty string and a zero count as absent. *)
Theorem getAvailableModels_merge
        (config : Config) (fetchLatest : Async (list ZAIModel)) (w : World) :
  let defaults := defaultModels config (clockReading w / 1000) in
  exists result w',
    getAvailableModelsWith config fetchLatest w = (Returned result, w')
    /\ (forall latest w1,
           fetchLatest (afterClock w) = (Returned latest, w1) -> latest <> [] ->
           NoDup (map id result)
           /\ map id result = firstOccurrences (map id defaults ++ map id latest)
           /\ (forall m, In m result -> ~ In (id m) (map id latest) -> In m defaults)
           /\ (forall pre m post,
                  latest = pre ++ m :: post -> ~ In (id m) (map id post) ->
                  exists now, isReading w1 now /\ In (mergedEntry m now) result)
           /\ (forall m,
                  latest = [m] -> ~ In (id m) (map id defaults) ->
                  length result = length (firstOccurrences (map id defaults)) + 1
                  /\ (exists now, isReading w1 now /\ In (mergedEntry m now) result)
                  /\ (NoDup (map id defaults) ->
                      length result = length defaults + 1
                      /\ exists now,
                          isReading w1 now /\ result = defaults ++ [mergedEntry m now])))
    /\ ((forall latest w1,
            fetchLatest (afterClock w) = (Returned latest, w1) -> latest = []) ->
        result = defaults
        /\ (NoDup (map id result) <-> NoDup (map id defaults)))
    /\ (forall m now,
           id (mergedEntry m now) = id m
           /\ name (mergedEntry m now)
              = Some (match name m with
                      | Some (c :: r) => c :: r
                      | _ => match ofInfo info_name m with
                             | Some (c :: r) => c :: r
                             | _ => id m
                             end
                      end)
           /\ created (mergedEntry m now)
              = Some (match created m with
                      | Some 0%Z | None =>
                        match ofInfo info_created_at m with
                        | Some 0%Z | None => (now / 1000)%Z
                        | Some t => t
                        end
                      | Some t => t
                      end)
           /\ owned_by (mergedEntry m now)
              = Some (match owned_by m with
                      | Some (c :: r) => c :: r
                      | _ => match ofInfo info_user_id m with
                             | Some (c :: r) => c :: r
                             | _ => js "z.ai"
                             end
                      end)).
Proof.
  intros defaults.
  pose proof (getAvailableModelsWith_run config fetchLatest w) as Hrun.
  cbv zeta in Hrun. fold defaults in Hrun.
  assert (Hfields : forall m now,
             id (mergedEntry m now) = id m
             /\ name (mergedEntry m now)
                = Some (match name m with
                        | Some (c :: r) => c :: r
                        | _ => match ofInfo info_name m with
                               | Some (c :: r) => c :: r
                               | _ => id m
                               end
                        end)
             /\ created (mergedEntry m now)
                = Some (match created m with
                        | Some 0%Z | None =>
                          match ofInfo info_created_at m with
                          | Some 0%Z | None => (now / 1000)%Z
                          | Some t => t
                          end
                        | Some t => t
                        end)
             /\ owned_by (mergedEntry m now)
                = Some (match owned_by m with
                        | Some (c :: r) => c :: r
                        | _ => match ofInfo info_user_id m with
                               | Some (c :: r) => c :: r
                               | _ => js "z.ai"
                               end
                        end)).
  { intros m now. unfold mergedEntry. cbn [id name created owned_by].
    split; [reflexivity|].
    split; [destruct (name m) as [[|c r]|], (ofInfo info_name m) as [[|c' r']|];
            reflexivity|].
    split; [destruct (created m) as [[|t|t]|], (ofInfo info_created_at m) as [[|t'|t']|];
            reflexivity|].
    destruct (owned_by m) as [[|c r]|], (ofInfo info_user_id m) as [[|c' r']|];
      reflexivity. }
  destruct (fetchLatest (afterClock w)) as [[[|model latest]|e] w1] eqn:Hfetch.
  - destruct Hrun as [w' Hrun]. exists defaults, w'.
    split; [exact Hrun|].
    split; [intros latest w2 [= <- _] Hne; congruence|].
    split; [intros _; split; [reflexivity | tauto] | exact Hfields].
  - destruct Hrun as [entries [w' [Hrun Hall]]].
    destruct (merged_values w1 defaults (model :: latest) entries Hall)
      as [Hnd [Hids [Hkept [_ [Hmerged Hone]]]]].
    eexists _, w'. split; [exact Hrun|].
    split; [| split; [intros Hempty; specialize (Hempty _ _ eq_refl); discriminate Hempty
                     | exact Hfields]].
    intros latest' w2 [= <- <-] _.
    split; [exact Hnd|]. split; [exact Hids|]. split; [exact Hkept|].
    split; [exact Hmerged|].
    intros m Hm Hnew.
    split; [| split].
    + rewrite <- (length_map id), Hids, Hm. cbn [map].
      rewrite firstOccurrences_snoc.
      destruct (in_dec (list_eq_dec N.eq_dec) (id m) (map id defaults)) as [Hin|_];
        [contradiction|].
      apply length_app.
    + apply (Hmerged [] m []); [exact Hm | intros []].
    + intros Hdistinct.
      destruct (Hone m Hm Hdistinct Hnew) as [now [Hnow Hres]].
      split; [rewrite Hres, length_app; reflexivity|].
      exists now. auto.
  - destruct Hrun as [w' Hrun]. exists defaults, w'.
    split; [exact Hrun|].
    split; [intros latest w2 [=]|].
    split; [intros _; split; [reflexivity | tauto] | exact Hfields].
Qed.

Lemma exampleConfig_distinct (t : Z) : NoDup (map id (defaultModels exampleConfig t)).
Proof.
  assert (H : map id (defaultModels exampleConfig t)
              = firstOccurrences (map id (defaultModels exampleConfig t)))
    by (vm_compute; reflexivity).
  rewrite H. apply firstOccurrences_NoDup.
Qed.

(** The example of the specification: one fetched model, of id "X" and
    name "Foo", beside the seven default models. *)
Lemma getAvailableModels_merge_witness :
  exists result w',
    getAvailableModelsWith exampleConfig (ret [fetchedModel "X" "Foo"]) exampleWorld
    = (Returned result, w')
    /\ NoDup (map id result)
    /\ length result = 8
    /\ exists now, In (mergedEntry (fetchedModel "X" "Foo") now) result.
Proof.
  destruct (getAvailableModels_merge exampleConfig (ret [fetchedModel "X" "Foo"])
                                     exampleWorld)
    as [result [w' [Hrun [Hmerge _]]]].
  destruct (Hmerge [fetchedModel "X" "Foo"] (afterClock exampleWorld) eq_refl
                   ltac:(discriminate))
    as [Hnd [_ [_ [_ Hone]]]].
  destruct (Hone (fetchedModel "X" "Foo") eq_refl
                 ltac:(vm_compute; intuition discriminate))
    as [_ [[now [_ Hin]] Hdistinct]].
  destruct (Hdistinct (exampleConfig_distinct _)) as [Hlen _].
  exists result, w'. split; [exact Hrun|]. split; [exact Hnd|].
  split; [exact Hlen | exists now; exact Hin].
Defined.

(** The claim as worded fails when two configured default ids are the
    same: on the fallback path the returned list is the default list,
    with the id twice; and one fetched model of a new id then gives 7
    entries, not len(defaults)+1 = 8. *)
Lemma getAvailableModels_duplicate_default_ids :
  (exists result,
      fst (getAvailableModelsWith duplicateConfig (throw TimeoutError) exampleWorld)
      = Returned result
      /\ ~ NoDup (map id result))
  /\ (exists result,
         fst (getAvailableModelsWith duplicateConfig (ret [fetchedModel "X" "Foo"])
                                     exampleWorld)
         = Returned result
         /\ ~ In (js "X")
                 (map id (defaultModels duplicateConfig (clockReading exampleWorld / 1000)))
         /\ length (defaultModels duplicateConfig (clockReading exampleWorld / 1000)) = 7
         /\ length result = 7).
Proof.
  split.
  - eexists. split; [vm_compute; reflexivity|].
    intros Hnd. apply firstOccurrences_fixed in Hnd. vm_compute in Hnd. discriminate Hnd.
  - eexists. split; [vm_compute; reflexivity|].
    split; [vm_compute; intuition discriminate|]. split; reflexivity.
Qed.

(** C9: an entry of the result whose id was fetched is the merged entry
    of a fetched model: it has an id, a name, a created time and an
    owner, and nothing else; the display name, the info object and any
    other field of the fetched model are dropped. *)
Theorem overlay_keeps_four_fields
        (config : Config) (fetchLatest : Async (list ZAIModel)) (w : World)
        (latest : list ZAIModel) (w1 : World) :
  fetchLatest (afterClock w) = (Returned latest, w1) ->
  latest <> [] ->
  exists result w',
    getAvailableModelsWith config fetchLatest w = (Returned result, w')
    /\ forall m,
        In m result -> In (id m) (map id latest) ->
        (exists source now, In source latest /\ m = mergedEntry source now)
        /\ display_name m = None /\ info m = None /\ rest m = []
        /\ name m <> None /\ created m <> None /\ owned_by m <> None.
Proof.
  intros Hfetch Hne.
  pose proof (getAvailableModelsWith_run config fetchLatest w) as Hrun.
  cbv zeta in Hrun. rewrite Hfetch in Hrun.
  destruct latest as [|model latest]; [congruence|].
  destruct Hrun as [entries [w' [Hrun Hall]]].
  destruct (merged_values w1 (defaultModels config (clockReading w / 1000))
                          (model :: latest) entries Hall)
    as [_ [_ [_ [Hfrom _]]]].
  eexists _, w'. split; [exact Hrun|].
  intros m Hm Hin. destruct (Hfrom m Hm Hin) as [source [Hsource [now [_ ->]]]].
  split; [exists source, now; auto|].
  cbn [mergedEntry display_name info rest name created owned_by].
  repeat split; discriminate.
Qed.

Lemma overlay_keeps_four_fields_witness :
  exists result w',
    getAvailableModelsWith exampleConfig (ret [richModel]) exampleWorld
    = (Returned result, w')
    /\ forall m,
        In m result -> In (id m) (map id [richModel]) ->
        display_name m = None /\ info m = None /\ rest m = [].
Proof.
  destruct (overlay_keeps_four_fields exampleConfig (ret [richModel]) exampleWorld
                                      [richModel] (afterClock exampleWorld) eq_refl
                                      ltac:(discriminate))
    as [result [w' [Hrun Hfields]]].
  exists result, w'. split; [exact Hrun|].
  intros m Hm Hin. destruct (Hfields m Hm Hin) as [_ [H1 [H2 [H3 _]]]]. auto.
Defined.

(** ** Thinking content *)

(** *** Trimming *)

Lemma trimStart_head (s : jsstring) (c : CodeUnit) :
  hd_error (trimStart s) = Some c -> isSpace c = false.
Proof.
  induction s as [|x s IH]; cbn [trimStart]; [discriminate|].
  destruct (isSpace x) eqn:E; [exact IH|].
  cbn. intros [= <-]. exact E.
Qed.

Lemma trimStart_suffix (s : jsstring) :
  exists spaces, s = spaces ++ trimStart s /\ forallb isSpace spaces = true.
Proof.
  induction s as [|x s [spaces [IH Hsp]]]; cbn [trimStart].
  - exists []. split; reflexivity.
  - destruct (isSpace x) eqn:E.
    + exists (x :: spaces). cbn. rewrite E, Hsp. split; [f_equal; exact IH | reflexivity].
    + exists []. split; reflexivity.
Qed.

Lemma trimEnd_prefix (s : jsstring) :
  exists spaces, s = trimEnd s ++ spaces /\ forallb isSpace spaces = true.
Proof.
  unfold trimEnd. destruct (trimStart_suffix (rev s)) as [spaces [H Hsp]].
  exists (rev spaces). split.
  - rewrite <- rev_app_distr, <- H, rev_involutive. reflexivity.
  - rewrite forallb_forall in *. intros x Hx. apply Hsp. apply in_rev. exact Hx.
Qed.

Lemma trim_trimmed (s : jsstring) : trimmed (trim s).
Proof.
  unfold trim. split.
  - intros c Hc. destruct (trimEnd_prefix (trimStart s)) as [spaces [H _]].
    destruct (trimEnd (trimStart s)) as [|x r]; [discriminate|].
    cbn in Hc. injection Hc as ->.
    apply (trimStart_head s). rewrite H. reflexivity.
  - intros c Hc. unfold trimEnd in Hc. rewrite rev_involutive in Hc.
    exact (trimStart_head _ _ Hc).
Qed.

Lemma trimStart_subseq (s : jsstring) : subseq (trimStart s) s.
Proof.
  induction s as [|x s IH]; cbn [trimStart]; [constructor|].
  destruct (isSpace x); [constructor; exact IH|].
  clear IH. induction (x :: s); constructor; assumption.
Qed.

(** *** Deleting code units *)

Lemma subseq_refl (x : jsstring) : subseq x x.
Proof. induction x; constructor; assumption. Qed.

Lemma subseq_nil_l (x : jsstring) : subseq [] x.
Proof. induction x; constructor; assumption. Qed.

Lemma subseq_trans (x y z : jsstring) : subseq x y -> subseq y z -> subseq x z.
Proof.
  intros Hxy Hyz. revert x Hxy.
  induction Hyz as [|c y z Hyz IH|c y z Hyz IH]; intros x Hxy.
  - exact Hxy.
  - inversion Hxy; subst; constructor; auto.
  - constructor. auto.
Qed.

Lemma subseq_app (x1 y1 x2 y2 : jsstring) :
  subseq x1 y1 -> subseq x2 y2 -> subseq (x1 ++ x2) (y1 ++ y2).
Proof.
  intros H1 H2. induction H1; cbn [app]; try constructor; assumption.
Qed.

Lemma subseq_skipn (k : nat) (x : jsstring) : subseq (skipn k x) x.
Proof.
  revert k. induction x as [|c x IH]; intros [|k]; cbn [skipn];
    try apply subseq_refl. constructor. apply IH.
Qed.

(** What is left of a concatenation is a concatenation of what is left
    of its two parts. *)
Lemma subseq_app_split (x a b : jsstring) :
  subseq x (a ++ b) -> exists x1 x2, x = x1 ++ x2 /\ subseq x1 a /\ subseq x2 b.
Proof.
  revert x. induction a as [|c a IH]; intros x H; cbn [app] in H.
  - exists [], x. repeat split; [constructor | exact H].
  - inversion H as [|? x' ? H'|? ? ? H']; subst.
    + destruct (IH _ H') as [x1 [x2 [-> [H1 H2]]]].
      exists (c :: x1), x2. repeat split; [constructor; exact H1 | exact H2].
    + destruct (IH _ H') as [x1 [x2 [-> [H1 H2]]]].
      exists x1, x2. repeat split; [constructor; exact H1 | exact H2].
Qed.

(** *** Prefixes and first occurrences *)

Lemma startsWith_app (p s : jsstring) : startsWith p (p ++ s) = true.
Proof.
  induction p as [|c p IH]; cbn [app startsWith]; [reflexivity|].
  rewrite N.eqb_refl. exact IH.
Qed.

Lemma startsWith_split (p s : jsstring) :
  startsWith p s = true -> exists r, s = p ++ r.
Proof.
  revert s. induction p as [|c p IH]; intros s H.
  - exists s. reflexivity.
  - destruct s as [|x s]; cbn [startsWith] in H; [discriminate|].
    apply andb_true_iff in H. destruct H as [Hc Hp]. apply N.eqb_eq in Hc. subst x.
    destruct (IH s Hp) as [r ->]. exists r. reflexivity.
Qed.

Lemma startsWith_head (c x : CodeUnit) (p s : jsstring) :
  x <> c -> startsWith (c :: p) (x :: s) = false.
Proof.
  intros H. cbn [startsWith]. replace (c =? x)%N with false; [reflexivity|].
  symmetry. apply N.eqb_neq. congruence.
Qed.

Lemma absent_cons (c x : CodeUnit) (l : jsstring) :
  absent c (x :: l) = true -> x <> c /\ absent c l = true.
Proof.
  unfold absent. cbn [forallb]. intros H. apply andb_true_iff in H.
  destruct H as [H1 H2]. apply negb_true_iff, N.eqb_neq in H1. auto.
Qed.

Lemma absent_app (c : CodeUnit) (l1 l2 : jsstring) :
  absent c (l1 ++ l2) = absent c l1 && absent c l2.
Proof. unfold absent. apply forallb_app. Qed.

(** A text that opens with [c] and holds no other [c] cannot begin
    before an occurrence of [c] and run over it. *)
Lemma no_straddle (c : CodeUnit) (p a t r : jsstring) :
  absent c p = true -> a <> [] ->
  startsWith (c :: p) (a ++ c :: t ++ r) = true -> length (c :: p) <= length a.
Proof.
  intros Hp Ha H. apply startsWith_split in H. destruct H as [r' H].
  destruct a as [|x a]; [congruence|]. clear Ha.
  cbn [app] in H. injection H as -> H. cbn [length]. apply le_n_S.
  revert p Hp H. induction a as [|y a IH]; intros p Hp H; cbn [app] in H.
  - destruct p as [|z p]; [cbn; lia|].
    injection H as -> _. apply absent_cons in Hp. tauto.
  - destruct p as [|z p]; [cbn; lia|].
    injection H as -> H. apply absent_cons in Hp. cbn [length]. apply le_n_S.
    apply IH; tauto.
Qed.

Lemma indexOf_absent_head (c : CodeUnit) (p t r : jsstring) :
  absent c t = true ->
  indexOf (c :: p) (t ++ r) = option_map (fun i => length t + i) (indexOf (c :: p) r).
Proof.
  induction t as [|x t IH]; intros Ht.
  - cbn [app length]. destruct (indexOf (c :: p) r); reflexivity.
  - apply absent_cons in Ht. destruct Ht as [Hx Ht].
    cbn [app indexOf]. rewrite startsWith_head by exact Hx.
    rewrite IH by exact Ht. destruct (indexOf (c :: p) r); reflexivity.
Qed.

Lemma startsWith_long (p s r : jsstring) :
  length p <= length s -> startsWith p (s ++ r) = startsWith p s.
Proof.
  revert s. induction p as [|c p IH]; intros s H; [reflexivity|].
  destruct s as [|x s]; cbn [length] in H; [lia|].
  cbn [app startsWith]. rewrite IH by lia. reflexivity.
Qed.

Lemma indexOf_fits (p s : jsstring) (i : nat) :
  indexOf p s = Some i -> i + length p <= length s.
Proof.
  revert i. induction s as [|x s IH]; intros i H.
  - cbn [indexOf] in H. destruct (startsWith p []) eqn:E; [|discriminate].
    injection H as <-. destruct p; [cbn; lia | discriminate].
  - cbn [indexOf] in H. destruct (startsWith p (x :: s)) eqn:E.
    + injection H as <-. apply startsWith_split in E. destruct E as [r E].
      rewrite E, length_app. lia.
    + destruct (indexOf p s) as [j|]; [|discriminate].
      injection H as <-. specialize (IH j eq_refl). cbn [length]. lia.
Qed.

(** A first occurrence stays the first one when text is appended. *)
Lemma indexOf_app (p s r : jsstring) (i : nat) :
  indexOf p s = Some i -> indexOf p (s ++ r) = Some i.
Proof.
  revert i. induction s as [|x s IH]; intros i H.
  - cbn [indexOf] in H. destruct (startsWith p []) eqn:E; [|discriminate].
    injection H as <-. destruct p; [|discriminate].
    destruct r; reflexivity.
  - cbn [indexOf app] in *. destruct (startsWith p (x :: s)) eqn:E.
    + injection H as <-. apply startsWith_split in E. destruct E as [r' E].
      change (x :: s ++ r) with ((x :: s) ++ r). rewrite E, <- app_assoc.
      rewrite startsWith_app. reflexivity.
    + destruct (indexOf p s) as [j|] eqn:Hj; [|discriminate].
      injection H as <-. pose proof (indexOf_fits _ _ _ Hj) as Hfit.
      change (x :: s ++ r) with ((x :: s) ++ r).
      rewrite startsWith_long by (cbn [length]; lia).
      rewrite E, (IH j eq_refl). reflexivity.
Qed.

(** Where the first occurrence of [close] is, in a text that has an
    island [t] after [a]: before the island, or not before [limit]. *)
Lemma indexOf_island (close a t r : jsstring) (limit : nat -> Prop) :
  (forall a', a' <> [] -> startsWith close (a' ++ t ++ r) = true ->
              length close <= length a') ->
  (forall i, indexOf close (t ++ r) = Some i -> limit (i + length close)) ->
  forall i,
    indexOf close (a ++ t ++ r) = Some i ->
    i + length close <= length a
    \/ exists n, limit n /\ i + length close = length a + n.
Proof.
  intros Hstraddle Hisland. induction a as [|x a IH]; intros i H.
  - right. exists (i + length close). split; [apply Hisland; exact H | reflexivity].
  - cbn [app indexOf] in H.
    destruct (startsWith close (x :: a ++ t ++ r)) eqn:E.
    + injection H as <-. left. apply (Hstraddle (x :: a)); [discriminate | exact E].
    + destruct (indexOf close (a ++ t ++ r)) as [j|]; [|discriminate].
      injection H as <-. destruct (IH j eq_refl) as [Hin|[n [Hn Heq]]].
      * left. cbn [length]. lia.
      * right. exists n. split; [exact Hn|]. cbn [length]. lia.
Qed.

(** *** The scan of [replace] *)

Lemma replace_go_prev (p : Pattern) (by_ : jsstring) :
  prevIndependent p ->
  forall s skip prev prev',
    replace_go p by_ skip prev s = replace_go p by_ skip prev' s.
Proof.
  intros Hp. induction s as [|c r IH]; intros skip prev prev'; [reflexivity|].
  cbn [replace_go]. destruct skip as [|k].
  - rewrite (Hp prev prev'). reflexivity.
  - reflexivity.
Qed.

Lemma replace_go_skipn (p : Pattern) (by_ : jsstring) :
  prevIndependent p ->
  forall s skip prev, replace_go p by_ skip prev s = replace p by_ (skipn skip s).
Proof.
  intros Hp. induction s as [|c r IH]; intros skip prev.
  - destruct skip; reflexivity.
  - destruct skip as [|k].
    + apply replace_go_prev. exact Hp.
    + cbn [replace_go skipn]. apply IH.
Qed.

(** The scan, one position at a time: a match is replaced and passed
    over, a position without a match keeps its code unit. *)
Lemma replace_cons (p : Pattern) (by_ : jsstring) (c : CodeUnit) (r : jsstring) :
  prevIndependent p ->
  replace p by_ (c :: r)
  = match p None (c :: r) with
    | Some (S k) => by_ ++ replace p by_ (skipn k r)
    | _ => c :: replace p by_ r
    end.
Proof.
  intros Hp. unfold replace at 1. cbn [replace_go].
  destruct (p None (c :: r)) as [[|k]|].
  - f_equal. apply replace_go_prev. exact Hp.
  - f_equal. apply replace_go_skipn. exact Hp.
  - f_equal. apply replace_go_prev. exact Hp.
Qed.

Lemma replace_subseq (p : Pattern) (s : jsstring) :
  prevIndependent p -> subseq (replace p [] s) s.
Proof.
  intros Hp. remember (length s) as n eqn:Hn. revert s Hn.
  induction n as [n IH] using lt_wf_ind. intros s Hn.
  destruct s as [|c r]; [constructor|].
  rewrite replace_cons by exact Hp.
  destruct (p None (c :: r)) as [[|k]|].
  - constructor. apply (IH (length r)); [subst; cbn; lia | reflexivity].
  - cbn [app]. constructor.
    eapply subseq_trans; [|apply (subseq_skipn k)].
    apply (IH (length (skipn k r))); [|reflexivity].
    subst. rewrite length_skipn. cbn [length]. lia.
  - constructor. apply (IH (length r)); [subst; cbn; lia | reflexivity].
Qed.

Section Island.

Variables (p : Pattern) (by_ t b : jsstring) (exact : nat -> Prop).

Hypothesis p_prev : prevIndependent p.

(** A match that begins before the island ends before it, or runs
    over the whole of it and [k] code units more, [exact k] holding. *)
Hypothesis before :
  forall a n,
    a <> [] -> p None (a ++ t ++ b) = Some n ->
    n <= length a \/ exists k, exact k /\ n = length a + length t + k.

(** The scan reaches the island at a fresh position, or a match that
    began before it passes over it. *)
Lemma scan_to_island (a : jsstring) :
  exists out,
    (by_ = [] -> subseq out a)
    /\ (replace p by_ (a ++ t ++ b) = out ++ replace p by_ (t ++ b)
        \/ exists k,
            exact k
            /\ replace p by_ (a ++ t ++ b) = out ++ by_ ++ replace p by_ (skipn k b)).
Proof.
  remember (length a) as n eqn:Hn. revert a Hn.
  induction n as [n IH] using lt_wf_ind. intros a Hn.
  destruct a as [|c a].
  - exists []. split; [constructor|]. left. reflexivity.
  - cbn [app]. rewrite replace_cons by exact p_prev.
    destruct (p None (c :: a ++ t ++ b)) as [[|m]|] eqn:Hm.
    + destruct (IH (length a) ltac:(subst; cbn; lia) a eq_refl)
        as [out [Hsub [Hfresh|[k [Hk Hover]]]]].
      * exists (c :: out). split; [intros E; constructor; auto|].
        left. rewrite Hfresh. reflexivity.
      * exists (c :: out). split; [intros E; constructor; auto|].
        right. exists k. split; [exact Hk|]. rewrite Hover. reflexivity.
    + destruct (before (c :: a) (S m) ltac:(discriminate) Hm) as [Hin|[k [Hk Heq]]].
      * cbn [length] in Hin.
        assert (Hskip : skipn m (a ++ t ++ b) = skipn m a ++ t ++ b)
          by (rewrite skipn_app; replace (m - length a) with 0 by lia;
              reflexivity).
        rewrite Hskip.
        destruct (IH (length (skipn m a))
                     ltac:(subst; rewrite length_skipn; cbn [length]; lia)
                     (skipn m a) eq_refl)
          as [out [Hsub [Hfresh|[k [Hk Hover]]]]].
        -- exists (by_ ++ out). split.
           ++ intros E. rewrite E. cbn [app]. constructor.
              eapply subseq_trans; [apply Hsub; exact E | apply subseq_skipn].
           ++ left. rewrite Hfresh, app_assoc. reflexivity.
        -- exists (by_ ++ out). split.
           ++ intros E. rewrite E. cbn [app]. constructor.
              eapply subseq_trans; [apply Hsub; exact E | apply subseq_skipn].
           ++ right. exists k. split; [exact Hk|]. rewrite Hover, app_assoc.
              reflexivity.
      * exists []. split; [intros _; apply subseq_nil_l|].
        right. exists k. split; [exact Hk|]. cbn [app length] in *.
        assert (Hskip : skipn m (a ++ t ++ b) = skipn k b).
        { rewrite app_assoc, skipn_app, length_app.
          replace (m - (length a + length t)) with k by lia.
          rewrite skipn_all2 by (rewrite length_app; lia). reflexivity. }
        rewrite Hskip. reflexivity.
    + destruct (IH (length a) ltac:(subst; cbn; lia) a eq_refl)
        as [out [Hsub [Hfresh|[k [Hk Hover]]]]].
      * exists (c :: out). split; [intros E; constructor; auto|].
        left. rewrite Hfresh. reflexivity.
      * exists (c :: out). split; [intros E; constructor; auto|].
        right. exists k. split; [exact Hk|]. rewrite Hover. reflexivity.
Qed.

(** At the island: the pattern matches it whole. *)
Lemma island_matched :
  t <> [] -> p None (t ++ b) = Some (length t) ->
  replace p by_ (t ++ b) = by_ ++ replace p by_ b.
Proof.
  clear before. intros Ht Hm. destruct t as [|c t']; [congruence|].
  cbn [app] in *. rewrite replace_cons by exact p_prev. rewrite Hm.
  cbn [length]. rewrite skipn_app, Nat.sub_diag, skipn_all. reflexivity.
Qed.

(** At the island: the pattern matches at none of its positions. *)
Lemma island_kept :
  (forall t1 c t2, t = t1 ++ c :: t2 -> p None (c :: t2 ++ b) = None) ->
  replace p by_ (t ++ b) = t ++ replace p by_ b.
Proof.
  clear before. intros Hnone.
  assert (H : forall t1 t2, t = t1 ++ t2 ->
                            replace p by_ (t2 ++ b) = t2 ++ replace p by_ b).
  { intros t1 t2. revert t1. induction t2 as [|c t2 IH]; intros t1 E.
    - reflexivity.
    - cbn [app]. rewrite replace_cons by exact p_prev.
      rewrite (Hnone t1 c t2 E). f_equal.
      apply (IH (t1 ++ [c])). rewrite <- app_assoc. exact E. }
  exact (H [] t eq_refl).
Qed.

End Island.

(** *** The patterns of [transformThinkingContent] *)

Lemma prevIndependent_literal (l : jsstring) : prevIndependent (literal l).
Proof. intros prev prev' s. reflexivity. Qed.

Lemma prevIndependent_upToFirst (open close : jsstring) :
  prevIndependent (upToFirst open close).
Proof. intros prev prev' s. reflexivity. Qed.

(** A literal that opens with [c] and holds no other [c], before an
    island that opens with [c]: its matches end before the island. *)
Lemma literal_before (c : CodeUnit) (l t b : jsstring) :
  absent c l = true ->
  forall a n,
    a <> [] -> literal (c :: l) None (a ++ (c :: t) ++ b) = Some n ->
    n <= length a \/ exists k : nat, False /\ n = length a + length (c :: t) + k.
Proof.
  intros Hl a n Ha H. unfold literal in H.
  destruct (startsWith (c :: l) (a ++ (c :: t) ++ b)) eqn:E; [|discriminate].
  injection H as <-. left. exact (no_straddle c l a t b Hl Ha E).
Qed.

(** The same for a pattern [open X* close] whose opening text opens with
    [c] and holds no other [c]: a match that begins before the island
    ends before it or where the first [close] from the island on ends. *)
Lemma upToFirst_before (c : CodeUnit) (o close t b : jsstring) (exact : nat -> Prop) :
  absent c o = true ->
  (forall a', a' <> [] -> startsWith close (a' ++ (c :: t) ++ b) = true ->
              length close <= length a') ->
  (forall i, indexOf close ((c :: t) ++ b) = Some i ->
             exists k, exact k /\ i + length close = length (c :: t) + k) ->
  forall a n,
    a <> [] -> upToFirst (c :: o) close None (a ++ (c :: t) ++ b) = Some n ->
    n <= length a \/ exists k, exact k /\ n = length a + length (c :: t) + k.
Proof.
  intros Ho Hstraddle Hisland a n Ha H. unfold upToFirst in H.
  destruct (startsWith (c :: o) (a ++ (c :: t) ++ b)) eqn:E; [|discriminate].
  pose proof (no_straddle c o a t b Ho Ha E) as Hopen.
  assert (Hskip : skipn (length (c :: o)) (a ++ (c :: t) ++ b)
                  = skipn (length (c :: o)) a ++ (c :: t) ++ b)
    by (rewrite skipn_app;
        replace (length (c :: o) - length a) with 0 by lia; reflexivity).
  rewrite Hskip in H.
  destruct (indexOf close (skipn (length (c :: o)) a ++ (c :: t) ++ b)) as [i|] eqn:Hi;
    [|discriminate].
  injection H as <-.
  destruct (indexOf_island close (skipn (length (c :: o)) a) (c :: t) b
              (fun n => exists k, exact k /\ n = length (c :: t) + k)
              Hstraddle Hisland i Hi) as [Hin|[n [[k [Hk ->]] Heq]]].
  - left. rewrite length_skipn in Hin. cbn [length] in *. lia.
  - right. exists k. split; [exact Hk|]. rewrite length_skipn in Heq.
    cbn [length] in *. lia.
Qed.

Lemma indexOf_single (c : CodeUnit) (t r : jsstring) :
  absent c t = true -> indexOf [c] (t ++ c :: r) = Some (length t).
Proof.
  induction t as [|x t IH]; intros Ht.
  - cbn [app indexOf startsWith]. rewrite N.eqb_refl. reflexivity.
  - apply absent_cons in Ht. destruct Ht as [Hx Ht].
    cbn [app indexOf]. rewrite startsWith_head by exact Hx.
    rewrite IH by exact Ht. reflexivity.
Qed.

(** No position of an island that opens with [c] and holds no other [c]
    begins a text that opens with [c], but perhaps its first one. *)
Lemma inside_island (c : CodeUnit) (l t : jsstring) (x : CodeUnit) (t1 t2 : jsstring) :
  absent c t = true -> c :: t = t1 ++ x :: t2 -> t1 <> [] ->
  forall r, startsWith (c :: l) (x :: r) = false.
Proof.
  intros Ht E Hne r. apply startsWith_head.
  destruct t1 as [|y t1]; [congruence|]. injection E as _ E.
  intros ->. rewrite E, absent_app in Ht. apply andb_true_iff in Ht.
  destruct Ht as [_ Ht]. apply absent_cons in Ht. tauto.
Qed.

Lemma deletes_then_shrinks (f g : jsstring -> jsstring) (t : jsstring) :
  deletes f t -> shrinks g -> deletes (fun s => g (f s)) t.
Proof.
  intros Hf Hg a b. destruct (Hf a b) as [a' [b' [Ha [Hb E]]]].
  cbn beta. rewrite E.
  destruct (subseq_app_split _ _ _ (Hg (a' ++ b'))) as [x1 [x2 [-> [H1 H2]]]].
  exists x1, x2. repeat split; eauto using subseq_trans.
Qed.

Lemma keeps_then_deletes (f g : jsstring -> jsstring) (t : jsstring) :
  keepsOrDeletes f t -> deletes g t -> shrinks g -> deletes (fun s => g (f s)) t.
Proof.
  intros Hf Hg Hs a b. destruct (Hf a b) as [a' [b' [Ha [Hb [E|E]]]]]; cbn beta; rewrite E.
  - destruct (Hg a' b') as [a'' [b'' [Ha' [Hb' E']]]].
    exists a'', b''. repeat split; eauto using subseq_trans.
  - destruct (subseq_app_split _ _ _ (Hs (a' ++ b'))) as [x1 [x2 [-> [H1 H2]]]].
    exists x1, x2. repeat split; eauto using subseq_trans.
Qed.

Lemma keeps_then_keeps (f g : jsstring -> jsstring) (t : jsstring) :
  keepsOrDeletes f t -> keepsOrDeletes g t -> shrinks g ->
  keepsOrDeletes (fun s => g (f s)) t.
Proof.
  intros Hf Hg Hs a b. destruct (Hf a b) as [a' [b' [Ha [Hb [E|E]]]]]; cbn beta; rewrite E.
  - destruct (Hg a' b') as [a'' [b'' [Ha' [Hb' E']]]].
    exists a'', b''. repeat split; eauto using subseq_trans.
  - destruct (subseq_app_split _ _ _ (Hs (a' ++ b'))) as [x1 [x2 [-> [H1 H2]]]].
    exists x1, x2. repeat split; eauto using subseq_trans.
Qed.

(** A literal pass replaces every occurrence of its literal. *)
Lemma literal_pass_replaces (c : CodeUnit) (l by_ : jsstring) (a b : jsstring) :
  absent c l = true ->
  exists a',
    (by_ = [] -> subseq a' a)
    /\ replace (literal (c :: l)) by_ (a ++ (c :: l) ++ b)
       = a' ++ by_ ++ replace (literal (c :: l)) by_ b.
Proof.
  intros Hl.
  destruct (scan_to_island (literal (c :: l)) by_ (c :: l) b (fun _ => False)
                           (prevIndependent_literal _)
                           (literal_before c l l b Hl) a)
    as [out [Hsub [Hfresh|[k [[] _]]]]].
  exists out. split; [exact Hsub|]. rewrite Hfresh. f_equal.
  apply island_matched; [apply prevIndependent_literal | discriminate|].
  unfold literal. rewrite startsWith_app. reflexivity.
Qed.

Lemma literal_pass_deletes (c : CodeUnit) (l : jsstring) :
  absent c l = true -> deletes (replace (literal (c :: l)) []) (c :: l).
Proof.
  intros Hl a b. destruct (literal_pass_replaces c l [] a b Hl) as [a' [Hsub E]].
  exists a', (replace (literal (c :: l)) [] b).
  split; [auto|]. split; [apply replace_subseq, prevIndependent_literal | exact E].
Qed.

(** A literal pass keeps every occurrence of another tag. *)
Lemma literal_pass_keeps (c : CodeUnit) (l t : jsstring) :
  absent c l = true -> absent c t = true ->
  (forall r, startsWith (c :: l) ((c :: t) ++ r) = false) ->
  keepsOrDeletes (replace (literal (c :: l)) []) (c :: t).
Proof.
  intros Hl Ht Hdiff a b.
  destruct (scan_to_island (literal (c :: l)) [] (c :: t) b (fun _ => False)
                           (prevIndependent_literal _)
                           (literal_before c l t b Hl) a)
    as [out [Hsub [Hfresh|[k [[] _]]]]].
  exists out, (replace (literal (c :: l)) [] b).
  split; [auto|]. split; [apply replace_subseq, prevIndependent_literal|].
  left. rewrite Hfresh. f_equal.
  apply island_kept; [apply prevIndependent_literal|].
  intros t1 x t2 E. unfold literal.
  destruct t1 as [|y t1].
  - cbn [app] in E. injection E as <- <-. change (c :: t ++ b) with ((c :: t) ++ b).
    rewrite Hdiff. reflexivity.
  - rewrite (inside_island c l t x (y :: t1) t2 Ht E ltac:(discriminate)).
    reflexivity.
Qed.

(** A pass [open X* close], both texts opening with [c] and holding no
    other [c], keeps or deletes every occurrence of another tag. *)
Lemma upToFirst_pass_keeps (c : CodeUnit) (o cl t : jsstring) :
  absent c o = true -> absent c cl = true -> absent c t = true ->
  (forall r, startsWith (c :: o) ((c :: t) ++ r) = false) ->
  (forall r, startsWith (c :: cl) ((c :: t) ++ r) = false) ->
  keepsOrDeletes (replace (upToFirst (c :: o) (c :: cl)) []) (c :: t).
Proof.
  intros Ho Hcl Ht Hopen Hclose a b.
  destruct (scan_to_island (upToFirst (c :: o) (c :: cl)) [] (c :: t) b (fun _ => True)
                           (prevIndependent_upToFirst _ _)) with (a := a)
    as [out [Hsub [Hfresh|[k [_ Hover]]]]].
  - apply (upToFirst_before c o (c :: cl) t b (fun _ => True) Ho).
    + intros a' Ha' E. exact (no_straddle c cl a' t b Hcl Ha' E).
    + intros i Hi. cbn [app indexOf] in Hi.
      change (c :: t ++ b) with ((c :: t) ++ b) in Hi. rewrite Hclose in Hi.
      rewrite indexOf_absent_head in Hi by exact Ht.
      destruct (indexOf (c :: cl) b) as [j|]; [|discriminate].
      cbn [option_map] in Hi. injection Hi as <-.
      exists (j + length (c :: cl)). split; [exact I|]. cbn [length]. lia.
  - exists out, (replace (upToFirst (c :: o) (c :: cl)) [] b).
    split; [auto|]. split; [apply replace_subseq, prevIndependent_upToFirst|].
    left. rewrite Hfresh. f_equal.
    apply island_kept; [apply prevIndependent_upToFirst|].
    intros t1 x t2 E. unfold upToFirst.
    destruct t1 as [|y t1].
    + cbn [app] in E. injection E as <- <-.
      change (c :: t ++ b) with ((c :: t) ++ b).
      rewrite Hopen. reflexivity.
    + rewrite (inside_island c o t x (y :: t1) t2 Ht E ltac:(discriminate)).
      reflexivity.
  - exists out, (replace (upToFirst (c :: o) (c :: cl)) [] (skipn k b)).
    split; [auto|]. split.
    + eapply subseq_trans; [apply replace_subseq, prevIndependent_upToFirst|].
      apply subseq_skipn.
    + right. exact Hover.
Qed.

(** A pass [open X* close] replaces every text it can match whole. *)
Lemma upToFirst_pass_replaces (c : CodeUnit) (o close t by_ : jsstring) (a b : jsstring) :
  absent c o = true ->
  (forall a', a' <> [] -> startsWith close (a' ++ (c :: t) ++ b) = true ->
              length close <= length a') ->
  (forall i, indexOf close ((c :: t) ++ b) = Some i ->
             i + length close = length (c :: t)) ->
  upToFirst (c :: o) close None ((c :: t) ++ b) = Some (length (c :: t)) ->
  exists a',
    (by_ = [] -> subseq a' a)
    /\ replace (upToFirst (c :: o) close) by_ (a ++ (c :: t) ++ b)
       = a' ++ by_ ++ replace (upToFirst (c :: o) close) by_ b.
Proof.
  intros Ho Hstraddle Hfirst Hwhole.
  destruct (scan_to_island (upToFirst (c :: o) close) by_ (c :: t) b (fun k => k = 0)
                           (prevIndependent_upToFirst _ _)) with (a := a)
    as [out [Hsub [Hfresh|[k [-> Hover]]]]].
  - apply (upToFirst_before c o close t b (fun k => k = 0) Ho Hstraddle).
    intros i Hi. exists 0. split; [reflexivity|]. rewrite (Hfirst i Hi). lia.
  - exists out. split; [exact Hsub|]. rewrite Hfresh. f_equal.
    apply island_matched; [apply prevIndependent_upToFirst | discriminate | exact Hwhole].
  - exists out. split; [exact Hsub|]. exact Hover.
Qed.

(** *** The tags of the thinking content *)

(** Literal texts, written out as code units. *)
Ltac eval_js :=
  repeat match goal with
         | |- context [js ?s] =>
           let v := eval vm_compute in (js s) in change (js s) with v
         end.

Ltac eval_js_in H :=
  repeat match type of H with
         | context [js ?s] =>
           let v := eval vm_compute in (js s) in change (js s) with v in H
         end.

Lemma shrinks_replace (p : Pattern) : prevIndependent p -> shrinks (replace p []).
Proof. intros Hp s. apply replace_subseq. exact Hp. Qed.

Lemma summary_pass_keeps_tag (t : jsstring) :
  t = js "</thinking>" \/ t = js "<Full>" \/ t = js "</Full>" ->
  keepsOrDeletes (replace summaryBlock []) t.
Proof.
  unfold summaryBlock. intros [-> | [-> | ->]]; eval_js;
    apply upToFirst_pass_keeps; try reflexivity; intros r; reflexivity.
Qed.

Lemma summary_pass_replaces_block (block by_ a b : jsstring) :
  isSummaryBlock block ->
  exists a',
    (by_ = [] -> subseq a' a)
    /\ replace summaryBlock by_ (a ++ block ++ b) = a' ++ by_ ++ replace summaryBlock by_ b.
Proof.
  intros [inner [-> Hinner]]. unfold summaryBlock.
  assert (Hfirst : indexOf (js "</summary>") (inner ++ js "</summary>" ++ b)
                   = Some (length inner))
    by (rewrite app_assoc; apply indexOf_app; exact Hinner).
  revert Hfirst. eval_js. intros Hfirst.
  match goal with
  | |- context [upToFirst (?c :: ?o) ?close] =>
    match goal with
    | |- context [a ++ ((c :: o) ++ ?rest) ++ b] =>
      change ((c :: o) ++ rest) with (c :: (o ++ rest));
        apply (upToFirst_pass_replaces c o close (o ++ rest) by_ a b)
    end
  end.
  - reflexivity.
  - intros a' Ha' E.
    match type of E with
    | startsWith (?c :: ?cl) (_ ++ (_ :: ?t) ++ _) = true =>
      exact (no_straddle c cl a' t b eq_refl Ha' E)
    end.
  - intros i Hi. cbn [app indexOf startsWith N.eqb Pos.eqb andb] in Hi.
    rewrite <- app_assoc in Hi. rewrite Hfirst in Hi.
    cbn [option_map] in Hi. injection Hi as <-.
    cbn [length]. rewrite !length_app. cbn [length]. lia.
  - unfold upToFirst. cbn [app startsWith N.eqb Pos.eqb andb length skipn].
    rewrite <- app_assoc. rewrite Hfirst.
    f_equal. cbn [length]. rewrite !length_app. cbn [length]. lia.
Qed.

Lemma details_pass_replaces_tag (tag by_ a b : jsstring) :
  isDetailsTag tag ->
  exists a',
    (by_ = [] -> subseq a' a)
    /\ replace detailsOpen by_ (a ++ tag ++ b) = a' ++ by_ ++ replace detailsOpen by_ b.
Proof.
  intros [inner [-> Hinner]]. unfold detailsOpen.
  assert (Hfirst : forall r, indexOf [62%N] (inner ++ [62%N] ++ r) = Some (length inner))
    by (intros r; apply indexOf_single; exact Hinner).
  eval_js.
  match goal with
  | |- context [upToFirst (?c :: ?o) ?close] =>
    match goal with
    | |- context [a ++ ((c :: o) ++ ?rest) ++ b] =>
      change ((c :: o) ++ rest) with (c :: (o ++ rest));
        apply (upToFirst_pass_replaces c o close (o ++ rest) by_ a b)
    end
  end.
  - reflexivity.
  - intros a' Ha' _. destruct a'; [congruence | cbn; lia].
  - intros i Hi. cbn [app indexOf startsWith N.eqb Pos.eqb andb] in Hi.
    rewrite <- app_assoc in Hi. rewrite Hfirst in Hi.
    cbn [option_map] in Hi. injection Hi as <-.
    cbn [length]. rewrite !length_app. cbn [length]. lia.
  - unfold upToFirst. cbn [app startsWith N.eqb Pos.eqb andb length skipn].
    rewrite <- app_assoc. rewrite Hfirst.
    f_equal. cbn [length]. rewrite !length_app. cbn [length]. lia.
Qed.

(** The first two statements delete every occurrence, in the input, of
    the three tags and of a summary block. *)
Lemma cleanTags_deletes (t : jsstring) : removedText t -> deletes cleanTags t.
Proof.
  pose proof (shrinks_replace _ (prevIndependent_literal (js "</thinking>"))) as S1.
  pose proof (shrinks_replace _ (prevIndependent_literal (js "<Full>"))) as S2.
  pose proof (shrinks_replace _ (prevIndependent_literal (js "</Full>"))) as S3.
  assert (D1 : deletes (replace (literal (js "</thinking>")) []) (js "</thinking>"))
    by (eval_js; apply literal_pass_deletes; reflexivity).
  assert (D2 : deletes (replace (literal (js "<Full>")) []) (js "<Full>"))
    by (eval_js; apply literal_pass_deletes; reflexivity).
  assert (D3 : deletes (replace (literal (js "</Full>")) []) (js "</Full>"))
    by (eval_js; apply literal_pass_deletes; reflexivity).
  assert (K12 : keepsOrDeletes (replace (literal (js "</thinking>")) []) (js "<Full>"))
    by (eval_js; apply literal_pass_keeps; try reflexivity; intros r; reflexivity).
  assert (K13 : keepsOrDeletes (replace (literal (js "</thinking>")) []) (js "</Full>"))
    by (eval_js; apply literal_pass_keeps; try reflexivity; intros r; reflexivity).
  assert (K23 : keepsOrDeletes (replace (literal (js "<Full>")) []) (js "</Full>"))
    by (eval_js; apply literal_pass_keeps; try reflexivity; intros r; reflexivity).
  intros [-> | [-> | [-> | Hblock]]]; unfold cleanTags.
  - apply (deletes_then_shrinks
             (fun s => replace (literal (js "<Full>")) []
                         (replace (literal (js "</thinking>")) []
                            (replace summaryBlock [] s)))); [|exact S3].
    apply (deletes_then_shrinks
             (fun s => replace (literal (js "</thinking>")) []
                         (replace summaryBlock [] s))); [|exact S2].
    apply (keeps_then_deletes (replace summaryBlock [])); [|exact D1 | exact S1].
    apply summary_pass_keeps_tag. auto.
  - apply (deletes_then_shrinks
             (fun s => replace (literal (js "<Full>")) []
                         (replace (literal (js "</thinking>")) []
                            (replace summaryBlock [] s)))); [|exact S3].
    apply (keeps_then_deletes
             (fun s => replace (literal (js "</thinking>")) []
                         (replace summaryBlock [] s))); [|exact D2 | exact S2].
    apply (keeps_then_keeps (replace summaryBlock [])); [|exact K12 | exact S1].
    apply summary_pass_keeps_tag. auto.
  - apply (keeps_then_deletes
             (fun s => replace (literal (js "<Full>")) []
                         (replace (literal (js "</thinking>")) []
                            (replace summaryBlock [] s)))); [|exact D3 | exact S3].
    apply (keeps_then_keeps
             (fun s => replace (literal (js "</thinking>")) []
                         (replace summaryBlock [] s))); [|exact K23 | exact S2].
    apply (keeps_then_keeps (replace summaryBlock [])); [|exact K13 | exact S1].
    apply summary_pass_keeps_tag. auto.
  - apply (deletes_then_shrinks
             (fun s => replace (literal (js "<Full>")) []
                         (replace (literal (js "</thinking>")) []
                            (replace summaryBlock [] s)))); [|exact S3].
    apply (deletes_then_shrinks
             (fun s => replace (literal (js "</thinking>")) []
                         (replace summaryBlock [] s))); [|exact S2].
    apply (deletes_then_shrinks (replace summaryBlock [])); [|exact S1].
    intros a b.
    destruct (summary_pass_replaces_block t [] a b Hblock) as [a' [Hsub E]].
    exists a', (replace summaryBlock [] b). split; [auto|].
    split; [apply replace_subseq, prevIndependent_upToFirst | exact E].
Qed.

Lemma closing_details_replaced (by_ a b : jsstring) :
  exists a',
    (by_ = [] -> subseq a' a)
    /\ replace (literal (js "</details>")) by_ (a ++ js "</details>" ++ b)
       = a' ++ by_ ++ replace (literal (js "</details>")) by_ b.
Proof. eval_js. apply literal_pass_replaces. reflexivity. Qed.

(* ------------------------------------------------------------------ *)
(** ** Further properties of the code                                  *)
(* ------------------------------------------------------------------ *)

(** *** The HMAC helper *)

(** [hmacSha256Hex] raises DataError exactly for the empty key; for any
    other key it returns 64 hexadecimal digits, the HMAC-SHA256 of the
    message; it touches nothing of the world. *)
Theorem hmacSha256Hex_outcome (key message : jsstring) (w : World) :
  hmacSha256Hex key message w
  = (match key with
     | [] => Threw DataError
     | _ :: _ => Returned (hmac_sha256_hex key message)
     end, w)
  /\ length (hmac_sha256_hex key message) = 64
  /\ forallb isHexDigit (hmac_sha256_hex key message) = true.
Proof.
  split; [|apply hmac_sha256_hex_digits].
  destruct key as [|c key]; [reflexivity|].
  apply hmacSha256Hex_run. discriminate.
Qed.

(** *** Request ids *)

(** [generateRequestIds] builds both ids from the whole second of the
    clock reading: t*1000 and t for the chat id, t*1000000 for the
    message id.  Two calls within one second return the same pair. *)
Theorem generateRequestIds_same_second (w1 w2 : World) :
  (clockReading w1 / 1000 = clockReading w2 / 1000)%Z ->
  fst (generateRequestIds w1) = fst (generateRequestIds w2)
  /\ fst (generateRequestIds w1)
     = Returned (decimal (clockReading w1 / 1000 * 1000) ++ js "-"
                 ++ decimal (clockReading w1 / 1000),
                 decimal (clockReading w1 / 1000 * 1000000))
  /\ (clockReading w1 / 1000 * 1000 <= clockReading w1
      < clockReading w1 / 1000 * 1000 + 1000)%Z.
Proof.
  intros H.
  assert (Hrun : forall w,
             fst (generateRequestIds w)
             = Returned (decimal (clockReading w / 1000 * 1000) ++ js "-"
                         ++ decimal (clockReading w / 1000),
                         decimal (clockReading w / 1000 * 1000000)))
    by (intros w; reflexivity).
  split; [rewrite !Hrun, H; reflexivity|].
  split; [apply Hrun|].
  pose proof (Z.mul_div_le (clockReading w1) 1000 ltac:(lia)).
  pose proof (Z.mul_succ_div_gt (clockReading w1) 1000 ltac:(lia)).
  lia.
Qed.

Lemma generateRequestIds_same_second_witness :
  fst (generateRequestIds exampleWorld) = fst (generateRequestIds (afterClock exampleWorld)).
Proof.
  exact (proj1 (generateRequestIds_same_second exampleWorld (afterClock exampleWorld)
                                               eq_refl)).
Defined.

(** *** The User-Agent cache *)

(** [getUserAgentInstance] builds the cache once: whatever the world,
    it returns an instance and leaves it in the cache, and the next call
    returns that same instance and changes nothing, the random source
    included. *)
Theorem getUserAgentInstance_cached (w : World) :
  exists ua w1,
    getUserAgentInstance w = (Returned ua, w1)
    /\ _userAgentInstance w1 = Some ua
    /\ getUserAgentInstance w1 = (Returned ua, w1)
    /\ (_userAgentInstance w = None ->
        In (random ua) userAgents
        /\ position (mathRandom w1) = S (position (mathRandom w)))
    /\ (forall cached, _userAgentInstance w = Some cached -> ua = cached /\ w1 = w).
Proof.
  unfold getUserAgentInstance, bind, get_userAgentInstance.
  destruct (_userAgentInstance w) as [cached|] eqn:Hc.
  - exists cached, w. unfold ret. rewrite Hc.
    repeat split; try congruence; intros [=]; subst; reflexivity.
  - eexists _, _. split; [reflexivity|]. cbn [_userAgentInstance snd fst].
    split; [reflexivity|]. split; [reflexivity|]. split; [|discriminate].
    intros _. split; [|reflexivity].
    cbn [random newUserAgentInstance draw fst].
    apply nth_In.
    pose proof (N.mod_lt (feed (mathRandom w) (position (mathRandom w)))
                         (N.of_nat (length userAgents)) ltac:(discriminate)).
    lia.
Qed.

Lemma getUserAgentInstance_cached_witness :
  exists ua w1,
    getUserAgentInstance exampleWorld = (Returned ua, w1)
    /\ In (random ua) userAgents.
Proof.
  destruct (getUserAgentInstance_cached exampleWorld)
    as [ua [w1 [Hrun [_ [_ [Hnew _]]]]]].
  exists ua, w1. split; [exact Hrun|]. exact (proj1 (Hnew eq_refl)).
Defined.

(** *** What an action leaves as it found it *)

Lemma leaves_ret (T A : Type) (f : World -> T) (a : A) : leaves f (ret a).
Proof. intros w. reflexivity. Qed.

Lemma leaves_throw (T A : Type) (f : World -> T) (e : Exn) : leaves f (@throw A e).
Proof. intros w. reflexivity. Qed.

Lemma leaves_bind (T A B : Type) (f : World -> T) (m : Async A) (k : A -> Async B) :
  leaves f m -> (forall a, leaves f (k a)) -> leaves f (bind m k).
Proof.
  intros Hm Hk w. unfold bind. specialize (Hm w).
  destruct (m w) as [[a|e] w1]; cbn [snd] in *.
  - rewrite (Hk a w1). exact Hm.
  - exact Hm.
Qed.

Lemma leaves_tryCatch (T A : Type) (f : World -> T) (m : Async A) (h : Exn -> Async A) :
  leaves f m -> (forall e, leaves f (h e)) -> leaves f (tryCatch m h).
Proof.
  intros Hm Hh w. unfold tryCatch. specialize (Hm w).
  destruct (m w) as [[a|e] w1]; cbn [snd] in *.
  - exact Hm.
  - rewrite (Hh e w1). exact Hm.
Qed.

(** Without debug logging [debugLog] writes nothing. *)
Lemma leaves_console_debugLog (config : Config) (message : jsstring) :
  DEBUG_LOGGING config = false -> leaves console (debugLog config message).
Proof. intros H w. unfold debugLog. rewrite H. reflexivity. Qed.

(** The calls of the platform, one projection of the world at a time. *)
Ltac leaves_platform :=
  let w := fresh "w" in
  intros w;
  first [ reflexivity
        | unfold getRandomValues; destruct (take _ _); reflexivity
        | unfold fetch; destruct (network _ _); reflexivity
        | unfold response_json; destruct (json _); reflexivity
        | unfold importKey; destruct (_ : list N); reflexivity
        | unfold debugLog; destruct (DEBUG_LOGGING _); reflexivity ].

Ltac leaves_alone :=
  repeat lazymatch goal with
         | |- leaves _ (bind _ _) => apply leaves_bind; [| intros ?]
         | |- leaves _ (tryCatch _ _) => apply leaves_tryCatch; [| intros ?]
         | |- leaves _ (ret _) => apply leaves_ret
         | |- leaves _ (throw _) => apply leaves_throw
         | |- leaves console (debugLog _ _) =>
           first [apply leaves_console_debugLog; assumption | exfalso; congruence]
         | |- leaves _ (if ?b then _ else _) => destruct b
         | |- leaves _ (let (_, _) := ?x in _) => destruct x
         | |- leaves _ (match ?x with _ => _ end) => destruct x
         | |- leaves _ (let _ := _ in _) => cbv zeta
         | |- _ => solve [auto with effects | leaves_platform]
         end.

Lemma getBrowserHeaders_leaves (config : Config) (refererChatId : jsstring) :
  leaves dateNow (getBrowserHeaders config refererChatId)
  /\ leaves cryptoRandom (getBrowserHeaders config refererChatId)
  /\ leaves cryptoUUID (getBrowserHeaders config refererChatId).
Proof.
  repeat split; unfold getBrowserHeaders, getUserAgentInstance; leaves_alone.
Qed.

Section DebugOff.

Variable config : Config.
Hypothesis off : DEBUG_LOGGING config = false.

Lemma getBrowserHeaders_silent (refererChatId : jsstring) :
  leaves console (getBrowserHeaders config refererChatId).
Proof. unfold getBrowserHeaders, getUserAgentInstance. leaves_alone. Qed.

Lemma generateLegacySignatureHeaders_silent (token body method : jsstring) :
  leaves console (generateLegacySignatureHeaders config token body method).
Proof. unfold generateLegacySignatureHeaders. leaves_alone. Qed.

Lemma generateChatSignature_silent (e t : jsstring) :
  leaves console (generateChatSignature config e t).
Proof. unfold generateChatSignature, hmacSha256Hex. leaves_alone. Qed.

Hint Resolve getBrowserHeaders_silent generateLegacySignatureHeaders_silent
  generateChatSignature_silent : effects.

Lemma getAnonymousToken_silent : leaves console (getAnonymousToken config).
Proof. unfold getAnonymousToken, read_token. leaves_alone. Qed.

Hint Resolve getAnonymousToken_silent : effects.

Lemma getAuthToken_silent : leaves console (getAuthToken config).
Proof. unfold getAuthToken, substring_receiver. leaves_alone. Qed.

Lemma callUpstreamApi_silent (upstreamReq : UpstreamRequest) (chatId authToken : jsstring) :
  leaves console (callUpstreamApi config upstreamReq chatId authToken).
Proof. unfold callUpstreamApi. leaves_alone. Qed.

Lemma fetchLatestModels_silent : leaves console (fetchLatestModels config).
Proof. unfold fetchLatestModels, substring_receiver, read_data. leaves_alone. Qed.

Lemma fetchModelsFromAPI_silent : leaves console (fetchModelsFromAPI config).
Proof. unfold fetchModelsFromAPI, substring_receiver, read_data. leaves_alone. Qed.

Lemma forEach_silent (A S : Type) (f : S -> A -> Async S) (l : list A) :
  (forall s a, leaves console (f s a)) ->
  forall s, leaves console (forEach f l s).
Proof.
  intros Hf. induction l as [|a l IH]; intros s; cbn [forEach].
  - apply leaves_ret.
  - apply leaves_bind; [apply Hf | intros s'; apply IH].
Qed.

Lemma getAvailableModels_silent : leaves console (getAvailableModels config).
Proof.
  unfold getAvailableModels, getAvailableModelsWith.
  apply leaves_bind; [unfold getDefaultModels; leaves_alone | intros defaults].
  apply leaves_bind; [| intros [models|]; apply leaves_ret].
  apply leaves_tryCatch; [| intros e; leaves_alone].
  apply leaves_bind; [apply fetchLatestModels_silent | intros latest].
  destruct (0 <? length latest)%nat; [| apply leaves_ret].
  cbv zeta. apply leaves_bind; [| intros modelMap; apply leaves_ret].
  apply forEach_silent. intros modelMap model.
  unfold overlay, numberOrElse. leaves_alone.
Qed.

End DebugOff.

(** With debug logging off no function of the two modules writes to the
    console: the token getters, the header builder, the two signature
    functions, the upstream call and the three model functions leave the
    console as they found it, whatever they return or raise. *)
Theorem debug_off_console_untouched (config : Config) :
  DEBUG_LOGGING config = false ->
  leaves console (getAuthToken config)
  /\ leaves console (getAnonymousToken config)
  /\ (forall refererChatId, leaves console (getBrowserHeaders config refererChatId))
  /\ (forall token body method,
         leaves console (generateLegacySignatureHeaders config token body method))
  /\ (forall e t, leaves console (generateChatSignature config e t))
  /\ (forall upstreamReq chatId authToken,
         leaves console (callUpstreamApi config upstreamReq chatId authToken))
  /\ leaves console (fetchLatestModels config)
  /\ leaves console (fetchModelsFromAPI config)
  /\ leaves console (getAvailableModels config).
Proof.
  intros off.
  split; [apply getAuthToken_silent, off|].
  split; [apply getAnonymousToken_silent, off|].
  split; [intros; apply getBrowserHeaders_silent, off|].
  split; [intros; apply generateLegacySignatureHeaders_silent, off|].
  split; [intros; apply generateChatSignature_silent, off|].
  split; [intros; apply callUpstreamApi_silent, off|].
  split; [apply fetchLatestModels_silent, off|].
  split; [apply fetchModelsFromAPI_silent, off | apply getAvailableModels_silent, off].
Qed.

Lemma debug_off_console_untouched_witness :
  console (snd (getAvailableModels exampleConfig exampleWorld)) = console exampleWorld.
Proof.
  destruct (debug_off_console_untouched exampleConfig eq_refl)
    as [_ [_ [_ [_ [_ [_ [_ [_ H]]]]]]]].
  exact (H exampleWorld).
Defined.

(** *** The request of the upstream call *)

Lemma randomUUID_run (w : World) :
  exists w',
    randomUUID w = (Returned (firstUUID w), w')
    /\ cryptoUUID w' = snd (draw (cryptoUUID w))
    /\ dateNow w' = dateNow w
    /\ network w' = network w.
Proof. eexists. split; [reflexivity|]. repeat split. Qed.

Lemma searchParams_get_set (V : Type) (k k' : jsstring) (v : V) (d : Dict V) :
  dict_get k (searchParams_set k' v d) = if k' === k then Some v else dict_get k d.
Proof.
  induction d as [|[k0 v0] r IH]; cbn [searchParams_set dict_get].
  - destruct (k' === k); reflexivity.
  - destruct (k0 === k') eqn:E0.
    + apply jsstring_eqb_eq in E0. subst k0. cbn [dict_get].
      destruct (k' === k) eqn:E; [reflexivity|].
      clear IH. induction r as [|[k1 v1] r IHr]; [reflexivity|].
      unfold dict_delete. cbn [filter fst dict_get].
      destruct (k1 === k') eqn:E1; cbn [negb].
      * apply jsstring_eqb_eq in E1. subst k1. rewrite E. exact IHr.
      * cbn [dict_get]. destruct (k1 === k); [reflexivity | exact IHr].
    + cbn [dict_get]. destruct (k0 === k) eqn:E.
      * apply jsstring_eqb_eq in E. subst k0.
        replace (k' === k) with false; [reflexivity|].
        symmetry. apply jsstring_eqb_neq. intros ->.
        rewrite jsstring_eqb_refl in E0. discriminate E0.
      * exact IH.
Qed.

(** A name of the query holds what the last entry of [params] of that
    name that is not null gives, and what it held before when there is
    no such entry. *)
Lemma setParams_get (k : jsstring) (entries : list (jsstring * Json)) (q : Dict jsstring) :
  dict_get k (setParams entries q)
  = match paramValue k entries with
    | Some v => Some v
    | None => dict_get k q
    end.
Proof.
  induction entries as [|[k' v'] entries IH] using rev_ind.
  - reflexivity.
  - unfold setParams, paramValue in *. rewrite fold_left_app, rev_app_distr.
    cbn [fold_left rev app find fst snd].
    destruct v' as [|b|z|s|items|fields]; cbn [andb];
      try (rewrite searchParams_get_set; destruct (k' === k); [reflexivity | exact IH]).
    rewrite Bool.andb_false_r. exact IH.
Qed.

(** The run of the upstream call: the headers, the query and the outcome
    of the request it sends, from the world it starts in. *)
Lemma callUpstreamApi_request
      (config : Config) (upstreamReq : UpstreamRequest) (chatId authToken : jsstring)
      (w : World) :
  let requestId := firstUUID w in
  let userId := secondUUID w in
  let timestamp := decimal (clockReading w) in
  let signatureTimestamp := clockReading (afterClock w) in
  let messageList := match messages upstreamReq with Some l => l | None => [] end in
  exists hdrs w1 request,
    getBrowserHeaders config chatId w = (Returned hdrs, w1)
    /\ headers request
       = dict_set (js "X-Signature")
           (hmac_sha256_hex (intermediateKey signatureTimestamp)
              ((js "requestId," ++ requestId ++ js ",timestamp," ++ timestamp
                ++ js ",user_id," ++ userId)
               ++ js "|" ++ getLastUserMessageContent messageList
               ++ js "|" ++ decimal signatureTimestamp))
           (dict_set (js "Authorization") (js "Bearer " ++ authToken) hdrs)
    /\ searchParams (url request)
       = (let query :=
            searchParams_set (js "signature_timestamp") (decimal signatureTimestamp)
              (searchParams_set (js "user_id") userId
                 (searchParams_set (js "timestamp") timestamp
                    (searchParams_set (js "requestId") requestId
                       (searchParams (API_ENDPOINT config))))) in
          match params upstreamReq with
          | Some p => if json_truthy p && isObject p then setParams (entries p) query
                      else query
          | None => query
          end)
    /\ method request = js "POST"
    /\ base (url request) = base (API_ENDPOINT config)
    /\ fst (callUpstreamApi config upstreamReq chatId authToken w)
       = match network w request with
         | Rejected e => Threw e
         | Resolved response => Returned response
         end.
Proof.
  intros requestId userId timestamp signatureTimestamp messageList.
  unfold callUpstreamApi.
  destruct (run_quiet (getBrowserHeaders config chatId) w
                      ltac:(auto with effects) ltac:(auto with effects))
    as [hdrs [w1 [H1 N1]]].
  destruct (getBrowserHeaders_leaves config chatId) as [D1 [_ U1]].
  specialize (D1 w). specialize (U1 w). rewrite H1 in D1, U1. cbn [snd] in D1, U1.
  step H1.
  destruct (randomUUID_run w1) as [w2 [H2 [U2 [D2 N2]]]].
  step H2.
  step (Date_now_run w2).
  destruct (randomUUID_run (afterClock w2)) as [w3 [H3 [U3 [D3 N3]]]].
  step H3.
  assert (E1 : firstUUID w1 = requestId)
    by (unfold firstUUID, requestId; rewrite U1; reflexivity).
  assert (E2 : clockReading w2 = clockReading w)
    by (unfold clockReading; rewrite D2, D1; reflexivity).
  assert (E3 : firstUUID (afterClock w2) = userId)
    by (unfold firstUUID, userId, secondUUID; cbn [afterClock cryptoUUID];
        rewrite U2, U1; reflexivity).
  assert (E4 : clockReading w3 = signatureTimestamp)
    by (unfold clockReading, signatureTimestamp; rewrite D3;
        cbn [afterClock dateNow]; rewrite D2, D1; reflexivity).
  rewrite E1, E2, E3. fold timestamp. cbv zeta. fold messageList.
  match goal with
  | |- context [generateChatSignature config ?e ?t] =>
    destruct (generateChatSignature_run config e t w3) as [w4 H4];
      pose proof (keepsNetwork_generateChatSignature config e t w3) as N4
  end.
  rewrite H4 in N4. cbn [snd] in N4. rewrite E4 in H4.
  step H4.
  match goal with
  | |- context [bind (debugLog config ?m) _] =>
    destruct (run_quiet (debugLog config m) w4
                        ltac:(auto with effects) ltac:(auto with effects))
      as [[] [w5 [H5 N5]]];
      step H5
  end.
  match goal with
  | |- context [bind (debugLog config ?m) _] =>
    destruct (run_quiet (debugLog config m) w5
                        ltac:(auto with effects) ltac:(auto with effects))
      as [[] [w6 [H6 N6]]];
      step H6
  end.
  assert (Hnet : network w6 = network w).
  { rewrite N6, N5, N4, N3. cbn [afterClock network]. rewrite N2, N1. reflexivity. }
  exists hdrs, w1.
  match goal with
  | |- context [fetch ?r] => exists r
  end.
  split; [exact H1|].
  cbn [url searchParams headers method base].
  split; [reflexivity|]. split; [reflexivity|].
  split; [reflexivity|]. split; [reflexivity|].
  unfold bind at 1. unfold fetch at 1. rewrite Hnet.
  match goal with
  | |- context [network w ?r] => destruct (network w r) as [e|response]
  end.
  - reflexivity.
  - match goal with
    | |- context [bind (debugLog config ?m) _] =>
      destruct (run_quiet (debugLog config m) w6
                          ltac:(auto with effects) ltac:(auto with effects))
        as [[] [w7 [H7 _]]];
        step H7
    end.
    reflexivity.
Qed.

(** The upstream call sends the headers of [getBrowserHeaders] with two
    more: Authorization, and X-Signature, the 64 hexadecimal digits of
    the chat signature of "requestId,R,timestamp,T,user_id,U" and the
    last user text.  R and U are the next two UUIDs; T is the first
    reading of the clock, while the key and the trailer of the signature
    come from the second reading. *)
Theorem callUpstreamApi_signature
        (config : Config) (upstreamReq : UpstreamRequest) (chatId authToken : jsstring)
        (w : World) :
  let signatureTimestamp := clockReading (afterClock w) in
  let signatureSource :=
    js "requestId," ++ firstUUID w ++ js ",timestamp," ++ decimal (clockReading w)
    ++ js ",user_id," ++ secondUUID w in
  let signature :=
    hmac_sha256_hex
      (hmac_sha256_hex (js "junjie") (decimal (signatureTimestamp / 300000)))
      (signatureSource ++ js "|"
       ++ getLastUserMessageContent
            (match messages upstreamReq with Some l => l | None => [] end)
       ++ js "|" ++ decimal signatureTimestamp) in
  exists hdrs w1 request,
    getBrowserHeaders config chatId w = (Returned hdrs, w1)
    /\ fst (callUpstreamApi config upstreamReq chatId authToken w)
       = match network w request with
         | Rejected e => Threw e
         | Resolved response => Returned response
         end
    /\ dict_get (js "X-Signature") (headers request) = Some signature
    /\ length signature = 64
    /\ dict_get (js "Authorization") (headers request) = Some (js "Bearer " ++ authToken)
    /\ (forall k, k <> js "X-Signature" -> k <> js "Authorization" ->
                  dict_get k (headers request) = dict_get k hdrs).
Proof.
  intros signatureTimestamp signatureSource signature.
  destruct (callUpstreamApi_request config upstreamReq chatId authToken w)
    as [hdrs [w1 [request [H1 [Hh [_ [_ [_ Hout]]]]]]]].
  exists hdrs, w1, request.
  split; [exact H1|]. split; [exact Hout|].
  rewrite Hh.
  split; [apply dict_get_set_same|].
  split; [apply hmac_sha256_hex_digits|].
  split.
  - rewrite dict_get_set_other by (vm_compute; discriminate).
    apply dict_get_set_same.
  - intros k Hs Ha. rewrite !dict_get_set_other by assumption. reflexivity.
Qed.

(** The query of the upstream call: a name holds the text of the last
    entry of [params] of that name that is not null; without such an
    entry, signature_timestamp, user_id, timestamp and requestId hold the
    second clock reading, the second UUID, the first clock reading and
    the first UUID, and any other name what the endpoint URL gave it.  So
    null entries are skipped, and an entry of [params] named like one of
    the four replaces it. *)
Theorem callUpstreamApi_query
        (config : Config) (upstreamReq : UpstreamRequest) (chatId authToken : jsstring)
        (w : World) :
  let given :=
    match params upstreamReq with
    | Some p => if json_truthy p && isObject p then entries p else []
    | None => []
    end in
  exists request,
    fst (callUpstreamApi config upstreamReq chatId authToken w)
    = match network w request with
      | Rejected e => Threw e
      | Resolved response => Returned response
      end
    /\ forall k,
        dict_get k (searchParams (url request))
        = match paramValue k given with
          | Some v => Some v
          | None =>
            if js "signature_timestamp" === k
            then Some (decimal (clockReading (afterClock w)))
            else if js "user_id" === k then Some (secondUUID w)
            else if js "timestamp" === k then Some (decimal (clockReading w))
            else if js "requestId" === k then Some (firstUUID w)
            else dict_get k (searchParams (API_ENDPOINT config))
          end.
Proof.
  intros given.
  destruct (callUpstreamApi_request config upstreamReq chatId authToken w)
    as [hdrs [w1 [request [_ [_ [Hq [_ [_ Hout]]]]]]]].
  exists request. split; [exact Hout|].
  intros k. rewrite Hq. cbv zeta.
  assert (Hfixed : forall q,
             q = searchParams_set (js "signature_timestamp")
                   (decimal (clockReading (afterClock w)))
                   (searchParams_set (js "user_id") (secondUUID w)
                      (searchParams_set (js "timestamp") (decimal (clockReading w))
                         (searchParams_set (js "requestId") (firstUUID w)
                            (searchParams (API_ENDPOINT config))))) ->
             dict_get k q
             = (if js "signature_timestamp" === k
                then Some (decimal (clockReading (afterClock w)))
                else if js "user_id" === k then Some (secondUUID w)
                else if js "timestamp" === k then Some (decimal (clockReading w))
                else if js "requestId" === k then Some (firstUUID w)
                else dict_get k (searchParams (API_ENDPOINT config))))
    by (intros q ->; rewrite !searchParams_get_set; reflexivity).
  unfold given.
  destruct (params upstreamReq) as [p|]; [destruct (json_truthy p && isObject p)|].
  - rewrite setParams_get. destruct (paramValue k (entries p)); [reflexivity|].
    apply Hfixed. reflexivity.
  - apply Hfixed. reflexivity.
  - apply Hfixed. reflexivity.
Qed.

(** *** The request of the anonymous-token call *)

Lemma nextOctets_same (n : nat) (w w' : World) :
  cryptoRandom w' = cryptoRandom w -> nextOctets n w' = nextOctets n w.
Proof. intros H. unfold nextOctets. rewrite H. reflexivity. Qed.

(** The anonymous-token call sends the headers of [getBrowserHeaders]
    with Accept, Accept-Language and Referer replaced and three more:
    X-Timestamp, the clock reading; X-Nonce, the 16 hexadecimal digits of
    the next 8 random octets; X-Signature, the HMAC-SHA256 keyed by
    "anonymous" of "GET", timestamp, nonce and the empty body, each
    followed by a line feed but the last.  Its outcome is that of this
    request. *)
Theorem getAnonymousToken_request (config : Config) (w : World) :
  let timestamp := decimal (clockReading w) in
  let nonce := hexOfBytes (nextOctets 8 w) in
  exists hdrs w1 request,
    getBrowserHeaders config [] w = (Returned hdrs, w1)
    /\ url request = mkURL (CLIENT_HEADERS_Origin config ++ js "/api/v1/auths/") []
    /\ fst (getAnonymousToken config w) = anonymousTokenOutcome (network w request)
    /\ dict_get (js "Accept") (headers request) = Some (js "*/*")
    /\ dict_get (js "Accept-Language") (headers request) = Some (js "zh-CN,zh;q=0.9")
    /\ dict_get (js "Referer") (headers request)
       = Some (CLIENT_HEADERS_Origin config ++ js "/")
    /\ dict_get (js "X-Timestamp") (headers request) = Some timestamp
    /\ dict_get (js "X-Nonce") (headers request) = Some nonce
    /\ length nonce = 16
    /\ dict_get (js "X-Signature") (headers request)
       = Some (hmac_sha256_hex (js "anonymous")
                 (js "GET" ++ LF ++ timestamp ++ LF ++ nonce ++ LF))
    /\ (forall k,
           ~ In k [js "Accept"; js "Accept-Language"; js "Referer";
                   js "X-Timestamp"; js "X-Nonce"; js "X-Signature"] ->
           dict_get k (headers request) = dict_get k hdrs).
Proof.
  intros timestamp nonce.
  unfold getAnonymousToken.
  destruct (run_quiet (getBrowserHeaders config []) w
                      ltac:(auto with effects) ltac:(auto with effects))
    as [hdrs [w1 [H1 N1]]].
  destruct (getBrowserHeaders_leaves config []) as [D1 [R1 _]].
  specialize (D1 w). specialize (R1 w). rewrite H1 in D1, R1. cbn [snd] in D1, R1.
  step H1. cbv zeta.
  destruct (generateLegacySignatureHeaders_run config (js "anonymous") [] (js "GET") w1
                                               ltac:(discriminate))
    as [w2 H2].
  pose proof (keepsNetwork_generateLegacySignatureHeaders
                config (js "anonymous") [] (js "GET") w1) as N2.
  rewrite H2 in N2. cbn [snd] in N2.
  replace (decimal (clockReading w1)) with timestamp in H2
    by (unfold timestamp, clockReading; rewrite D1; reflexivity).
  replace (hexOfBytes (nextOctets 8 (afterClock w1))) with nonce in H2
    by (unfold nonce; f_equal; symmetry; apply nextOctets_same; exact R1).
  rewrite app_nil_r in H2.
  step H2.
  exists hdrs, w1.
  match goal with
  | |- context [fetch ?r] => exists r
  end.
  cbn [url headers assign fold_left fst snd].
  split; [exact H1|]. split; [reflexivity|].
  split.
  - unfold tryCatch, bind at 1, fetch at 1. rewrite N2, N1.
    match goal with
    | |- context [network w ?r] => destruct (network w r) as [e|response]
    end; cbn [anonymousTokenOutcome].
    + apply (run_rethrow Json config
               (fun error => js "获取匿名token失败: " ++ exn_toString error)).
    + destruct (ok response); cbn [negb].
      * unfold bind at 1, response_json.
        destruct (json response) as [[|token data]|].
        -- apply (run_rethrow Json config
                    (fun error => js "获取匿名token失败: " ++ exn_toString error)).
        -- cbn [ret read_token bind].
           destruct token as [token|].
           ++ destruct (json_truthy token).
              ** reflexivity.
              ** apply (run_rethrow Json config
                          (fun error => js "获取匿名token失败: " ++ exn_toString error)).
           ++ apply (run_rethrow Json config
                       (fun error => js "获取匿名token失败: " ++ exn_toString error)).
        -- apply (run_rethrow Json config
                    (fun error => js "获取匿名token失败: " ++ exn_toString error)).
      * apply (run_rethrow Json config
                 (fun error => js "获取匿名token失败: " ++ exn_toString error)).
  - repeat split;
      try (rewrite ?dict_get_set_other by (vm_compute; discriminate);
           apply dict_get_set_same).
    + apply (nonce_digits w).
    + intros k Hk. cbn [In] in Hk.
      rewrite !dict_get_set_other by (intros ->; tauto). reflexivity.
Qed.

(** *** A provider that cannot be reached *)

(** When every fetch is rejected, the token getter returns the backup
    token, both model fetchers return the empty list, the registry
    returns the default list, and the upstream call raises the error
    with which the network rejected its POST request to the endpoint:
    only the upstream call lets the failure through. *)
Theorem unreachable_provider
        (config : Config) (upstreamReq : UpstreamRequest) (chatId authToken : jsstring)
        (w : World) :
  (forall request, exists e, network w request = Rejected e) ->
  fst (getAuthToken config w) = Returned (BACKUP_TOKEN config)
  /\ fst (fetchLatestModels config w) = Returned []
  /\ fst (getAvailableModels config w)
     = Returned (defaultModels config (clockReading w / 1000))
  /\ exists request e,
      method request = js "POST"
      /\ base (url request) = base (API_ENDPOINT config)
      /\ network w request = Rejected e
      /\ fst (callUpstreamApi config upstreamReq chatId authToken w) = Threw e.
Proof.
  intros Hdown.
  assert (Htoken : forall w0, network w0 = network w ->
                              exists e, fst (getAnonymousToken config w0) = Threw e).
  { intros w0 Hnet.
    destruct (getAnonymousToken_outcome config w0) as [request [_ [_ [_ Hout]]]].
    destruct (Hdown request) as [e He].
    exists e. rewrite Hout, Hnet, He. reflexivity. }
  assert (Hlatest : forall w0, network w0 = network w ->
                               fst (fetchLatestModels config w0) = Returned []).
  { intros w0 Hnet.
    destruct (fetchLatestModels_run config w0) as [requestFor [models [w' [Hrun [_ Hm]]]]].
    destruct (Htoken w0 Hnet) as [e He].
    rewrite Hrun, Hm, He. reflexivity. }
  split; [|split; [apply Hlatest; reflexivity | split]].
  - destruct (getAuthToken_run config w) as [token [w' [Hrun Htok]]].
    destruct (Htoken w eq_refl) as [e He].
    rewrite Hrun, Htok, He. destruct (ANONYMOUS_MODE config); reflexivity.
  - pose proof (getAvailableModelsWith_run config (fetchLatestModels config) w) as Hrun.
    cbv zeta in Hrun.
    pose proof (Hlatest (afterClock w) eq_refl) as Hnone.
    destruct (fetchLatestModels config (afterClock w)) as [[[|model latest]|e] w1];
      cbn [fst] in Hnone; try discriminate Hnone.
    destruct Hrun as [w' Hrun]. unfold getAvailableModels. rewrite Hrun. reflexivity.
  - destruct (callUpstreamApi_request config upstreamReq chatId authToken w)
      as [hdrs [w1 [request [_ [_ [_ [Hmethod [Hbase Hout]]]]]]]].
    destruct (Hdown request) as [e He].
    exists request, e. rewrite Hout, He. auto.
Qed.

Lemma unreachable_provider_witness :
  fst (getAuthToken exampleConfig (worldWith unreachable))
  = Returned (BACKUP_TOKEN exampleConfig)
  /\ exists request e,
      network (worldWith unreachable) request = Rejected e
      /\ fst (callUpstreamApi exampleConfig exampleRequest (js "chat-1") (js "token")
                              (worldWith unreachable)) = Threw e.
Proof.
  destruct (unreachable_provider exampleConfig exampleRequest (js "chat-1")
                                 (js "token") (worldWith unreachable))
    as [Htoken [_ [_ [request [e [_ [_ [Hnet Hcall]]]]]]]].
  - intros request. eexists. reflexivity.
  - split; [exact Htoken|]. exists request, e. split; [exact Hnet | exact Hcall].
Defined.

(** *** The console is written, never read *)

Lemma sameButConsole_refl (w : World) : sameButConsole w w.
Proof. repeat split. Qed.

Lemma alike_ret (A : Type) (a : A) : alike (ret a) (ret a).
Proof. intros w w' S. split; [reflexivity | exact S]. Qed.

Lemma alike_throw (A : Type) (e : Exn) : alike (@throw A e) (@throw A e).
Proof. intros w w' S. split; [reflexivity | exact S]. Qed.

Lemma alike_bind (A B : Type) (m m' : Async A) (k k' : A -> Async B) :
  alike m m' -> (forall a, alike (k a) (k' a)) -> alike (bind m k) (bind m' k').
Proof.
  intros Hm Hk w w' S. unfold bind. destruct (Hm w w' S) as [R S1].
  destruct (m w) as [[a|e] w1], (m' w') as [[a'|e'] w1'];
    cbn [fst snd] in *; try discriminate R.
  - injection R as <-. apply Hk, S1.
  - injection R as <-. split; [reflexivity | exact S1].
Qed.

Lemma alike_tryCatch (A : Type) (m m' : Async A) (h h' : Exn -> Async A) :
  alike m m' -> (forall e, alike (h e) (h' e)) -> alike (tryCatch m h) (tryCatch m' h').
Proof.
  intros Hm Hh w w' S. unfold tryCatch. destruct (Hm w w' S) as [R S1].
  destruct (m w) as [[a|e] w1], (m' w') as [[a'|e'] w1'];
    cbn [fst snd] in *; try discriminate R.
  - split; [exact R | exact S1].
  - injection R as <-. apply Hh, S1.
Qed.

(** A call of the platform gives the same in two worlds that differ by
    their console at most. *)
Ltac alike_platform :=
  let w := fresh "w" in
  let w' := fresh "w'" in
  let D := fresh "D" in
  let M := fresh "M" in
  let R := fresh "R" in
  let U := fresh "U" in
  let N := fresh "N" in
  let C := fresh "C" in
  intros w w' (D & M & R & U & N & C);
  unfold sameButConsole, Date_now, Math_random_index, getRandomValues, randomUUID, fetch,
    response_json, console_log, set_userAgentInstance, get_userAgentInstance, importKey,
    subtle_sign, ret, throw, draw;
  rewrite ?D, ?M, ?R, ?U, ?N, ?C;
  repeat match goal with
         | |- context [match ?x with _ => _ end] => destruct x
         end;
  cbn [fst snd dateNow mathRandom cryptoRandom cryptoUUID network _userAgentInstance];
  rewrite ?D, ?M, ?R, ?U, ?N, ?C;
  repeat split.

Lemma alike_Date_now : alike Date_now Date_now.
Proof. alike_platform. Qed.

Lemma alike_Math_random_index (n : nat) : alike (Math_random_index n) (Math_random_index n).
Proof. alike_platform. Qed.

Lemma alike_getRandomValues (n : nat) : alike (getRandomValues n) (getRandomValues n).
Proof. alike_platform. Qed.

Lemma alike_randomUUID : alike randomUUID randomUUID.
Proof. alike_platform. Qed.

Lemma alike_fetch (request : Request) : alike (fetch request) (fetch request).
Proof. alike_platform. Qed.

Lemma alike_response_json (r : Response) : alike (response_json r) (response_json r).
Proof. alike_platform. Qed.

Lemma alike_set_userAgentInstance (ua : UserAgents) :
  alike (set_userAgentInstance ua) (set_userAgentInstance ua).
Proof. alike_platform. Qed.

Lemma alike_get_userAgentInstance : alike get_userAgentInstance get_userAgentInstance.
Proof. alike_platform. Qed.

Lemma alike_importKey (keyData : list N) : alike (importKey keyData) (importKey keyData).
Proof. alike_platform. Qed.

Lemma alike_subtle_sign (key data : list N) :
  alike (subtle_sign key data) (subtle_sign key data).
Proof. alike_platform. Qed.

(** Two debug lines are alike, whatever they say and whether they are
    written or not. *)
Lemma alike_debugLog (c c' : Config) (message message' : jsstring) :
  alike (debugLog c message) (debugLog c' message').
Proof.
  unfold debugLog. destruct (DEBUG_LOGGING c), (DEBUG_LOGGING c'); alike_platform.
Qed.

Lemma alike_guarded_debugLog (b b' : bool) (c c' : Config) (message message' : jsstring) :
  alike (if b then debugLog c message else ret tt)
        (if b' then debugLog c' message' else ret tt).
Proof.
  unfold debugLog.
  destruct b, b', (DEBUG_LOGGING c), (DEBUG_LOGGING c'); alike_platform.
Qed.

#[local] Hint Resolve alike_ret alike_throw alike_Date_now alike_Math_random_index
  alike_getRandomValues alike_randomUUID alike_fetch alike_response_json
  alike_set_userAgentInstance alike_get_userAgentInstance alike_importKey
  alike_subtle_sign alike_debugLog alike_guarded_debugLog : effects.

(** Goes through two actions of the same shape, side by side. *)
Ltac side_by_side :=
  repeat lazymatch goal with
         | |- alike (bind _ _) (bind _ _) => apply alike_bind; [| intros ?]
         | |- alike (tryCatch _ _) (tryCatch _ _) => apply alike_tryCatch; [| intros ?]
         | |- alike (ret _) (ret _) => apply alike_ret
         | |- alike (throw _) (throw _) => apply alike_throw
         | |- alike (debugLog _ _) (debugLog _ _) => apply alike_debugLog
         | |- alike (if _ then debugLog _ _ else ret tt)
                    (if _ then debugLog _ _ else ret tt) => apply alike_guarded_debugLog
         | |- alike (if ?b then _ else _) (if ?b then _ else _) => destruct b
         | |- alike (let (_, _) := ?x in _) (let (_, _) := ?x in _) => destruct x
         | |- alike (match ?x with _ => _ end) (match ?x with _ => _ end) => destruct x
         | |- alike (let _ := _ in _) _ => cbv zeta
         | |- _ => solve [auto with effects]
         end.

Section DebugFlag.

Variables c c' : Config.
Hypothesis same : sameButDebugLogging c c'.

(** Writes the fields of [c'] as those of [c]. *)
Ltac one_config :=
  let H := fresh "H" in
  pose proof same as H;
  destruct H as (?H & ?H & ?H & ?H & ?H & ?H & ?H & ?H & ?H & ?H & ?H & ?H);
  repeat match goal with
         | E : ?f c = ?f c' |- _ => rewrite <- ?E; clear E
         end.

Lemma alike_getBrowserHeaders (refererChatId : jsstring) :
  alike (getBrowserHeaders c refererChatId) (getBrowserHeaders c' refererChatId).
Proof. unfold getBrowserHeaders, getUserAgentInstance. one_config. side_by_side. Qed.

Lemma alike_generateLegacySignatureHeaders (token body method : jsstring) :
  alike (generateLegacySignatureHeaders c token body method)
        (generateLegacySignatureHeaders c' token body method).
Proof. unfold generateLegacySignatureHeaders. side_by_side. Qed.

Lemma alike_generateChatSignature (e t : jsstring) :
  alike (generateChatSignature c e t) (generateChatSignature c' e t).
Proof. unfold generateChatSignature, hmacSha256Hex. side_by_side. Qed.

Hint Resolve alike_getBrowserHeaders alike_generateLegacySignatureHeaders
  alike_generateChatSignature : effects.

Lemma alike_getAnonymousToken : alike (getAnonymousToken c) (getAnonymousToken c').
Proof. unfold getAnonymousToken, read_token. one_config. side_by_side. Qed.

Hint Resolve alike_getAnonymousToken : effects.

Lemma alike_getAuthToken : alike (getAuthToken c) (getAuthToken c').
Proof. unfold getAuthToken, substring_receiver. one_config. side_by_side. Qed.

Lemma alike_callUpstreamApi (upstreamReq : UpstreamRequest) (chatId authToken : jsstring) :
  alike (callUpstreamApi c upstreamReq chatId authToken)
        (callUpstreamApi c' upstreamReq chatId authToken).
Proof. unfold callUpstreamApi. one_config. side_by_side. Qed.

Lemma alike_fetchLatestModels : alike (fetchLatestModels c) (fetchLatestModels c').
Proof. unfold fetchLatestModels, substring_receiver, read_data. side_by_side. Qed.

Lemma alike_fetchModelsFromAPI : alike (fetchModelsFromAPI c) (fetchModelsFromAPI c').
Proof. unfold fetchModelsFromAPI, substring_receiver, read_data. side_by_side. Qed.

Lemma alike_forEach (A S : Type) (f f' : S -> A -> Async S) (l : list A) :
  (forall s a, alike (f s a) (f' s a)) ->
  forall s, alike (forEach f l s) (forEach f' l s).
Proof.
  intros Hf. induction l as [|a l IH]; intros s; cbn [forEach].
  - apply alike_ret.
  - apply alike_bind; [apply Hf | intros s'; apply IH].
Qed.

Lemma alike_getAvailableModels : alike (getAvailableModels c) (getAvailableModels c').
Proof.
  unfold getAvailableModels, getAvailableModelsWith.
  apply alike_bind; [unfold getDefaultModels; one_config; side_by_side | intros defaults].
  apply alike_bind; [| intros [models|]; apply alike_ret].
  apply alike_tryCatch; [| intros e; side_by_side].
  apply alike_bind; [apply alike_fetchLatestModels | intros latest].
  destruct (0 <? length latest)%nat; [| apply alike_ret].
  cbv zeta. apply alike_bind; [| intros modelMap; apply alike_ret].
  apply alike_forEach. intros modelMap model.
  unfold overlay, numberOrElse. side_by_side.
Qed.

Lemma same_transformThinkingContent (content : jsstring) :
  transformThinkingContent c content = transformThinkingContent c' content.
Proof. unfold transformThinkingContent. one_config. reflexivity. Qed.

End DebugFlag.

(** The debug flag changes what is written to the console and nothing
    else: with two configurations that differ by the flag at most, from
    worlds that differ by their console at most, each function of the
    two modules returns or raises the same and leaves such worlds; the
    transform of the thinking content, which has no effect, gives the
    same text. *)
Theorem debug_flag_only_observed (c c' : Config) :
  sameButDebugLogging c c' ->
  alike (getAuthToken c) (getAuthToken c')
  /\ alike (getAnonymousToken c) (getAnonymousToken c')
  /\ (forall refererChatId,
         alike (getBrowserHeaders c refererChatId) (getBrowserHeaders c' refererChatId))
  /\ (forall token body method,
         alike (generateLegacySignatureHeaders c token body method)
               (generateLegacySignatureHeaders c' token body method))
  /\ (forall e t, alike (generateChatSignature c e t) (generateChatSignature c' e t))
  /\ (forall upstreamReq chatId authToken,
         alike (callUpstreamApi c upstreamReq chatId authToken)
               (callUpstreamApi c' upstreamReq chatId authToken))
  /\ alike (fetchLatestModels c) (fetchLatestModels c')
  /\ alike (fetchModelsFromAPI c) (fetchModelsFromAPI c')
  /\ alike (getAvailableModels c) (getAvailableModels c')
  /\ (forall content, transformThinkingContent c content = transformThinkingContent c' content).
Proof.
  intros same.
  split; [apply alike_getAuthToken, same|].
  split; [apply alike_getAnonymousToken, same|].
  split; [intros; apply alike_getBrowserHeaders, same|].
  split; [intros; apply alike_generateLegacySignatureHeaders|].
  split; [intros; apply alike_generateChatSignature|].
  split; [intros; apply alike_callUpstreamApi, same|].
  split; [apply alike_fetchLatestModels, same|].
  split; [apply alike_fetchModelsFromAPI, same|].
  split; [apply alike_getAvailableModels, same|].
  intros. apply same_transformThinkingContent, same.
Qed.

Lemma debug_flag_only_observed_witness :
  fst (getAuthToken exampleConfig exampleWorld)
  = fst (getAuthToken verboseConfig exampleWorld).
Proof.
  assert (same : sameButDebugLogging exampleConfig verboseConfig).
  { unfold sameButDebugLogging, exampleConfig, verboseConfig.
    cbn [ANONYMOUS_MODE BACKUP_TOKEN CLIENT_HEADERS_Origin API_ENDPOINT
         THINKING_PROCESSING PRIMARY_MODEL THINKING_MODEL SEARCH_MODEL AIR_MODEL
         PRIMARY_MODEL_NEW THINKING_MODEL_NEW SEARCH_MODEL_NEW].
    repeat split. }
  destruct (debug_flag_only_observed exampleConfig verboseConfig same) as [H _].
  destruct (H exampleWorld exampleWorld (sameButConsole_refl exampleWorld)) as [R _].
  exact R.
Defined.

(** *** The two model fetchers *)

Lemma sameButDebugLogging_refl (c : Config) : sameButDebugLogging c c.
Proof. repeat split. Qed.

Lemma debugLog_quiet (c : Config) (message : jsstring) (w : World) :
  exists w', debugLog c message w = (Returned tt, w') /\ sameButConsole w w'.
Proof.
  unfold debugLog. destruct (DEBUG_LOGGING c).
  - eexists. split; [reflexivity|]. repeat split.
  - exists w. split; [reflexivity|]. repeat split.
Qed.

(** Runs the debug lines in sight. *)
Ltac quiet_logs :=
  repeat match goal with
         | |- context [debugLog ?c ?m ?w0] =>
           let w2 := fresh "w" in
           let E := fresh "E" in
           let Q := fresh "Q" in
           destruct (debugLog_quiet c m w0) as [w2 [E Q]];
           rewrite E; clear E; cbv beta iota
         end.

Ltac same_worlds :=
  cbn [fst snd] in *; unfold sameButConsole in *; intuition congruence.

Lemma fetchers_alike (config : Config) :
  alike (fetchModelsFromAPI config) (fetchLatestModels config).
Proof.
  intros w w' S.
  destruct (alike_getAnonymousToken config config (sameButDebugLogging_refl config) w w' S)
    as [R1 S1].
  unfold fetchModelsFromAPI, fetchLatestModels, tryCatch, bind.
  destruct (getAnonymousToken config w) as [[tok|e] w1],
           (getAnonymousToken config w') as [[tok'|e'] w1'];
    cbn [fst snd] in R1, S1; try discriminate R1; injection R1 as <-.
  - destruct tok as [|b|z|s|items|fields]; cbn [substring_receiver];
      unfold ret, throw; cbv beta iota; quiet_logs;
        try (split; [reflexivity | same_worlds]).
    match goal with
    | |- context [getBrowserHeaders config [] ?wl] =>
      match goal with
      | |- context [getBrowserHeaders config [] ?wr] =>
        tryif constr_eq wl wr then fail else
          destruct (alike_getBrowserHeaders config config (sameButDebugLogging_refl config)
                                            [] wl wr ltac:(same_worlds)) as [R2 S2];
          destruct (getBrowserHeaders config [] wl) as [[hdrs|e] w3],
                   (getBrowserHeaders config [] wr) as [[hdrs'|e'] w3']
      end
    end;
      cbn [fst snd] in R2, S2; try discriminate R2; injection R2 as <-.
    + unfold fetch.
      replace (network w3) with (network w3') by same_worlds.
      match goal with
      | |- context [network w3' ?r] => destruct (network w3' r) as [e|response]
      end.
      * quiet_logs. split; [reflexivity | same_worlds].
      * destruct (ok response); cbn [negb]; cbv beta iota.
        -- unfold response_json.
           destruct (json response) as [[|t models]|];
             unfold ret, throw, read_data; cbv beta iota; quiet_logs;
               unfold ret, throw; cbv beta iota; quiet_logs;
                 (split; [reflexivity | same_worlds]).
        -- quiet_logs. split; [reflexivity | same_worlds].
    + quiet_logs. split; [reflexivity | same_worlds].
  - quiet_logs. unfold ret. quiet_logs. split; [reflexivity | same_worlds].
Qed.

(** [fetchModelsFromAPI] and [fetchLatestModels] are one function but
    for their debug lines: in any world they return the same list, the
    worlds they leave differ by the console at most, and neither raises. *)
Theorem fetchModelsFromAPI_as_fetchLatestModels (config : Config) (w : World) :
  fst (fetchModelsFromAPI config w) = fst (fetchLatestModels config w)
  /\ sameButConsole (snd (fetchModelsFromAPI config w)) (snd (fetchLatestModels config w))
  /\ exists models, fst (fetchModelsFromAPI config w) = Returned models.
Proof.
  destruct (fetchers_alike config w w (sameButConsole_refl w)) as [R S].
  split; [exact R|]. split; [exact S|].
  destruct (fetchLatestModels_run config w) as [requestFor [models [w' [Hrun _]]]].
  exists models. rewrite R, Hrun. reflexivity.
Qed.

(** *** Messages after the last user text *)

Lemma find_none_all (A : Type) (f : A -> bool) (l : list A) :
  (forall x, In x l -> f x = false) -> find f l = None.
Proof.
  induction l as [|a l IH]; intros H; cbn [find]; [reflexivity|].
  rewrite (H a (or_introl eq_refl)). apply IH. intros x Hx. apply H. right. exact Hx.
Qed.

(** The text that the upstream call signs is that of a user message
    with a text that is not empty, whatever comes before it, as long as
    every message after it is either not from the user or without text. *)
Theorem getLastUserMessageContent_ignores_rest
        (before after : list Message) (m : Message) :
  role m = js "user" ->
  extractMessageText m <> [] ->
  (forall x, In x after -> role x <> js "user" \/ extractMessageText x = []) ->
  getLastUserMessageContent (before ++ m :: after) = extractMessageText m.
Proof.
  intros Hrole Htext Hafter.
  unfold getLastUserMessageContent.
  rewrite lastUserLoop_find by lia.
  rewrite firstn_all, rev_app_distr. cbn [rev]. rewrite <- app_assoc.
  rewrite find_app_first.
  replace (find (fun x => isUser x && truthy (extractMessageText x)) (rev after))
    with (@None Message).
  - cbn [app find]. unfold isUser at 1. rewrite Hrole, jsstring_eqb_refl.
    destruct (extractMessageText m) as [|ch text] eqn:E; [congruence|].
    cbn [truthy andb option_map]. exact E.
  - symmetry. apply find_none_all. intros x Hx. apply in_rev in Hx.
    destruct (Hafter x Hx) as [H|H].
    + unfold isUser. apply jsstring_eqb_neq in H. rewrite H. reflexivity.
    + rewrite H. apply andb_false_r.
Qed.

Lemma getLastUserMessageContent_ignores_rest_witness :
  getLastUserMessageContent
    ([assistantMessage "hello"] ++ userMessage "hi" :: [userMessage ""; assistantMessage "bye"])
  = extractMessageText (userMessage "hi").
Proof.
  apply (getLastUserMessageContent_ignores_rest
           [assistantMessage "hello"] [userMessage ""; assistantMessage "bye"]
           (userMessage "hi")).
  - reflexivity.
  - vm_compute. discriminate.
  - intros x [<-|[<-|[]]]; [right; reflexivity | left; vm_compute; discriminate].
Defined.

(** *** The order of the merged list *)

Lemma filter_twice (A : Type) (f g h : A -> bool) (l : list A) :
  (forall x, h x = g x && f x) -> filter f (filter g l) = filter h l.
Proof.
  intros H. induction l as [|a l IH]; cbn [filter]; [reflexivity|].
  rewrite H. destruct (g a); cbn [filter andb]; [destruct (f a)|]; rewrite IH; reflexivity.
Qed.

(** After ids without repetition, the first occurrences of a list are
    those of its ids that are new. *)
Lemma firstOccurrences_app (defaults latest : list jsstring) :
  NoDup defaults ->
  firstOccurrences (defaults ++ latest)
  = defaults ++ filter (fun k => negb (existsb (fun d => k === d) defaults))
                       (firstOccurrences latest).
Proof.
  induction 1 as [|d defaults Hnot Hnd IH]; cbn [app firstOccurrences].
  - cbn [existsb negb]. symmetry. apply forallb_filter_id. apply forallb_forall.
    reflexivity.
  - rewrite IH, filter_app. f_equal. f_equal.
    + apply forallb_filter_id. apply forallb_forall.
      intros k Hk. apply negb_true_iff. apply jsstring_eqb_neq. congruence.
    + apply filter_twice. intros k. cbn [existsb].
      rewrite negb_orb. apply andb_comm.
Qed.

Lemma firstOccurrences_length (l : list jsstring) :
  length (firstOccurrences l) <= length l.
Proof.
  induction l as [|k l IH]; cbn [firstOccurrences length]; [lia|].
  pose proof (filter_length_le (fun k' => negb (k' === k)) (firstOccurrences l)). lia.
Qed.

(** When the configured default ids are pairwise distinct, the registry
    returns the default ids first, in their order, whatever was fetched;
    then come the fetched ids that are new, each at the place of its
    first occurrence.  The list has the seven defaults at least and one
    entry more for each fetched model at most. *)
Theorem getAvailableModels_order
        (config : Config) (fetchLatest : Async (list ZAIModel)) (w : World) :
  let defaults := defaultModels config (clockReading w / 1000) in
  NoDup (map id defaults) ->
  exists result w' fresh,
    getAvailableModelsWith config fetchLatest w = (Returned result, w')
    /\ map id result = map id defaults ++ fresh
    /\ length result = 7 + length fresh
    /\ (forall latest w1,
           fetchLatest (afterClock w) = (Returned latest, w1) ->
           fresh = filter (fun k => negb (existsb (fun d => k === d) (map id defaults)))
                          (firstOccurrences (map id latest))
           /\ length result <= 7 + length latest).
Proof.
  intros defaults Hnd.
  pose proof (getAvailableModelsWith_run config fetchLatest w) as Hrun.
  cbv zeta in Hrun. fold defaults in Hrun.
  destruct (fetchLatest (afterClock w)) as [[[|model latest]|e] w1] eqn:Hfetch.
  - destruct Hrun as [w' Hrun]. exists defaults, w', [].
    split; [exact Hrun|]. split; [rewrite app_nil_r; reflexivity|].
    split; [reflexivity|].
    intros latest w2 [= <- _]. split; [reflexivity | cbn; lia].
  - destruct Hrun as [entries [w' [Hrun Hall]]].
    destruct (merged_values w1 defaults (model :: latest) entries Hall) as [_ [Hids _]].
    rewrite firstOccurrences_app in Hids by exact Hnd.
    eexists _, w', _. split; [exact Hrun|]. split; [exact Hids|].
    assert (Hlen : length (dict_values (setAll entries (setAll defaults [])))
                   = 7 + length (filter (fun k => negb (existsb (fun d => k === d)
                                                                (map id defaults)))
                                        (firstOccurrences (map id (model :: latest))))).
    { rewrite <- (length_map id), Hids, length_app. reflexivity. }
    split; [exact Hlen|].
    intros latest' w2 [= <- <-]. split; [reflexivity|].
    rewrite Hlen.
    pose proof (filter_length_le (fun k => negb (existsb (fun d => k === d)
                                                         (map id defaults)))
                                 (firstOccurrences (map id (model :: latest)))).
    pose proof (firstOccurrences_length (map id (model :: latest))).
    rewrite length_map in *. lia.
  - destruct Hrun as [w' Hrun]. exists defaults, w', [].
    split; [exact Hrun|]. split; [rewrite app_nil_r; reflexivity|].
    split; [reflexivity|].
    intros latest w2 [=].
Qed.

Lemma getAvailableModels_order_witness :
  exists result w' fresh,
    getAvailableModelsWith exampleConfig (fetchLatestModels exampleConfig) exampleWorld
    = (Returned result, w')
    /\ map id result
       = map id (defaultModels exampleConfig (clockReading exampleWorld / 1000)) ++ fresh.
Proof.
  destruct (getAvailableModels_order exampleConfig (fetchLatestModels exampleConfig)
                                     exampleWorld (exampleConfig_distinct _))
    as [result [w' [fresh [Hrun [Hids _]]]]].
  exists result, w', fresh. split; [exact Hrun | exact Hids].
Defined.

(** *** A text without tags *)

Lemma startsWith_absent (c : CodeUnit) (p s : jsstring) :
  hd_error p = Some c -> absent c s = true -> startsWith p s = false.
Proof.
  destruct p as [|x p]; [discriminate|]. intros [= ->] Hs.
  destruct s as [|y s]; [reflexivity|].
  apply absent_cons in Hs. apply startsWith_head. tauto.
Qed.

Lemma startsWith_absent_second (c : CodeUnit) (p s : jsstring) :
  hd_error (tl p) = Some c -> absent c s = true -> startsWith p s = false.
Proof.
  destruct p as [|x p]; [discriminate|]. cbn [tl]. intros Hp Hs.
  destruct s as [|y s]; [reflexivity|].
  apply absent_cons in Hs. cbn [startsWith].
  rewrite (startsWith_absent c p s Hp (proj2 Hs)). apply andb_false_r.
Qed.

(** A pass whose pattern matches nowhere gives the text back. *)
Lemma replace_keeps (p : Pattern) (by_ : jsstring) (c : CodeUnit) :
  (forall prev s, absent c s = true -> p prev s = None) ->
  forall s, absent c s = true -> replace p by_ s = s.
Proof.
  intros Hp s. unfold replace. generalize (@None CodeUnit) as prev.
  induction s as [|x s IH]; intros prev Hs; cbn [replace_go]; [reflexivity|].
  rewrite (Hp prev (x :: s) Hs). f_equal. apply IH.
  apply absent_cons in Hs. tauto.
Qed.

Lemma literal_keeps (c : CodeUnit) (l by_ s : jsstring) :
  hd_error l = Some c -> absent c s = true -> replace (literal l) by_ s = s.
Proof.
  intros Hl. apply replace_keeps. intros prev s' Hs'. unfold literal.
  rewrite (startsWith_absent c l s' Hl Hs'). reflexivity.
Qed.

Lemma upToFirst_keeps (c : CodeUnit) (open close by_ s : jsstring) :
  hd_error open = Some c -> absent c s = true ->
  replace (upToFirst open close) by_ s = s.
Proof.
  intros Hl. apply replace_keeps. intros prev s' Hs'. unfold upToFirst.
  rewrite (startsWith_absent c open s' Hl Hs'). reflexivity.
Qed.

Lemma absent_trim (c : CodeUnit) (s : jsstring) :
  absent c s = true -> absent c (trim s) = true.
Proof.
  intros Hs. unfold trim.
  destruct (trimStart_suffix s) as [spaces [E _]].
  destruct (trimEnd_prefix (trimStart s)) as [spaces' [E' _]].
  rewrite E, absent_app in Hs. apply andb_true_iff in Hs. destruct Hs as [_ Hs].
  rewrite E', absent_app in Hs. apply andb_true_iff in Hs. tauto.
Qed.

Lemma trimStart_fixed (s : jsstring) :
  (forall c, hd_error s = Some c -> isSpace c = false) -> trimStart s = s.
Proof.
  destruct s as [|x s]; [reflexivity|]. intros H. cbn [trimStart].
  rewrite (H x eq_refl). reflexivity.
Qed.

Lemma trim_fixed (s : jsstring) : trimmed s -> trim s = s.
Proof.
  intros [Hhead Hlast]. unfold trim, trimEnd.
  rewrite (trimStart_fixed s Hhead), (trimStart_fixed (rev s) Hlast).
  apply rev_involutive.
Qed.

(** A text without "<" passes the statements on tags unchanged. *)
Lemma tag_passes_keep (config : Config) (content : jsstring) :
  absent 60%N content = true ->
  transformThinkingContent config content
  = trim (replace (literal (LF ++ js "> ")) LF (replace linePrefix [] (trim content))).
Proof.
  intros Hlt.
  assert (Htrim : absent 60%N (trim content) = true) by (apply absent_trim; exact Hlt).
  unfold transformThinkingContent, summaryBlock, detailsOpen. cbv zeta.
  rewrite (upToFirst_keeps 60%N (js "<summary>") (js "</summary>") [] content
                           eq_refl Hlt).
  rewrite (literal_keeps 60%N (js "</thinking>") [] content eq_refl Hlt).
  rewrite (literal_keeps 60%N (js "<Full>") [] content eq_refl Hlt).
  rewrite (literal_keeps 60%N (js "</Full>") [] content eq_refl Hlt).
  destruct (THINKING_PROCESSING config === js "think");
    [| destruct (THINKING_PROCESSING config === js "strip")].
  - rewrite (upToFirst_keeps 60%N (js "<details") (js ">") (js "<span>") (trim content)
                             eq_refl Htrim).
    rewrite (literal_keeps 60%N (js "</details>") (js "</span>") (trim content)
                           eq_refl Htrim).
    reflexivity.
  - rewrite (upToFirst_keeps 60%N (js "<details") (js ">") [] (trim content)
                             eq_refl Htrim).
    rewrite (literal_keeps 60%N (js "</details>") [] (trim content) eq_refl Htrim).
    reflexivity.
  - reflexivity.
Qed.

Lemma closing_quote_keeps (s : jsstring) :
  absent 62%N s = true -> replace (literal (LF ++ js "> ")) LF s = s.
Proof.
  apply replace_keeps. intros prev s' Hs. unfold literal.
  rewrite (startsWith_absent_second 62%N (LF ++ js "> ") s' eq_refl Hs). reflexivity.
Qed.

(** A text without "<" passes the tag statements unchanged: it is
    trimmed, loses the quotation prefixes of its lines, and is trimmed
    again, in every thinking mode.  Without ">" as well, the result is
    the trimmed text itself. *)
Theorem transformThinkingContent_plain_text (config : Config) (content : jsstring) :
  absent 60%N content = true ->
  transformThinkingContent config content
  = trim (replace (literal (LF ++ js "> ")) LF (replace linePrefix [] (trim content)))
  /\ (absent 62%N content = true -> transformThinkingContent config content = trim content).
Proof.
  intros Hlt. split; [apply tag_passes_keep; exact Hlt|].
  intros Hgt. rewrite tag_passes_keep by exact Hlt.
  assert (Hgt' : absent 62%N (trim content) = true) by (apply absent_trim; exact Hgt).
  rewrite (replace_keeps linePrefix [] 62%N); [| | exact Hgt'].
  - rewrite closing_quote_keeps by exact Hgt'. apply trim_fixed, trim_trimmed.
  - intros prev s Hs. unfold linePrefix.
    rewrite (startsWith_absent 62%N (js "> ") s eq_refl Hs), andb_false_r. reflexivity.
Qed.

Lemma transformThinkingContent_plain_text_witness :
  transformThinkingContent exampleConfig (js "  a plain answer ") = js "a plain answer".
Proof.
  destruct (transformThinkingContent_plain_text exampleConfig (js "  a plain answer ")
                                                eq_refl) as [_ H].
  rewrite (H eq_refl). reflexivity.
Defined.

(** *** Quotations *)

(** Within a line, after a code unit that ends no line, the pass on
    the quotation prefixes changes nothing. *)
Lemma linePrefix_within_line (line rest : jsstring) (before : CodeUnit) :
  isLineTerminator before = false -> isLine line = true ->
  exists last,
    isLineTerminator last = false
    /\ replace_go linePrefix [] 0 (Some before) (line ++ rest)
       = line ++ replace_go linePrefix [] 0 (Some last) rest.
Proof.
  revert before. induction line as [|c line IH]; intros before Hb Hline.
  - exists before. split; [exact Hb | reflexivity].
  - cbn [isLine forallb] in Hline. apply andb_true_iff in Hline.
    destruct Hline as [Hc Hline]. apply negb_true_iff in Hc.
    destruct (IH c Hc Hline) as [last [Hlast E]].
    exists last. split; [exact Hlast|].
    cbn [app replace_go]. unfold linePrefix at 1. rewrite Hb. cbn [andb].
    f_equal. exact E.
Qed.

(** At the start of a line, the pass removes the prefix and keeps the
    line. *)
Lemma linePrefix_at_start (line rest : jsstring) (prev : option CodeUnit) :
  match prev with None => true | Some c => isLineTerminator c end = true ->
  isLine line = true ->
  exists last,
    isLineTerminator last = false
    /\ replace_go linePrefix [] 0 prev (js "> " ++ line ++ rest)
       = line ++ replace_go linePrefix [] 0 (Some last) rest.
Proof.
  intros Hprev Hline.
  destruct (linePrefix_within_line line rest 32%N eq_refl Hline) as [last [Hlast E]].
  exists last. split; [exact Hlast|].
  change (js "> " ++ line ++ rest) with (62%N :: 32%N :: line ++ rest).
  cbn [replace_go]. unfold linePrefix at 1. rewrite Hprev.
  cbn [andb startsWith N.eqb Pos.eqb app]. exact E.
Qed.

Lemma linePrefix_other_lines (others : list jsstring) (before : CodeUnit) :
  isLineTerminator before = false ->
  Forall (fun line => isLine line = true) others ->
  replace_go linePrefix [] 0 (Some before)
             (concat (map (fun line => LF ++ line)
                          (map (fun line => js "> " ++ line) others)))
  = concat (map (fun line => LF ++ line) others).
Proof.
  intros Hb Hall. revert before Hb.
  induction Hall as [|line others Hline Hall IH]; intros before Hb; [reflexivity|].
  cbn [map concat]. rewrite <- !app_assoc.
  change (LF ++ js "> " ++ line
          ++ concat (map (fun l => LF ++ l) (map (fun l => js "> " ++ l) others)))
    with (10%N :: js "> " ++ line
          ++ concat (map (fun l => LF ++ l) (map (fun l => js "> " ++ l) others))).
  cbn [replace_go]. unfold linePrefix at 1. rewrite Hb. cbn [andb].
  destruct (linePrefix_at_start
              line (concat (map (fun l => LF ++ l) (map (fun l => js "> " ++ l) others)))
              (Some 10%N) eq_refl Hline) as [last [Hlast E]].
  transitivity (10%N :: line ++ concat (map (fun l => LF ++ l) others));
    [| reflexivity].
  f_equal. etransitivity; [exact E|]. f_equal. apply IH. exact Hlast.
Qed.

(** The pass on the quotation prefixes turns a quotation into its
    lines. *)
Lemma linePrefix_quotation (first : jsstring) (others : list jsstring) :
  isLine first = true ->
  Forall (fun line => isLine line = true) others ->
  replace linePrefix [] (quotation first others) = unlines first others.
Proof.
  intros Hfirst Hall. unfold replace, quotation, unlines. rewrite <- app_assoc.
  destruct (linePrefix_at_start
              first
              (concat (map (fun l => LF ++ l) (map (fun l => js "> " ++ l) others)))
              None eq_refl Hfirst) as [last [Hlast E]].
  etransitivity; [exact E|]. f_equal.
  apply linePrefix_other_lines; assumption.
Qed.

Lemma absent_concat (c : CodeUnit) (pieces : list jsstring) :
  Forall (fun piece => absent c piece = true) pieces -> absent c (concat pieces) = true.
Proof.
  induction 1 as [|piece pieces Hp _ IH]; [reflexivity|].
  cbn [concat]. rewrite absent_app, Hp, IH. reflexivity.
Qed.

Lemma absent_unlines (c : CodeUnit) (first : jsstring) (others : list jsstring) :
  c <> 10%N ->
  Forall (fun line => absent c line = true) (first :: others) ->
  absent c (unlines first others) = true.
Proof.
  intros Hc Hall. inversion Hall as [|? ? Hfirst Hothers]; subst.
  unfold unlines. rewrite absent_app, Hfirst. cbn [andb].
  apply absent_concat. rewrite Forall_map.
  eapply Forall_impl; [|exact Hothers]. cbn beta. intros line Hline.
  rewrite absent_app, Hline, andb_true_r. unfold absent, LF. cbn [forallb].
  rewrite andb_true_r. apply negb_true_iff, N.eqb_neq. congruence.
Qed.

(** A quotation comes back as its lines: when each line is behind "> ",
    holds neither "<" nor ">" nor a line terminator, and the quotation
    has no white space at its end, the result is the lines without their
    prefixes, trimmed, in every thinking mode. *)
Theorem transformThinkingContent_quotation
        (config : Config) (first : jsstring) (others : list jsstring) :
  Forall (fun line => absent 60%N line = true /\ absent 62%N line = true
                      /\ isLine line = true) (first :: others) ->
  trimmed (quotation first others) ->
  transformThinkingContent config (quotation first others) = trim (unlines first others).
Proof.
  intros Hall Htrimmed.
  assert (Hlt : Forall (fun line => absent 60%N line = true) (first :: others))
    by (eapply Forall_impl; [|exact Hall]; cbn beta; tauto).
  assert (Hgt : Forall (fun line => absent 62%N line = true) (first :: others))
    by (eapply Forall_impl; [|exact Hall]; cbn beta; tauto).
  assert (Hlines : Forall (fun line => isLine line = true) (first :: others))
    by (eapply Forall_impl; [|exact Hall]; cbn beta; tauto).
  rewrite tag_passes_keep.
  - rewrite (trim_fixed _ Htrimmed).
    inversion Hlines as [|? ? Hfirst Hothers]; subst.
    rewrite (linePrefix_quotation first others Hfirst Hothers).
    rewrite closing_quote_keeps; [reflexivity|].
    apply absent_unlines; [discriminate | exact Hgt].
  - unfold quotation. apply absent_unlines; [discriminate|].
    change ((js "> " ++ first) :: map (fun line => js "> " ++ line) others)
      with (map (fun line => js "> " ++ line) (first :: others)).
    rewrite Forall_map. eapply Forall_impl; [|exact Hlt]. cbn beta.
    intros line Hline. rewrite absent_app, Hline. reflexivity.
Qed.

Lemma transformThinkingContent_quotation_witness :
  transformThinkingContent exampleConfig (js ("> first thought" ++ String "010" "> second thought"))
  = js ("first thought" ++ String "010" "second thought").
Proof.
  assert (H := transformThinkingContent_quotation
                 exampleConfig (js "first thought") [js "second thought"]).
  vm_compute in H. apply H.
  - repeat constructor.
  - split; intros c [= <-]; reflexivity.
Defined.

(** *** What the transform never adds *)

Lemma replace_go_deletes (p : Pattern) (s : jsstring) (skip : nat) (prev : option CodeUnit) :
  subseq (replace_go p [] skip prev s) s.
Proof.
  revert skip prev. induction s as [|c r IH]; intros skip prev; [constructor|].
  cbn [replace_go]. destruct skip as [|k].
  - destruct (p prev (c :: r)) as [[|k]|]; cbn [app]; constructor; apply IH.
  - constructor. apply IH.
Qed.

Lemma replace_go_shortens (c : CodeUnit) (l s : jsstring) (skip : nat)
      (prev : option CodeUnit) :
  subseq (replace_go (literal (c :: l)) [c] skip prev s) s.
Proof.
  revert skip prev. induction s as [|x r IH]; intros skip prev; [constructor|].
  cbn [replace_go]. destruct skip as [|k].
  - unfold literal at 1. cbn [startsWith length].
    destruct (c =? x)%N eqn:E; cbn [andb].
    + apply N.eqb_eq in E. subst x.
      destruct (startsWith l r); cbn [app]; constructor; apply IH.
    + constructor. apply IH.
  - constructor. apply IH.
Qed.

Lemma trim_subseq (s : jsstring) : subseq (trim s) s.
Proof.
  unfold trim. eapply subseq_trans; [|apply trimStart_subseq].
  destruct (trimEnd_prefix (trimStart s)) as [spaces [E _]].
  rewrite E at 2. rewrite <- (app_nil_r (trimEnd (trimStart s))) at 1.
  apply subseq_app; [apply subseq_refl | apply subseq_nil_l].
Qed.

(** Outside the mode "think" the transform only deletes: its result is
    what is left of the input after some code units are taken away, in
    their order; nothing is added, nothing moves. *)
Theorem transformThinkingContent_only_deletes (config : Config) (content : jsstring) :
  (THINKING_PROCESSING config === js "think") = false ->
  subseq (transformThinkingContent config content) content
  /\ length (transformThinkingContent config content) <= length content.
Proof.
  intros Hmode.
  assert (Hsub : subseq (transformThinkingContent config content) content).
  { unfold transformThinkingContent. cbv zeta. rewrite Hmode.
    eapply subseq_trans; [apply trim_subseq|].
    eapply subseq_trans; [apply (replace_go_shortens 10%N (js "> "))|].
    eapply subseq_trans; [apply replace_go_deletes|].
    assert (Hclean : subseq (trim (replace (literal (js "</Full>")) []
                                     (replace (literal (js "<Full>")) []
                                        (replace (literal (js "</thinking>")) []
                                           (replace summaryBlock [] content)))))
                            content).
    { eapply subseq_trans; [apply trim_subseq|].
      repeat (eapply subseq_trans; [apply replace_go_deletes|]).
      apply subseq_refl. }
    destruct (THINKING_PROCESSING config === js "strip").
    - repeat (eapply subseq_trans; [apply replace_go_deletes|]). exact Hclean.
    - exact Hclean. }
  split; [exact Hsub|].
  clear Hmode. induction Hsub; cbn [length]; lia.
Qed.

Lemma transformThinkingContent_only_deletes_witness :
  (length (transformThinkingContent
             (mkConfig false true [] [] (mkURL [] []) (js "strip") [] [] [] [] [] [] [])
             (js "<details open>a</details>"))
   <= length (js "<details open>a</details>")).
Proof.
  exact (proj2 (transformThinkingContent_only_deletes
                  (mkConfig false true [] [] (mkURL [] []) (js "strip") [] [] [] [] [] [] [])
                  (js "<details open>a</details>") eq_refl)).
Defined.

(** *** The request for the model list *)

Lemma fetchLatestModels_request (config : Config) (w w1 : World) (tok : jsstring) :
  getAnonymousToken config w = (Returned (JString tok), w1) ->
  exists hdrs w0 w2 request,
    sameButConsole w1 w0
    /\ getBrowserHeaders config [] w0 = (Returned hdrs, w2)
    /\ url request = mkURL (js "https://chat.z.ai/api/models") []
    /\ headers request
       = dict_set (js "User-Agent")
           (js "Mozilla/5.0 (X11; Linux x86_64) AppleWebKit/537.36 (KHTML, like Gecko) Chrome/140.0.0.0 Safari/537.36 Edg/140.0.0.0")
           (dict_set (js "Authorization") (js "Bearer " ++ tok)
              (dict_set (js "Accept") (js "application/json") hdrs))
    /\ fst (fetchLatestModels config w) = Returned (latestModelsOf (network w request)).
Proof.
  intros Htok.
  pose proof (keepsNetwork_getAnonymousToken config w) as N0.
  rewrite Htok in N0. cbn [snd] in N0.
  destruct (debugLog_quiet config
              (js "成功获取匿名token用于模型获取: " ++ substring0 10 tok ++ js "...") w1)
    as [w0 [Hlog Q]].
  destruct (run_quiet (getBrowserHeaders config []) w0
                      ltac:(auto with effects) ltac:(auto with effects))
    as [hdrs [w2 [H2 N2]]].
  exists hdrs, w0, w2.
  unfold fetchLatestModels.
  unfold tryCatch at 1, bind at 1, tryCatch at 1.
  step Htok.
  unfold substring_receiver. unfold bind at 1, ret at 1.
  step Hlog. unfold ret at 1.
  step H2. cbv zeta.
  match goal with
  | |- context [fetch ?r] => exists r
  end.
  split; [exact Q|]. split; [exact H2|].
  cbn [url headers]. split; [reflexivity|]. split; [reflexivity|].
  unfold bind at 1, fetch at 1.
  assert (Hnet : network w2 = network w) by same_worlds.
  rewrite Hnet.
  match goal with
  | |- context [network w ?r] => destruct (network w r) as [e|response]
  end; cbn [latestModelsOf].
  - run_log. reflexivity.
  - destruct (ok response); cbn [negb].
    + unfold bind at 1, response_json.
      destruct (json response) as [[|token data]|]; cbn [ret throw read_data bind];
        run_log; reflexivity.
    + run_log. reflexivity.
Qed.

(** Once the anonymous token is there, the request for the model list
    carries the headers of [getBrowserHeaders] with Accept
    "application/json", Authorization "Bearer token" and a fixed
    User-Agent, that of Edge 140 on Linux, whatever browser identity was
    drawn; the other headers, sec-ch-ua among them, stay those of the
    identity drawn.  The list returned is what this request gives. *)
Theorem fetchLatestModels_headers (config : Config) (w w1 : World) (tok : jsstring) :
  getAnonymousToken config w = (Returned (JString tok), w1) ->
  exists hdrs w0 w2 request,
    sameButConsole w1 w0
    /\ getBrowserHeaders config [] w0 = (Returned hdrs, w2)
    /\ fst (fetchLatestModels config w) = Returned (latestModelsOf (network w request))
    /\ dict_get (js "User-Agent") (headers request)
       = Some (js "Mozilla/5.0 (X11; Linux x86_64) AppleWebKit/537.36 (KHTML, like Gecko) Chrome/140.0.0.0 Safari/537.36 Edg/140.0.0.0")
    /\ dict_get (js "Accept") (headers request) = Some (js "application/json")
    /\ dict_get (js "Authorization") (headers request) = Some (js "Bearer " ++ tok)
    /\ (forall k,
           ~ In k [js "User-Agent"; js "Accept"; js "Authorization"] ->
           dict_get k (headers request) = dict_get k hdrs).
Proof.
  intros Htok.
  destruct (fetchLatestModels_request config w w1 tok Htok)
    as [hdrs [w0 [w2 [request [Q [H2 [_ [Hh Hout]]]]]]]].
  exists hdrs, w0, w2, request.
  split; [exact Q|]. split; [exact H2|]. split; [exact Hout|].
  rewrite Hh.
  repeat split;
    try (rewrite ?dict_get_set_other by (vm_compute; discriminate);
         apply dict_get_set_same).
  intros k Hk. cbn [In] in Hk.
  rewrite !dict_get_set_other by (intros ->; tauto). reflexivity.
Qed.

Lemma fetchLatestModels_headers_witness :
  exists request,
    fst (fetchLatestModels exampleConfig exampleWorld)
    = Returned (latestModelsOf (network exampleWorld request))
    /\ dict_get (js "Accept") (headers request) = Some (js "application/json").
Proof.
  destruct (getAnonymousToken exampleConfig exampleWorld) as [o w1] eqn:Htok.
  assert (Ho : o = Returned (JString (js "anonymous-token"))).
  { change o with (fst (o, w1)). rewrite <- Htok. vm_compute. reflexivity. }
  subst o.
  destruct (fetchLatestModels_headers exampleConfig exampleWorld w1 _ Htok)
    as [hdrs [w0 [w2 [request [_ [_ [Hout [_ [Haccept _]]]]]]]]].
  exists request. split; [exact Hout | exact Haccept].
Defined.


(* ------------------------------------------------------------------ *)
(** ** The transform, piece by piece                                   *)
(* ------------------------------------------------------------------ *)

(** *** One replacement over texts and tags *)

(** Over a text without "<", a pattern that opens with "<" finds
    nothing. *)
Lemma replace_over_text (p : Pattern) (by_ text rest : jsstring) :
  prevIndependent p ->
  (forall (c : CodeUnit) (r : jsstring), c <> 60%N -> p None (c :: r) = None) ->
  absent 60%N text = true ->
  replace p by_ (text ++ rest) = text ++ replace p by_ rest.
Proof.
  intros Hp Hopen. induction text as [|c text IH]; intros Htext; [reflexivity|].
  apply absent_cons in Htext. destruct Htext as [Hc Htext].
  cbn [app]. rewrite replace_cons by exact Hp.
  rewrite Hopen by exact Hc. f_equal. apply IH. exact Htext.
Qed.

(** A tag that the pattern matches whole is replaced. *)
Lemma replace_over_match (p : Pattern) (by_ tag rest : jsstring) :
  prevIndependent p ->
  tag <> [] ->
  p None (tag ++ rest) = Some (length tag) ->
  replace p by_ (tag ++ rest) = by_ ++ replace p by_ rest.
Proof.
  intros Hp Htag Hmatch. destruct tag as [|c tag]; [congruence|].
  cbn [app] in *. rewrite replace_cons by exact Hp.
  rewrite Hmatch. cbn [length]. f_equal.
  rewrite skipn_app, skipn_all, Nat.sub_diag. reflexivity.
Qed.

(** A tag that the pattern does not match at its "<" is kept. *)
Lemma replace_over_miss (p : Pattern) (by_ : jsstring) (c : CodeUnit) (body rest : jsstring) :
  prevIndependent p ->
  (forall (c : CodeUnit) (r : jsstring), c <> 60%N -> p None (c :: r) = None) ->
  absent 60%N body = true ->
  p None ((c :: body) ++ rest) = None ->
  replace p by_ ((c :: body) ++ rest) = (c :: body) ++ replace p by_ rest.
Proof.
  intros Hp Hopen Hbody Hmiss. cbn [app] in *.
  rewrite replace_cons by exact Hp. rewrite Hmiss. f_equal.
  apply replace_over_text; assumption.
Qed.

Lemma literal_opens (l : jsstring) (c : CodeUnit) (r : jsstring) :
  hd_error l = Some 60%N -> c <> 60%N -> literal l None (c :: r) = None.
Proof.
  intros Hl Hc. destruct l as [|x l]; [discriminate|]. injection Hl as ->.
  unfold literal. rewrite startsWith_head by exact Hc. reflexivity.
Qed.

Lemma upToFirst_opens (open close : jsstring) (c : CodeUnit) (r : jsstring) :
  hd_error open = Some 60%N -> c <> 60%N -> upToFirst open close None (c :: r) = None.
Proof.
  intros Hl Hc. destruct open as [|x open]; [discriminate|]. injection Hl as ->.
  unfold upToFirst. rewrite startsWith_head by exact Hc. reflexivity.
Qed.

(** One replacement over pieces, when it goes through each of them. *)
Lemma replace_pieces (p : Pattern) (by_ : jsstring) (before after : Piece -> Piece)
      (pieces : list Piece) :
  (forall piece rest,
      In piece pieces ->
      replace p by_ (written (before piece) ++ rest)
      = written (after piece) ++ replace p by_ rest) ->
  replace p by_ (concat (map written (map before pieces)))
  = concat (map written (map after pieces)).
Proof.
  induction pieces as [|piece pieces IH]; intros Hstep; [reflexivity|].
  cbn [map concat]. rewrite Hstep by (left; reflexivity).
  f_equal. apply IH. intros q rest Hq. apply Hstep. right. exact Hq.
Qed.

(** The match of the details pattern on a details tag. *)
Lemma detailsOpen_match (attributes rest : jsstring) :
  absent 62%N attributes = true ->
  detailsOpen None (written (DetailsOpen attributes) ++ rest)
  = Some (length (written (DetailsOpen attributes))).
Proof.
  intros Ha. unfold detailsOpen, upToFirst, written.
  rewrite <- !app_assoc. rewrite startsWith_app.
  rewrite skipn_app, skipn_all, Nat.sub_diag. cbn [skipn app].
  change (js ">") with [62%N]. cbn [app].
  rewrite indexOf_single by exact Ha.
  rewrite !length_app. cbn [length]. f_equal; lia.
Qed.

Lemma indexOf_here (p s : jsstring) : startsWith p s = true -> indexOf p s = Some 0.
Proof. intros H. destruct s; cbn [indexOf]; rewrite H; reflexivity. Qed.

(** A text that opens with [c], after a text without [c]. *)
Lemma indexOf_after (c : CodeUnit) (p t r : jsstring) :
  hd_error p = Some c -> absent c t = true ->
  indexOf p (t ++ p ++ r) = Some (length t).
Proof.
  intros Hp Ht. destruct p as [|x p]; [discriminate|]. injection Hp as ->.
  rewrite indexOf_absent_head by exact Ht.
  rewrite indexOf_here by apply startsWith_app. cbn [option_map]. f_equal. lia.
Qed.

(** The match of the summary pattern on a summary block. *)
Lemma summaryBlock_match (inner rest : jsstring) :
  absent 60%N inner = true ->
  summaryBlock None (written (Summary inner) ++ rest)
  = Some (length (written (Summary inner))).
Proof.
  intros Hi. unfold summaryBlock, upToFirst, written.
  rewrite <- !app_assoc. rewrite startsWith_app.
  rewrite skipn_app, skipn_all, Nat.sub_diag. cbn [skipn app].
  rewrite (indexOf_after 60%N) by (reflexivity || exact Hi).
  rewrite !length_app. f_equal; lia.
Qed.

(** *** The six replacements on tags *)

Lemma literal_match (l rest : jsstring) :
  literal l None (l ++ rest) = Some (length l).
Proof. unfold literal. rewrite startsWith_app. reflexivity. Qed.

Ltac over_text H :=
  apply replace_over_text;
  [ first [apply prevIndependent_literal | apply prevIndependent_upToFirst]
  | first [ intros ? ? ?; apply literal_opens; [reflexivity | assumption]
          | intros ? ? ?; apply upToFirst_opens; [reflexivity | assumption] ]
  | first [ reflexivity
          | cbn [wellFormed] in H; apply andb_true_iff in H; tauto ] ].

Ltac over_miss c body rest :=
  match goal with
  | |- replace ?p ?by_ _ = _ =>
    refine (replace_over_miss p by_ c body rest _ _ _ _);
    [ first [apply prevIndependent_literal | apply prevIndependent_upToFirst]
    | first [ intros ? ? ?; apply literal_opens; [reflexivity | assumption]
            | intros ? ? ?; apply upToFirst_opens; [reflexivity | assumption] ]
    | |  ]
  end.

Ltac over_fixed_tag :=
  match goal with
  | |- replace ?p ?by_ (js ?t ++ ?rest) = _ =>
    let v := eval vm_compute in (js t) in
    lazymatch v with
    | ?c :: ?body =>
      over_miss c body rest; reflexivity
    end
  end.

Lemma absent_details (attributes : jsstring) :
  wellFormed (DetailsOpen attributes) = true ->
  absent 60%N (js "details" ++ attributes ++ js ">") = true
  /\ absent 62%N attributes = true.
Proof.
  cbn [wellFormed]. intros H.
  apply andb_true_iff in H. destruct H as [H _].
  apply andb_true_iff in H. destruct H as [H60 H62].
  split; [| exact H62]. rewrite !absent_app, H60. reflexivity.
Qed.

Ltac over_details_tag H :=
  match goal with
  | |- replace ?p ?by_ (written (DetailsOpen ?a) ++ ?rest) = _ =>
    over_miss 60%N (js "details" ++ a ++ js ">") rest;
    [ exact (proj1 (absent_details a H)) | reflexivity ]
  end.

Section Passes.

Variable mode : jsstring.
Variable pieces : list Piece.
Hypothesis wellFormedPieces : forallb wellFormed pieces = true.

Lemma pass_summary :
  replace summaryBlock [] (concat (map written (map (afterPass 0 mode) pieces)))
  = concat (map written (map (afterPass 1 mode) pieces)).
Proof.
  apply replace_pieces. intros piece rest Hin.
  pose proof (proj1 (forallb_forall _ _) wellFormedPieces piece Hin) as Hwf.
  destruct piece; cbn [afterPass Nat.leb];
    try (cbn [written]; unfold summaryBlock; over_fixed_tag).
  - cbn [written]. unfold summaryBlock. over_text Hwf.
  - refine (replace_over_match summaryBlock [] _ rest _ _ _).
    + apply prevIndependent_upToFirst.
    + cbn [written]. discriminate.
    + apply summaryBlock_match. exact Hwf.
  - unfold summaryBlock. over_details_tag Hwf.
Qed.

(** A pass on a literal tag [tag], the pieces [target] being written
    so: each of them is replaced, the other pieces stay. *)
Ltac literal_pass Hwf :=
  match goal with
  | |- replace (literal ?l) ?by_ (written ?q ++ ?rest) = _ =>
    first
      [ cbn [written]; over_fixed_tag
      | cbn [written]; over_text Hwf
      | over_details_tag Hwf
      | refine (replace_over_match (literal l) by_ l rest _ _ _);
        [ apply prevIndependent_literal | discriminate | apply literal_match ] ]
  end.

Lemma pass_thinking :
  replace (literal (js "</thinking>")) []
          (concat (map written (map (afterPass 1 mode) pieces)))
  = concat (map written (map (afterPass 2 mode) pieces)).
Proof.
  apply replace_pieces. intros piece rest Hin.
  pose proof (proj1 (forallb_forall _ _) wellFormedPieces piece Hin) as Hwf.
  destruct piece; cbn [afterPass Nat.leb]; literal_pass Hwf.
Qed.

Lemma pass_full_open :
  replace (literal (js "<Full>")) []
          (concat (map written (map (afterPass 2 mode) pieces)))
  = concat (map written (map (afterPass 3 mode) pieces)).
Proof.
  apply replace_pieces. intros piece rest Hin.
  pose proof (proj1 (forallb_forall _ _) wellFormedPieces piece Hin) as Hwf.
  destruct piece; cbn [afterPass Nat.leb]; literal_pass Hwf.
Qed.

Lemma pass_full_close :
  replace (literal (js "</Full>")) []
          (concat (map written (map (afterPass 3 mode) pieces)))
  = concat (map written (map (afterPass 4 mode) pieces)).
Proof.
  apply replace_pieces. intros piece rest Hin.
  pose proof (proj1 (forallb_forall _ _) wellFormedPieces piece Hin) as Hwf.
  destruct piece; cbn [afterPass Nat.leb]; literal_pass Hwf.
Qed.

(** The two replacements of the branch on the mode, [opening] and
    [closing] being what they put for a details tag. *)
Lemma pass_details_open (opening : jsstring) :
  (mode === js "think") = true /\ opening = js "<span>"
  \/ (mode === js "think") = false /\ (mode === js "strip") = true /\ opening = [] ->
  replace detailsOpen opening (concat (map written (map (afterPass 4 mode) pieces)))
  = concat (map written (map (afterPass 5 mode) pieces)).
Proof.
  intros Hmode.
  apply replace_pieces. intros piece rest Hin.
  pose proof (proj1 (forallb_forall _ _) wellFormedPieces piece Hin) as Hwf.
  destruct piece as [text|inner| | | |attributes| | |]; cbn [afterPass Nat.leb];
    try (cbn [written]; unfold detailsOpen;
         first [over_fixed_tag | over_text Hwf]).
  assert (Hput : written (if mode === js "think" then SpanOpen
                          else if mode === js "strip" then Text []
                               else DetailsOpen attributes) = opening)
    by (destruct Hmode as [[-> ->] | [-> [-> ->]]]; reflexivity).
  rewrite Hput.
  refine (replace_over_match detailsOpen opening _ rest _ _ _).
  - apply prevIndependent_upToFirst.
  - cbn [written]. discriminate.
  - apply detailsOpen_match. apply absent_details. exact Hwf.
Qed.

Lemma pass_details_close (closing : jsstring) :
  (mode === js "think") = true /\ closing = js "</span>"
  \/ (mode === js "think") = false /\ (mode === js "strip") = true /\ closing = [] ->
  replace (literal (js "</details>")) closing
          (concat (map written (map (afterPass 5 mode) pieces)))
  = concat (map written (map (afterPass 6 mode) pieces)).
Proof.
  intros Hmode.
  apply replace_pieces. intros piece rest Hin.
  pose proof (proj1 (forallb_forall _ _) wellFormedPieces piece Hin) as Hwf.
  destruct piece as [text|inner| | | |attributes| | |]; cbn [afterPass Nat.leb];
    try (literal_pass Hwf).
  - destruct Hmode as [[-> ->] | [-> [-> ->]]]; literal_pass Hwf.
  - assert (Hput : written (if mode === js "think" then SpanClose
                            else if mode === js "strip" then Text []
                                 else DetailsClose) = closing)
      by (destruct Hmode as [[-> ->] | [-> [-> ->]]]; reflexivity).
    rewrite Hput.
    refine (replace_over_match (literal (js "</details>")) closing
                               (js "</details>") rest _ _ _).
    + apply prevIndependent_literal.
    + discriminate.
    + apply literal_match.
Qed.

End Passes.

(** *** White space around the text *)

Lemma space_not_angle (sp : jsstring) :
  forallb isSpace sp = true -> absent 60%N sp = true /\ absent 62%N sp = true.
Proof.
  induction sp as [|c sp IH]; [split; reflexivity|].
  cbn [forallb]. intros H. apply andb_true_iff in H. destruct H as [Hc Hsp].
  destruct (IH Hsp) as [H60 H62]. unfold absent in *. cbn [forallb].
  rewrite H60, H62, !andb_true_r.
  split; apply negb_true_iff, N.eqb_neq; intros ->; discriminate Hc.
Qed.

(** A text without white space does not start on the last code units
    of a text and go on into white space. *)
Lemma startsWith_padded (l s sp : jsstring) :
  forallb (fun c => negb (isSpace c)) l = true ->
  forallb isSpace sp = true ->
  s <> [] ->
  startsWith l (s ++ sp) = startsWith l s.
Proof.
  intros Hl Hsp. revert s. induction l as [|a l IH]; intros s Hs; [reflexivity|].
  destruct s as [|b s]; [congruence|].
  cbn [forallb] in Hl. apply andb_true_iff in Hl. destruct Hl as [Ha Hl].
  cbn [app startsWith]. destruct s as [|b' s].
  - cbn [app]. destruct l as [|a' l]; [destruct sp; reflexivity|].
    cbn [startsWith]. destruct sp as [|x sp]; [reflexivity|].
    cbn [forallb] in Hl, Hsp.
    apply andb_true_iff in Hl. destruct Hl as [Ha' _].
    apply andb_true_iff in Hsp. destruct Hsp as [Hx _].
    cbn [startsWith]. replace (a' =? x)%N with false; [cbn [andb]; rewrite andb_false_r; reflexivity|].
    symmetry. apply N.eqb_neq. intros ->. rewrite Hx in Ha'. discriminate Ha'.
  - rewrite (IH Hl (b' :: s)) by discriminate. reflexivity.
Qed.

Lemma startsWith_length (l s : jsstring) : startsWith l s = true -> length l <= length s.
Proof.
  intros H. apply startsWith_split in H. destruct H as [r ->].
  rewrite length_app. lia.
Qed.

Lemma indexOf_padded (c : CodeUnit) (s sp : jsstring) :
  absent c sp = true -> indexOf [c] (s ++ sp) = indexOf [c] s.
Proof.
  intros Hsp. induction s as [|x s IH].
  - cbn [app]. induction sp as [|y sp IHsp]; [reflexivity|].
    apply absent_cons in Hsp. destruct Hsp as [Hy Hsp].
    cbn [indexOf]. rewrite startsWith_head by exact Hy.
    rewrite (IHsp Hsp). reflexivity.
  - cbn [app indexOf startsWith]. rewrite IH. reflexivity.
Qed.

(** A replacement goes through a text and leaves the white space after
    it, when its pattern neither reaches into that white space nor
    reads it. *)
Lemma replace_padded (p : Pattern) (by_ sp : jsstring) :
  prevIndependent p ->
  (forall s, s <> [] -> p None (s ++ sp) = p None s) ->
  (forall s n, p None s = Some n -> n <= length s) ->
  replace p by_ sp = sp ->
  forall s, replace p by_ (s ++ sp) = replace p by_ s ++ sp.
Proof.
  intros Hp Hsame Hfits Hsp s.
  remember (length s) as n eqn:Hn. revert s Hn.
  induction n as [n IH] using lt_wf_ind. intros s Hn.
  destruct s as [|c r]; [exact Hsp|].
  cbn [app]. rewrite !replace_cons by exact Hp.
  change (c :: r ++ sp) with ((c :: r) ++ sp).
  rewrite (Hsame (c :: r)) by discriminate.
  destruct (p None (c :: r)) as [[|k]|] eqn:Hmatch.
  - cbn [app]. f_equal. apply (IH (length r)); [subst; cbn; lia | reflexivity].
  - apply Hfits in Hmatch. cbn [length] in Hmatch.
    rewrite skipn_app. replace (k - length r) with 0 by lia. cbn [skipn].
    rewrite (IH (length (skipn k r))); [apply app_assoc | | reflexivity].
    subst. rewrite length_skipn. cbn [length]. lia.
  - cbn [app]. f_equal. apply (IH (length r)); [subst; cbn; lia | reflexivity].
Qed.

Lemma literal_padded (l by_ s sp : jsstring) :
  hd_error l = Some 60%N ->
  forallb (fun c => negb (isSpace c)) l = true ->
  forallb isSpace sp = true ->
  replace (literal l) by_ (s ++ sp) = replace (literal l) by_ s ++ sp.
Proof.
  intros Hhead Hl Hsp. apply replace_padded.
  - apply prevIndependent_literal.
  - intros s' Hs'. unfold literal. rewrite startsWith_padded by assumption. reflexivity.
  - intros s' n. unfold literal. destruct (startsWith l s') eqn:E; [|discriminate].
    intros [= <-]. apply startsWith_length. exact E.
  - rewrite <- (app_nil_r sp) at 1. rewrite replace_over_text.
    + apply app_nil_r.
    + apply prevIndependent_literal.
    + intros c r Hc. apply literal_opens; assumption.
    + apply space_not_angle. exact Hsp.
Qed.

Lemma detailsOpen_padded (by_ s sp : jsstring) :
  forallb isSpace sp = true ->
  replace detailsOpen by_ (s ++ sp) = replace detailsOpen by_ s ++ sp.
Proof.
  intros Hsp. apply replace_padded.
  - apply prevIndependent_upToFirst.
  - intros s' Hs'. unfold detailsOpen, upToFirst.
    rewrite startsWith_padded by (reflexivity || assumption).
    destruct (startsWith (js "<details") s') eqn:E; [|reflexivity].
    apply startsWith_length in E.
    rewrite skipn_app. replace (length (js "<details") - length s') with 0 by lia.
    cbn [skipn]. change (js ">") with [62%N].
    rewrite indexOf_padded by (apply space_not_angle; exact Hsp). reflexivity.
  - intros s' n. unfold detailsOpen, upToFirst.
    destruct (startsWith (js "<details") s') eqn:E; [|discriminate].
    apply startsWith_length in E.
    destruct (indexOf (js ">") (skipn (length (js "<details")) s')) as [i|] eqn:Hi;
      [|discriminate].
    intros [= <-]. apply indexOf_fits in Hi. rewrite length_skipn in Hi.
    change (length (js "<details")) with 8 in *. change (length (js ">")) with 1 in *.
    lia.
  - rewrite <- (app_nil_r sp) at 1. rewrite replace_over_text.
    + apply app_nil_r.
    + apply prevIndependent_upToFirst.
    + intros c r Hc. apply upToFirst_opens; [reflexivity | assumption].
    + apply space_not_angle. exact Hsp.
Qed.

(** *** No quotation prefix *)

Lemma linePrefix_still (s : jsstring) (prev : option CodeUnit) :
  noQuote prev s = true -> replace_go linePrefix [] 0 prev s = s.
Proof.
  revert prev. induction s as [|c r IH]; intros prev H; [reflexivity|].
  cbn [noQuote] in H. apply andb_true_iff in H. destruct H as [Hhere Hrest].
  apply negb_true_iff in Hhere.
  cbn [replace_go]. unfold linePrefix at 1. cbv zeta. rewrite Hhere.
  f_equal. apply IH. exact Hrest.
Qed.

Lemma closingQuote_still (s : jsstring) (prev : option CodeUnit) :
  noQuote prev s = true -> replace (literal (LF ++ js "> ")) LF s = s.
Proof.
  unfold replace. generalize (@None CodeUnit) as seen. revert prev.
  induction s as [|c r IH]; intros prev seen H; [reflexivity|].
  cbn [noQuote] in H. apply andb_true_iff in H. destruct H as [_ Hrest].
  cbn [replace_go]. unfold literal at 1.
  replace (startsWith (LF ++ js "> ") (c :: r)) with false.
  - f_equal. apply (IH (Some c)). exact Hrest.
  - symmetry. change (LF ++ js "> ") with (10%N :: js "> "). cbn [startsWith].
    destruct (10 =? c)%N eqn:E; [|reflexivity]. apply N.eqb_eq in E. subst c.
    destruct r as [|c' r']; [reflexivity|].
    cbn [noQuote] in Hrest. apply andb_true_iff in Hrest. destruct Hrest as [Hhere _].
    apply negb_true_iff in Hhere. exact Hhere.
Qed.

Lemma startsWith_shorter (p s r : jsstring) :
  startsWith p (s ++ r) = false -> startsWith p s = false.
Proof.
  intros H. destruct (startsWith p s) eqn:E; [|reflexivity].
  apply startsWith_split in E. destruct E as [t ->].
  rewrite <- app_assoc, startsWith_app in H. discriminate H.
Qed.

(** The property goes to the start of a text. *)
Lemma noQuote_start (s r : jsstring) (prev : option CodeUnit) :
  noQuote prev (s ++ r) = true -> noQuote prev s = true.
Proof.
  revert prev. induction s as [|c s IH]; intros prev H; [reflexivity|].
  cbn [app noQuote] in *. apply andb_true_iff in H. destruct H as [Hhere Hrest].
  rewrite (IH _ Hrest), andb_true_r.
  apply negb_true_iff in Hhere. apply negb_true_iff.
  apply andb_false_iff in Hhere. apply andb_false_iff.
  destruct Hhere as [Hhere|Hhere]; [left; exact Hhere|].
  right. exact (startsWith_shorter _ (c :: s) r Hhere).
Qed.

(** It goes to the end of a text that does not begin with the prefix. *)
Lemma noQuote_end (s r : jsstring) (prev : option CodeUnit) :
  noQuote prev (s ++ r) = true -> startsWith (js "> ") r = false ->
  noQuote None r = true.
Proof.
  intros H Hr.
  assert (Hany : exists seen, noQuote seen r = true).
  { revert prev H. induction s as [|c s IH]; intros prev H; [exists prev; exact H|].
    cbn [app noQuote] in H. apply andb_true_iff in H. destruct H as [_ Hrest].
    exact (IH _ Hrest). }
  destruct Hany as [seen Hseen]. destruct r as [|c r]; [reflexivity|].
  cbn [noQuote] in *. apply andb_true_iff in Hseen. destruct Hseen as [_ Hrest].
  rewrite Hr, Hrest, andb_false_r. reflexivity.
Qed.

(** A run without ">" holds no prefix; the ">" that follows a run that
    stays on its line is the start of none. *)
Lemma noQuote_run (run rest : jsstring) (prev : option CodeUnit) :
  absent 62%N run = true ->
  (forall seen, noQuote seen rest = true) ->
  noQuote prev (run ++ rest) = true.
Proof.
  intros Hrun Hrest. revert prev.
  induction run as [|c run IH]; intros prev; [apply Hrest|].
  apply absent_cons in Hrun. destruct Hrun as [Hc Hrun].
  cbn [app noQuote]. rewrite (IH Hrun), andb_true_r.
  change (js "> ") with (62%N :: js " "). rewrite startsWith_head by exact Hc.
  rewrite andb_false_r. reflexivity.
Qed.

Lemma last_after (default default' : CodeUnit) (before s : jsstring) :
  s <> [] -> last (before ++ s) default = last s default'.
Proof.
  intros Hs. induction before as [|c before IH].
  - cbn [app]. clear - Hs. induction s as [|c s IH]; [congruence|].
    destruct s as [|c' s]; [reflexivity|]. cbn [last] in *. apply IH. discriminate.
  - cbn [app last]. destruct (before ++ s) eqn:E; [|exact IH].
    apply app_eq_nil in E. tauto.
Qed.

Lemma noQuote_tag (c : CodeUnit) (body rest : jsstring) (prev : option CodeUnit) :
  c <> 62%N -> absent 62%N body = true ->
  isLineTerminator (last (c :: body) c) = false ->
  (forall seen, noQuote seen rest = true) ->
  noQuote prev ((c :: body) ++ 62%N :: rest) = true.
Proof.
  intros Hc Hbody Hlast Hrest. revert c prev Hc Hlast.
  induction body as [|b body IH]; intros c prev Hc Hlast.
  - cbn [app noQuote last] in *.
    change (js "> ") with (62%N :: js " ") at 1. rewrite startsWith_head by exact Hc.
    rewrite Hlast, Hrest, andb_false_r. reflexivity.
  - apply absent_cons in Hbody. destruct Hbody as [Hb Hbody].
    change (noQuote prev (c :: (b :: body) ++ 62%N :: rest) = true).
    cbn [noQuote].
    change (js "> ") with (62%N :: js " ") at 1. rewrite startsWith_head by exact Hc.
    rewrite andb_false_r. cbn [negb andb].
    apply (IH Hbody b (Some c) Hb).
    rewrite <- Hlast. f_equal. symmetry.
    apply (last_after c b [c] (b :: body)). discriminate.
Qed.

(** *** The transform on pieces *)

Lemma afterPass_none (mode : jsstring) (pieces : list Piece) :
  map (afterPass 0 mode) pieces = pieces.
Proof.
  rewrite <- (map_id pieces) at 2. apply map_ext. intros piece.
  destruct piece; reflexivity.
Qed.

Lemma afterPass_all (mode : jsstring) (pieces : list Piece) :
  map written (map (afterPass 6 mode) pieces) = map (transformed mode) pieces.
Proof.
  rewrite map_map. apply map_ext. intros piece.
  destruct piece; cbn [afterPass Nat.leb transformed written]; try reflexivity;
    destruct (mode === js "think"); try reflexivity;
      destruct (mode === js "strip"); reflexivity.
Qed.

Lemma afterPass_kept (mode : jsstring) (pieces : list Piece) :
  (mode === js "think") = false -> (mode === js "strip") = false ->
  map (afterPass 6 mode) pieces = map (afterPass 4 mode) pieces.
Proof.
  intros Hthink Hstrip. apply map_ext. intros piece.
  destruct piece; cbn [afterPass Nat.leb]; rewrite ?Hthink, ?Hstrip; reflexivity.
Qed.

Lemma cleanTags_pieces (mode : jsstring) (pieces : list Piece) :
  forallb wellFormed pieces = true ->
  cleanTags (concat (map written pieces))
  = concat (map written (map (afterPass 4 mode) pieces)).
Proof.
  intros Hwf. unfold cleanTags.
  rewrite <- (afterPass_none mode pieces) at 1.
  rewrite (pass_summary mode pieces Hwf), (pass_thinking mode pieces Hwf),
    (pass_full_open mode pieces Hwf).
  apply (pass_full_close mode pieces Hwf).
Qed.

(** The branch on the mode, over the cleaned text before it is trimmed. *)
Lemma detailsPass_pieces (mode : jsstring) (pieces : list Piece) :
  forallb wellFormed pieces = true ->
  detailsPass mode (concat (map written (map (afterPass 4 mode) pieces)))
  = concat (map (transformed mode) pieces).
Proof.
  intros Hwf. rewrite <- afterPass_all. unfold detailsPass.
  destruct (mode === js "think") eqn:Hthink.
  - rewrite (pass_details_open mode pieces Hwf (js "<span>")) by (left; auto).
    apply (pass_details_close mode pieces Hwf). left. auto.
  - destruct (mode === js "strip") eqn:Hstrip.
    + rewrite (pass_details_open mode pieces Hwf []) by (right; auto).
      apply (pass_details_close mode pieces Hwf). right. auto.
    + rewrite afterPass_kept by assumption. reflexivity.
Qed.

(** The branch leaves the white space at the two ends where it is. *)
Lemma detailsPass_padded (mode lead s trail : jsstring) :
  forallb isSpace lead = true -> forallb isSpace trail = true ->
  detailsPass mode (lead ++ s ++ trail) = lead ++ detailsPass mode s ++ trail.
Proof.
  intros Hlead Htrail.
  assert (Hopen : forall by_ x,
             replace detailsOpen by_ (lead ++ x ++ trail)
             = lead ++ replace detailsOpen by_ x ++ trail).
  { intros by_ x. rewrite replace_over_text.
    - rewrite detailsOpen_padded by exact Htrail. reflexivity.
    - apply prevIndependent_upToFirst.
    - intros c r Hc. apply upToFirst_opens; [reflexivity | assumption].
    - apply space_not_angle. exact Hlead. }
  assert (Hclose : forall by_ x,
             replace (literal (js "</details>")) by_ (lead ++ x ++ trail)
             = lead ++ replace (literal (js "</details>")) by_ x ++ trail).
  { intros by_ x. rewrite replace_over_text.
    - rewrite literal_padded by (reflexivity || exact Htrail). reflexivity.
    - apply prevIndependent_literal.
    - intros c r Hc. apply literal_opens; [reflexivity | assumption].
    - apply space_not_angle. exact Hlead. }
  unfold detailsPass.
  destruct (mode === js "think"); [rewrite Hopen, Hclose; reflexivity|].
  destruct (mode === js "strip"); [rewrite Hopen, Hclose; reflexivity|].
  reflexivity.
Qed.

Lemma trim_split (s : jsstring) :
  exists lead trail,
    forallb isSpace lead = true /\ forallb isSpace trail = true
    /\ s = lead ++ trim s ++ trail.
Proof.
  destruct (trimStart_suffix s) as [lead [E Hlead]].
  destruct (trimEnd_prefix (trimStart s)) as [trail [E' Htrail]].
  exists lead, trail. split; [exact Hlead|]. split; [exact Htrail|].
  unfold trim. rewrite <- E'. exact E.
Qed.

(** No piece of the result brings a quotation prefix. *)
Lemma noQuote_fixed_tag (body rest : jsstring) (prev : option CodeUnit) :
  absent 62%N body = true ->
  isLineTerminator (last (60%N :: body) 60%N) = false ->
  (forall seen, noQuote seen rest = true) ->
  noQuote prev ((60%N :: body) ++ 62%N :: rest) = true.
Proof. intros. apply noQuote_tag; auto; discriminate. Qed.

Lemma noQuote_details (attributes rest : jsstring) (prev : option CodeUnit) :
  wellFormed (DetailsOpen attributes) = true ->
  (forall seen, noQuote seen rest = true) ->
  noQuote prev (written (DetailsOpen attributes) ++ rest) = true.
Proof.
  intros Hwf Hrest. cbn [wellFormed] in Hwf.
  apply andb_true_iff in Hwf. destruct Hwf as [Hwf Hline].
  apply andb_true_iff in Hwf. destruct Hwf as [_ Hclose].
  apply negb_true_iff in Hline.
  transitivity (noQuote prev ((60%N :: js "details" ++ attributes) ++ 62%N :: rest)).
  - f_equal. cbn [written]. change (js "<details") with (60%N :: js "details").
    change (js ">") with [62%N]. cbn [app]. f_equal.
    rewrite <- !app_assoc. reflexivity.
  - apply noQuote_fixed_tag; [| |exact Hrest].
    + rewrite absent_app, Hclose. reflexivity.
    + destruct attributes as [|c attributes]; [reflexivity|].
      change (60%N :: js "details" ++ c :: attributes)
        with ((60%N :: js "details") ++ c :: attributes).
      rewrite (last_after 60%N 0%N) by discriminate. exact Hline.
Qed.

Lemma noQuote_pieces (mode : jsstring) (pieces : list Piece) :
  forallb wellFormed pieces = true ->
  forall prev, noQuote prev (concat (map (transformed mode) pieces)) = true.
Proof.
  induction pieces as [|piece pieces IH]; intros Hwf; [intros prev; reflexivity|].
  cbn [forallb] in Hwf. apply andb_true_iff in Hwf. destruct Hwf as [Hpiece Hwf].
  specialize (IH Hwf). intros prev. cbn [map concat].
  destruct piece as [text|inner| | | |attributes| | |]; cbn [transformed written].
  - apply noQuote_run; [|exact IH].
    cbn [wellFormed] in Hpiece. apply andb_true_iff in Hpiece. tauto.
  - apply IH.
  - apply IH.
  - apply IH.
  - apply IH.
  - destruct (mode === js "think");
      [exact (noQuote_fixed_tag (js "span") _ prev eq_refl eq_refl IH)|].
    destruct (mode === js "strip"); [apply IH|].
    apply noQuote_details; assumption.
  - destruct (mode === js "think");
      [exact (noQuote_fixed_tag (js "/span") _ prev eq_refl eq_refl IH)|].
    destruct (mode === js "strip"); [apply IH|].
    exact (noQuote_fixed_tag (js "/details") _ prev eq_refl eq_refl IH).
  - exact (noQuote_fixed_tag (js "span") _ prev eq_refl eq_refl IH).
  - exact (noQuote_fixed_tag (js "/span") _ prev eq_refl eq_refl IH).
Qed.

(** Nor does the result open with ">" after its leading white space. *)
Lemma trimStart_text (text rest : jsstring) :
  absent 62%N text = true ->
  hd_error (trimStart rest) <> Some 62%N ->
  hd_error (trimStart (text ++ rest)) <> Some 62%N.
Proof.
  intros Htext Hrest. induction text as [|c text IH]; [exact Hrest|].
  apply absent_cons in Htext. destruct Htext as [Hc Htext].
  cbn [app trimStart]. destruct (isSpace c); [exact (IH Htext)|].
  cbn [hd_error]. congruence.
Qed.

Lemma trimStart_pieces (mode : jsstring) (pieces : list Piece) :
  forallb wellFormed pieces = true ->
  hd_error (trimStart (concat (map (transformed mode) pieces))) <> Some 62%N.
Proof.
  induction pieces as [|piece pieces IH]; intros Hwf; [discriminate|].
  cbn [forallb] in Hwf. apply andb_true_iff in Hwf. destruct Hwf as [Hpiece Hwf].
  specialize (IH Hwf). cbn [map concat].
  destruct piece as [text|inner| | | |attributes| | |]; cbn [transformed written];
    try exact IH; try discriminate.
  - apply trimStart_text; [|exact IH].
    cbn [wellFormed] in Hpiece. apply andb_true_iff in Hpiece. tauto.
  - destruct (mode === js "think"); [discriminate|].
    destruct (mode === js "strip"); [exact IH | discriminate].
  - destruct (mode === js "think"); [discriminate|].
    destruct (mode === js "strip"); [exact IH | discriminate].
Qed.

Lemma trimStart_spaces (lead s : jsstring) :
  forallb isSpace lead = true -> trimStart (lead ++ s) = trimStart s.
Proof.
  induction lead as [|c lead IH]; [reflexivity|]. cbn [forallb]. intros H.
  apply andb_true_iff in H. destruct H as [Hc Hlead].
  cbn [app trimStart]. rewrite Hc. exact (IH Hlead).
Qed.

(** The transform on a text in pieces: each piece is transformed, and
    the white space at the two ends goes. *)
Lemma transformThinkingContent_pieces (config : Config) (pieces : list Piece) :
  forallb wellFormed pieces = true ->
  isTrimOf (concat (map (transformed (THINKING_PROCESSING config)) pieces))
           (transformThinkingContent config (concat (map written pieces))).
Proof.
  intros Hwf. set (mode := THINKING_PROCESSING config).
  change (transformThinkingContent config (concat (map written pieces)))
    with (finishThinking config (cleanTags (concat (map written pieces)))).
  rewrite (cleanTags_pieces mode pieces Hwf). unfold finishThinking. fold mode.
  set (cleaned := concat (map written (map (afterPass 4 mode) pieces))).
  pose proof (detailsPass_pieces mode pieces Hwf) as Hwhole. fold cleaned in Hwhole.
  destruct (trim_split cleaned) as [lead [trail [Hlead [Htrail Hcleaned]]]].
  rewrite Hcleaned in Hwhole at 1.
  rewrite detailsPass_padded in Hwhole by assumption.
  set (middle := detailsPass mode (trim cleaned)) in *.
  assert (Hquote : noQuote None middle = true).
  { apply (noQuote_start middle trail).
    apply (noQuote_end lead (middle ++ trail) None).
    - rewrite Hwhole. apply noQuote_pieces. exact Hwf.
    - destruct (middle ++ trail) as [|c r] eqn:E; [reflexivity|].
      destruct (N.eq_dec c 62%N) as [->|Hc];
        [|change (js "> ") with (62%N :: js " "); apply startsWith_head; exact Hc].
      exfalso. apply (trimStart_pieces mode pieces Hwf).
      rewrite <- Hwhole, trimStart_spaces by exact Hlead. reflexivity. }
  rewrite (linePrefix_still middle None Hquote : replace linePrefix [] middle = middle).
  rewrite (closingQuote_still middle None Hquote).
  split; [apply trim_trimmed|].
  destruct (trim_split middle) as [lead' [trail' [Hlead' [Htrail' Hmiddle]]]].
  exists (lead ++ lead'), (trail' ++ trail).
  rewrite !forallb_app, Hlead, Hlead', Htrail, Htrail'.
  split; [reflexivity|]. split; [reflexivity|].
  rewrite <- Hwhole. rewrite Hmiddle at 1. rewrite <- !app_assoc. reflexivity.
Qed.

(** Outside the mode "think" the later statements only delete. *)
Lemma finishThinking_deletes (config : Config) (cleaned : jsstring) :
  (THINKING_PROCESSING config === js "think") = false ->
  subseq (finishThinking config cleaned) cleaned.
Proof.
  intros Hmode. unfold finishThinking, detailsPass. rewrite Hmode.
  eapply subseq_trans; [apply trim_subseq|].
  eapply subseq_trans; [apply (replace_go_shortens 10%N (js "> "))|].
  eapply subseq_trans; [apply replace_go_deletes|].
  destruct (THINKING_PROCESSING config === js "strip").
  - repeat (eapply subseq_trans; [apply replace_go_deletes|]). apply trim_subseq.
  - apply trim_subseq.
Qed.



